(** * Self-play trainer: league pool, GAE, PPO clipping, masked sampling,
      mock environment and trainer loop

    A shallow embedding of [src/ml/selfplay] and the properties its
    specification states about it.  Python floats are idealised as exact
    rationals ([Q]); Python ints are [Z]; lists are lists.  Code that can
    raise returns in the [result] type below. *)

From Stdlib Require Import ZArith QArith Qminmax Qround Qpower Lia Lqa String List.
From stdpp Require Import base option list gmap strings pretty.
Import ListNotations.

Local Open Scope Z_scope.

(** ** Exceptions *)

Inductive exn : Type :=
| IndexError
| ValueError
| AttributeError
| ZeroDivisionError
| FileNotFoundError.

Inductive result (A : Type) : Type :=
| Ok (a : A)
| Raise (e : exn).
Arguments Ok {A} a.
Arguments Raise {A} e.

Definition rbind {A B} (r : result A) (k : A -> result B) : result B :=
  match r with
  | Ok a => k a
  | Raise e => Raise e
  end.

Notation "'let*' x ':=' r 'in' k" := (rbind r (fun x => k))
  (at level 10, x name, r at level 100, k at level 200).

(** ** Numeric helpers shared by the modules *)

Module Numeric.

(** Python's [a < b], [a >= b], ... on floats. *)
Definition Qltb (a b : Q) : bool :=
  match a ?= b with Lt => true | _ => false end%Q.
Definition Qleb (a b : Q) : bool :=
  match a ?= b with Gt => false | _ => true end%Q.
Definition Qeqb (a b : Q) : bool :=
  match a ?= b with Eq => true | _ => false end%Q.

(** [np.clip(x, lo, hi)] and [torch.clamp(x, lo, hi)]:
    [minimum(maximum(x, lo), hi)]. *)
Definition clip (x lo hi : Q) : Q := Qmin (Qmax x lo) hi.

(** Python slice [l[:k]] for an int [k] of either sign. *)
Definition slice_to {A} (k : Z) (l : list A) : list A :=
  if 0 <=? k then firstn (Z.to_nat k) l
  else firstn (Z.to_nat (Z.of_nat (length l) + k)) l.

(** Python's [min(l)] on a non-empty list [x :: r]. *)
Definition min_of (x : Q) (r : list Q) : Q :=
  fold_left (fun acc y => Qmin acc y) r x.

End Numeric.

(** ** league.py *)

Module League.
Import Numeric.

Record LeagueEntry : Type := mkEntry {
  checkpoint_path : string;
  steps : Z;
  elo : Q;
  winrate_vs_smart : Q
}.

Record LeaguePool : Type := mkPool {
  keep_top_n : Z;
  entries : list LeagueEntry
}.

(** [LeaguePool(keep_top_n)] *)
Definition init (n : Z) : LeaguePool := mkPool n [].

(** Dataclass equality: field by field. *)
Definition entry_eqb (a b : LeagueEntry) : bool :=
  String.eqb (checkpoint_path a) (checkpoint_path b)
  && (steps a =? steps b)
  && Qeqb (elo a) (elo b)
  && Qeqb (winrate_vs_smart a) (winrate_vs_smart b).

(** [candidate in self.entries] *)
Definition entry_in (c : LeagueEntry) (l : list LeagueEntry) : bool :=
  existsb (entry_eqb c) l.

(** The sort key [(item.elo, item.winrate_vs_smart, item.steps)] and the
    tuple order [key a < key b]. *)
Definition key_ltb (a b : LeagueEntry) : bool :=
  match (elo a ?= elo b)%Q with
  | Lt => true
  | Gt => false
  | Eq =>
      match (winrate_vs_smart a ?= winrate_vs_smart b)%Q with
      | Lt => true
      | Gt => false
      | Eq => steps a <? steps b
      end
  end.

(** [list.sort(key=..., reverse=True)]: descending and stable, entries
    with equal keys keep their order. *)
Fixpoint insert_desc (x : LeagueEntry) (l : list LeagueEntry) : list LeagueEntry :=
  match l with
  | [] => [x]
  | y :: r => if key_ltb x y then y :: insert_desc x r else x :: y :: r
  end.

Definition sort_desc (l : list LeagueEntry) : list LeagueEntry :=
  fold_right insert_desc [] l.

(** [add_checkpoint]: returns the pool and the new entry. *)
Definition add_checkpoint (pool : LeaguePool) (path : string) (st : Z) (winrate : Q)
  : LeaguePool * LeagueEntry :=
  let entry := mkEntry path st
                 (1000 + Qmax 0 ((winrate - (1#2)) * 400))%Q
                 winrate in
  let es := sort_desc (entries pool ++ [entry]) in
  let es := if keep_top_n pool * 3 <? Z.of_nat (length es)
            then slice_to (keep_top_n pool * 3) es else es in
  (mkPool (keep_top_n pool) es, entry).

(** [promote_if_qualified]: returns the pool and the verdict. *)
Definition promote_if_qualified (pool : LeaguePool) (candidate : LeagueEntry)
    (top3_baseline : list Q) : LeaguePool * bool :=
  if Qltb (winrate_vs_smart candidate) (55#100) then (pool, false)
  else
    let below_all :=
      match top3_baseline with
      | [] => false
      | x :: r =>
          Qltb (winrate_vs_smart candidate) (min_of x r)
      end in
    if below_all then (pool, false)
    else
      let es := if entry_in candidate (entries pool) then entries pool
                else entries pool ++ [candidate] in
      let es := sort_desc es in
      let es := slice_to (Z.max (keep_top_n pool) (Z.of_nat (length es))) es in
      (mkPool (keep_top_n pool) es, true).

(** [top(n)] *)
Definition top (pool : LeaguePool) (n : Z) : list LeagueEntry :=
  slice_to n (entries pool).

(** The order the pool is meant to be kept in: no entry is followed by
    one with a larger key. *)
Definition key_geb (a b : LeagueEntry) : bool := negb (key_ltb a b).

Fixpoint sorted_desc (l : list LeagueEntry) : bool :=
  match l with
  | [] => true
  | a :: r =>
      match r with
      | [] => true
      | b :: _ => key_geb a b && sorted_desc r
      end
  end.

(** What the trainer does with one evaluation result: deposit the
    checkpoint, then ask for promotion against the win-rates of the top
    three. *)
Definition deposit (pool : LeaguePool) (r : string * Z * Q) : LeaguePool * bool :=
  let '(path, st, winrate) := r in
  let '(pool, entry) := add_checkpoint pool path st winrate in
  promote_if_qualified pool entry (map winrate_vs_smart (top pool 3)).

(** Nine evaluation results with rising win-rates, for examples. *)
Definition nine_results : list (string * Z * Q) :=
  [ ("ck1", 1, 60 # 100); ("ck2", 2, 61 # 100); ("ck3", 3, 62 # 100);
    ("ck4", 4, 63 # 100); ("ck5", 5, 64 # 100); ("ck6", 6, 65 # 100);
    ("ck7", 7, 66 # 100); ("ck8", 8, 67 # 100); ("ck9", 9, 68 # 100) ]%string.

(** Two entries for examples, with the rating [add_checkpoint] gives
    their win-rates. *)
Definition entry_a : LeagueEntry := mkEntry "checkpoint_100.pt" 100 1040 (6 # 10).
Definition entry_b : LeagueEntry := mkEntry "checkpoint_200.pt" 200 1080 (7 # 10).

End League.

(** ** config.py *)

Module Config.

Record PPOConfig : Type := mkPPO {
  gamma : Q;
  gae_lambda : Q;
  clip_epsilon : Q;
  value_coef : Q;
  entropy_coef : Q;
  entropy_coef_min : Q;
  entropy_anneal_steps : Z;
  ppo_epochs : Z;
  minibatch_size : Z;
  kl_target : Q;
  kl_hard_stop : Q
}.

Definition default_ppo : PPOConfig :=
  mkPPO (995#1000) (95#100) (2#10) (5#10) (1#100) (1#1000) 3000000
        4 1024 (3#100) (8#100).

Record ModelConfig : Type := mkModel {
  static_dim : nat;
  sequence_len : nat;
  token_dim : nat;
  action_dim : nat;
  unit_dim : nat;
  turret_dim : nat;
  slot_dim : nat
}.

Definition default_model : ModelConfig := mkModel 56 240 8 8 128 32 4.

Record RuntimeConfig : Type := mkRuntime {
  seed : Z;
  num_envs : Z;
  rollout_horizon : Z;
  total_steps : Z;
  checkpoint_every : Z;
  eval_every : Z;
  eval_matches : Z;
  save_dir : string;
  log_interval : Z;
  entropy_floor_alert : Q
}.

Definition default_runtime : RuntimeConfig :=
  mkRuntime 1337 8 256 10000000 100000 200000 200 "checkpoints" 2048 (3#1000).

Record OvernightConfig : Type := mkConfig {
  ppo : PPOConfig;
  model : ModelConfig;
  runtime : RuntimeConfig
}.

Definition set_entropy_coef (c : PPOConfig) (v : Q) : PPOConfig :=
  mkPPO (gamma c) (gae_lambda c) (clip_epsilon c) (value_coef c) v
        (entropy_coef_min c) (entropy_anneal_steps c) (ppo_epochs c)
        (minibatch_size c) (kl_target c) (kl_hard_stop c).

End Config.

(** ** ppo.py *)

Module Ppo.
Import Numeric Config.
Local Open Scope Q_scope.

(** One row of a [(horizon, num_envs)] array: a value per lane. *)
Definition vec : Type := list Q.

Definition vadd (a b : vec) : vec := zip_with Qplus a b.
Definition vsub (a b : vec) : vec := zip_with Qminus a b.
Definition vmul (a b : vec) : vec := zip_with Qmult a b.
Definition vscale (c : Q) (a : vec) : vec := map (Qmult c) a.
Definition zeros (n : nat) : vec := repeat 0 n.

(** [a[i]] for a two-dimensional array. *)
Definition row (a : list vec) (i : nat) : vec := nth i a [].

(** The body of the loop of [compute_gae], on the loop state
    [(advantages, last_gae)]. *)
Definition gae_body (rewards values dones : list vec) (next_value : vec)
    (gamma gae_lambda : Q) (horizon step : nat) (st : list vec * vec)
  : list vec * vec :=
  let '(advantages, last_gae) := st in
  let non_terminal := map (fun d => 1 - d) (row dones step) in
  let value_next :=
    if (step =? horizon - 1)%nat then next_value else row values (step + 1) in
  let delta :=
    vsub (vadd (row rewards step) (vmul (vscale gamma value_next) non_terminal))
         (row values step) in
  let last_gae := vadd delta (vmul (vscale (gamma * gae_lambda) non_terminal) last_gae) in
  (<[step := last_gae]> advantages, last_gae).

(** The loop [for step in reversed(range(horizon))], from [start] on. *)
Definition gae_loop (rewards values dones : list vec) (next_value : vec)
    (gamma gae_lambda : Q) (horizon num_envs start : nat) : list vec * vec :=
  fold_left
    (fun st step => gae_body rewards values dones next_value gamma gae_lambda
                             horizon step st)
    (rev (seq start (horizon - start)))
    (repeat (zeros num_envs) horizon, zeros num_envs).

(** [compute_gae]: [(advantages, returns)]. *)
Definition compute_gae (rewards values dones : list vec) (next_value : vec)
    (gamma gae_lambda : Q) : list vec * list vec :=
  let horizon := length rewards in
  let num_envs := length (row rewards 0) in
  let advantages :=
    fst (gae_loop rewards values dones next_value gamma gae_lambda
                  horizon num_envs 0) in
  let returns := zip_with vadd advantages values in
  (advantages, returns).

(** The arrays of one call have one shape [(horizon, num_envs)]. *)
Definition shaped (horizon num_envs : nat) (a : list vec) : Prop :=
  length a = horizon /\ Forall (fun r => length r = num_envs) a.

(** [a[t, e]] *)
Definition at2 (a : list vec) (t e : nat) : Q := nth e (row a t) 0.

(** *** The clipped surrogate of [PPOUpdater.update], from [ratio] on *)

Definition unclipped (ratio advantages : vec) : vec := vmul ratio advantages.

Definition clipped (cfg : PPOConfig) (ratio advantages : vec) : vec :=
  vmul (map (fun r => clip r (1 - clip_epsilon cfg) (1 + clip_epsilon cfg)) ratio)
       advantages.

(** [torch.min(unclipped, clipped)] *)
Definition surrogate (cfg : PPOConfig) (ratio advantages : vec) : vec :=
  zip_with Qmin (unclipped ratio advantages) (clipped cfg ratio advantages).

Definition vsum (a : vec) : Q := fold_right Qplus 0 a.

(** [torch.mean]: the mean of an empty tensor is NaN, here [None]. *)
Definition mean (a : vec) : option Q :=
  match a with
  | [] => None
  | _ => Some (vsum a / inject_Z (Z.of_nat (length a)))
  end.

Definition policy_loss (cfg : PPOConfig) (ratio advantages : vec) : option Q :=
  Qopp <$> mean (surrogate cfg ratio advantages).

End Ppo.

(** ** model.py: masking and the action sampler *)

Module Model.
Import Numeric.
Local Open Scope Q_scope.

(** What the sampler takes from torch: the most negative finite value of
    the logits' dtype ([torch.finfo(dtype).min]), the exponential the
    softmax of [Categorical] is computed with, and the distribution's
    [log_prob] and [entropy]. *)
Class TorchFloat : Type := {
  large_negative : Q;
  expw : Q -> Q;
  cat_log_prob : list Q -> nat -> Q;
  cat_entropy : list Q -> Q
}.

(** The facts about the dtype the sampler relies on: [exp] is never
    negative, [exp 0] is positive, and [exp] underflows to zero at and
    below [- underflow_gap]. *)
Class TorchFloatLaws (T : TorchFloat) (underflow_gap : Q) : Prop := {
  expw_nonneg : forall x, 0 <= expw x;
  expw_pos_0 : forall x, x == 0 -> 0 < expw x;
  expw_underflow : forall x, x <= - underflow_gap -> expw x == 0
}.

Record ForwardOutput : Type := mkOutput {
  action_logits : list Q;
  unit_logits : list Q;
  turret_logits : list Q;
  buy_slot_logits : list Q;
  sell_slot_logits : list Q;
  value : Q
}.

(** The five heads and the dictionary of masks, one per head. *)
Inductive Head : Type := HAction | HUnit | HTurret | HBuySlot | HSellSlot.

Record Masks : Type := mkMasks {
  m_action_type : list Z;
  m_unit : list Z;
  m_turret : list Z;
  m_buy_slot : list Z;
  m_sell_slot : list Z
}.

Definition mask_of (m : Masks) (h : Head) : list Z :=
  match h with
  | HAction => m_action_type m
  | HUnit => m_unit m
  | HTurret => m_turret m
  | HBuySlot => m_buy_slot m
  | HSellSlot => m_sell_slot m
  end.

Definition logits_of (o : ForwardOutput) (h : Head) : list Q :=
  match h with
  | HAction => action_logits o
  | HUnit => unit_logits o
  | HTurret => turret_logits o
  | HBuySlot => buy_slot_logits o
  | HSellSlot => sell_slot_logits o
  end.

(** [masked_logits]:
    [torch.where(mask > 0, logits, full_like(logits, large_negative))]. *)
Definition masked_logits `{TorchFloat} (logits : list Q) (mask : list Z) : list Q :=
  zip_with (fun l m => if (0 <? m)%Z then l else large_negative) logits mask.

(** [torch.argmax]: the index of the first maximal value. *)
Fixpoint argmax_from (best_i : nat) (best : Q) (i : nat) (l : list Q) : nat :=
  match l with
  | [] => best_i
  | x :: r =>
      if Qltb best x then argmax_from i x (S i) r
      else argmax_from best_i best (S i) r
  end.

Definition argmax (l : list Q) : result nat :=
  match l with
  | [] => Raise IndexError
  | x :: r => Ok (argmax_from 0%nat x 1%nat r)
  end.

(** [Categorical(logits=l)]: the unnormalised probabilities
    [exp(l_i - max l)] of the softmax. *)
Definition weights `{TorchFloat} (l : list Q) : list Q :=
  match l with
  | [] => []
  | x :: r => let m := fold_left Qmax r x in map (fun v => expw (v - m)) l
  end.

(** [dist.sample()], the random draw made explicit: a uniform variate
    [u] in [[0, 1)] is inverted through the cumulative weights. *)
Fixpoint cdf_search (ws : list Q) (target acc : Q) (i : nat) : option nat :=
  match ws with
  | [] => None
  | w :: r =>
      if Qltb target (acc + w) then Some i
      else cdf_search r target (acc + w) (S i)
  end.

Definition total (ws : list Q) : Q := fold_right Qplus 0 ws.

Definition categorical_sample `{TorchFloat} (l : list Q) (u : Q) : result nat :=
  let ws := weights l in
  match cdf_search ws (u * total ws) 0 0%nat with
  | Some i => Ok i
  | None => Raise ValueError
  end.

(** The choice [argmax(...) if deterministic else dist.sample()], shared
    by the action-type head and [sample_head]. *)
Definition choose `{TorchFloat} (deterministic : bool) (masked : list Q) (u : Q)
  : result nat :=
  if deterministic then argmax masked else categorical_sample masked u.

(** [sample_head]: [(sampled, log_prob, entropy)]. *)
Definition sample_head `{TorchFloat} (deterministic : bool) (logits : list Q)
    (mask : list Z) (u : Q) : result (nat * Q * Q) :=
  let masked := masked_logits logits mask in
  let* sampled := choose deterministic masked u in
  Ok (sampled, cat_log_prob masked sampled, cat_entropy masked).

(** The uniform variates one call of [sample_action] consumes, in the
    order of its draws. *)
Record Noise : Type := mkNoise {
  u_action : Q;
  u_unit : Q;
  u_turret : Q;
  u_buy_slot : Q;
  u_sell_slot : Q
}.

Definition noise_of (n : Noise) (h : Head) : Q :=
  match h with
  | HAction => u_action n
  | HUnit => u_unit n
  | HTurret => u_turret n
  | HBuySlot => u_buy_slot n
  | HSellSlot => u_sell_slot n
  end.

Record Sampled : Type := mkSampled {
  s_action : nat;
  s_unit : nat;
  s_turret : nat;
  s_buy_slot : nat;
  s_sell_slot : nat;
  s_value : Q;
  s_action_log_prob : Q;
  s_combined_log_prob : Q;
  s_action_entropy : Q
}.

Definition index_of (s : Sampled) (h : Head) : nat :=
  match h with
  | HAction => s_action s
  | HUnit => s_unit s
  | HTurret => s_turret s
  | HBuySlot => s_buy_slot s
  | HSellSlot => s_sell_slot s
  end.

(** [sample_action] on one element of the batch. *)
Definition sample_action `{TorchFloat} (outputs : ForwardOutput) (masks : Masks)
    (deterministic : bool) (noise : Noise) : result Sampled :=
  let action_masked := masked_logits (action_logits outputs) (m_action_type masks) in
  let* action_idx := choose deterministic action_masked (u_action noise) in
  let* un := sample_head deterministic (unit_logits outputs) (m_unit masks)
                         (u_unit noise) in
  let* tu := sample_head deterministic (turret_logits outputs) (m_turret masks)
                         (u_turret noise) in
  let* bs := sample_head deterministic (buy_slot_logits outputs) (m_buy_slot masks)
                         (u_buy_slot noise) in
  let* ss := sample_head deterministic (sell_slot_logits outputs) (m_sell_slot masks)
                         (u_sell_slot noise) in
  let action_log_prob := cat_log_prob action_masked action_idx in
  let action_entropy := cat_entropy action_masked in
  Ok (mkSampled action_idx (fst (fst un)) (fst (fst tu)) (fst (fst bs)) (fst (fst ss))
        (value outputs)
        action_log_prob
        (action_log_prob + snd (fst un) + snd (fst tu) + snd (fst bs) + snd (fst ss))
        (action_entropy + snd un + snd tu + snd bs + snd ss)).

(** [mask[i]], with 0 standing for an index outside the mask. *)
Definition mask_at (mask : list Z) (i : nat) : Z := nth i mask 0%Z.

(** A head is usable when some allowed index carries a logit at least
    [gap] above [large_negative]. *)
Definition has_allowed `{TorchFloat} (gap : Q) (logits : list Q) (mask : list Z) : Prop :=
  exists i l m, logits !! i = Some l /\ mask !! i = Some m /\ (0 < m)%Z
                /\ large_negative + gap <= l.

(** A concrete dtype for examples: float32's [finfo.min], and a crude
    exponential [2^floor x] that underflows below [-150]. *)
Definition float32_min : Q := inject_Z (- (2 ^ 128 - 2 ^ 104)).

Definition expw32 (x : Q) : Q :=
  if Qleb x (- (150#1)) then 0 else Qpower 2 (Qfloor x).

Definition torch32 : TorchFloat :=
  {| large_negative := float32_min;
     expw := expw32;
     cat_log_prob := fun _ _ => 0;
     cat_entropy := fun _ => 0 |}.

End Model.

(** ** schemas.py and env.py: the mock environment *)

Module Env.
Import Numeric Config.
Local Open Scope Q_scope.

Inductive ActionType : Type :=
| WAIT
| RECRUIT_UNIT
| AGE_UP
| UPGRADE_MANA
| UPGRADE_TURRET_SLOTS
| BUY_TURRET_ENGINE
| SELL_TURRET_ENGINE
| REPAIR_BASE.

Definition ACTIONS : list ActionType :=
  [WAIT; RECRUIT_UNIT; AGE_UP; UPGRADE_MANA; UPGRADE_TURRET_SLOTS;
   BUY_TURRET_ENGINE; SELL_TURRET_ENGINE; REPAIR_BASE].

Record Action : Type := mkAction {
  action_type : ActionType;
  unit_id : option string;
  turret_id : option string;
  slot_index : option Z;
  confidence : Q
}.

Record Observation : Type := mkObservation {
  tick : Z;
  game_time : Q;
  static_state : list Q;
  event_sequence : list (list Q);
  action_type_mask : list Z;
  unit_mask : list Z;
  turret_mask : list Z;
  buy_slot_mask : list Z;
  sell_slot_mask : list Z
}.

Record RewardComponents : Type := mkRewards {
  enemy_unit_kill_value : Q;
  own_unit_loss_value : Q;
  enemy_base_damage : Q;
  own_base_damage : Q;
  safe_age_up_bonus : Q;
  lane_control_delta : Q;
  illegal_action_penalty : Q;
  terminal_outcome : Q
}.

Definition set_terminal_outcome (rc : RewardComponents) (v : Q) : RewardComponents :=
  mkRewards (enemy_unit_kill_value rc) (own_unit_loss_value rc)
            (enemy_base_damage rc) (own_base_damage rc) (safe_age_up_bonus rc)
            (lane_control_delta rc) (illegal_action_penalty rc) v.

Record MockEnvState : Type := mkState {
  st_tick : Z;
  st_game_time : Q;
  own_base_hp : Q;
  opp_base_hp : Q;
  own_units : Q;
  opp_units : Q;
  own_gold : Q;
  own_mana : Q;
  own_age : Z;
  own_mana_level : Z
}.

(** [MockEnvState()] *)
Definition initial_state : MockEnvState :=
  mkState 0 0 1000 1000 0 0 150 0 1 0.

(** What the environment takes from outside the repository: numpy's
    generator, and the copy of the state that [step] builds from
    [self.state.__dict__].
    The copy goes through the instance's [__dict__]; [MockEnvState] is
    declared with [slots=True], so the interpreter decides whether the
    attribute exists, and the copy may raise. *)
Class Runtime : Type := {
  Generator : Type;
  default_rng : Z -> Generator;
  uniform : Q -> Q -> Generator -> Q * Generator;
  copy_via_dict : MockEnvState -> result MockEnvState
}.

Record MockSelfPlayEnv `{Runtime} : Type := mkEnv {
  model_cfg : ModelConfig;
  max_ticks : Z;
  rng : Generator;
  state : MockEnvState;
  last_damage_to_opp : Q;
  last_damage_to_self : Q
}.

(** [MockSelfPlayEnv(model_cfg, max_ticks)] *)
Definition init `{Runtime} (cfg : ModelConfig) (mt : Z) : MockSelfPlayEnv :=
  mkEnv _ cfg mt (default_rng 0) initial_state 0 0.

(** [a[i] = v] on a one-dimensional array. *)
Definition set_item (a : list Q) (i : nat) (v : Q) : result (list Q) :=
  if (i <? length a)%nat then Ok (<[i := v]> a) else Raise IndexError.

Definition set_items (a : list Q) (items : list (nat * Q)) : result (list Q) :=
  fold_left (fun acc iv => let* l := acc in set_item l (fst iv) (snd iv))
            items (Ok a).

(** [a[-1, j] = v] for each [(j, v)] on a two-dimensional array. *)
Definition set_last_row (a : list (list Q)) (items : list (nat * Q))
  : result (list (list Q)) :=
  match length a with
  | O => Raise IndexError
  | S k =>
      let* r := set_items (nth k a []) items in
      Ok (<[k := r]> a)
  end.

Definition flag (b : bool) : Z := if b then 1%Z else 0%Z.

Definition is_wait (a : ActionType) : bool :=
  match a with WAIT => true | _ => false end.

(** [ACTIONS.index("WAIT")] *)
Fixpoint index_of_wait (l : list ActionType) : nat :=
  match l with
  | [] => 0
  | a :: r => if is_wait a then 0 else S (index_of_wait r)
  end.

Definition build_observation `{Runtime} (env : MockSelfPlayEnv) : result Observation :=
  let cfg := model_cfg env in
  let s := state env in
  let* static :=
    set_items (repeat 0 (static_dim cfg))
      [ (0%nat, clip (st_game_time s / 600) 0 1);
        (1%nat, clip (inject_Z (st_tick s) / 36000) 0 1);
        (2%nat, clip (own_gold s / 10000) 0 1);
        (3%nat, clip (own_mana s / 5000) 0 1);
        (4%nat, clip (inject_Z (own_age s) / 6) 0 1);
        (5%nat, clip (inject_Z (own_mana_level s) / 40) 0 1);
        (6%nat, clip (own_units s / 40) 0 1);
        (7%nat, clip (opp_units s / 40) 0 1);
        (8%nat, clip (own_base_hp s / 1000) 0 1);
        (9%nat, clip (opp_base_hp s / 1000) 0 1);
        (10%nat, clip ((own_units s - opp_units s) / 50) (-1) 1);
        (11%nat, clip ((own_base_hp s - opp_base_hp s) / 1000) (-1) 1) ] in
  let* sequence :=
    set_last_row (repeat (repeat 0 (token_dim cfg)) (sequence_len cfg))
      [ (0%nat, 2 / 3);
        (1%nat, inject_Z (Z.of_nat (index_of_wait ACTIONS) + 1)
                / inject_Z (Z.of_nat (length ACTIONS) + 1));
        (5%nat, 1 # 4);
        (6%nat, clip ((last_damage_to_opp env - last_damage_to_self env) / 20) (-1) 1);
        (7%nat, clip (last_damage_to_opp env / 200) 0 1) ] in
  let action_type_mask :=
    [1; 1; flag (own_age s <? 6)%Z; 1; 1; 1; 0; flag (Qleb 120 (own_mana s))]%Z in
  let unit_mask := repeat 1%Z (unit_dim cfg) in
  let turret_mask := repeat 1%Z (turret_dim cfg) in
  let buy_slot_mask := repeat 1%Z (slot_dim cfg) in
  let sell_slot_mask := repeat 0%Z (slot_dim cfg) in
  Ok (mkObservation (st_tick s) (st_game_time s) static sequence
        action_type_mask unit_mask turret_mask buy_slot_mask sell_slot_mask).

(** [reset]: the environment after the call and what the call returns. *)
Definition reset `{Runtime} (env : MockSelfPlayEnv) (seed : Z)
  : MockSelfPlayEnv * result Observation :=
  let env' := mkEnv _ (model_cfg env) (max_ticks env) (default_rng seed)
                    initial_state 0 0 in
  (env', build_observation env').

(** Field updates of the state, [self.state.f = v]. *)
Definition set_tick (s : MockEnvState) (v : Z) : MockEnvState :=
  mkState v (st_game_time s) (own_base_hp s) (opp_base_hp s) (own_units s)
          (opp_units s) (own_gold s) (own_mana s) (own_age s) (own_mana_level s).
Definition set_game_time (s : MockEnvState) (v : Q) : MockEnvState :=
  mkState (st_tick s) v (own_base_hp s) (opp_base_hp s) (own_units s)
          (opp_units s) (own_gold s) (own_mana s) (own_age s) (own_mana_level s).
Definition set_own_base_hp (s : MockEnvState) (v : Q) : MockEnvState :=
  mkState (st_tick s) (st_game_time s) v (opp_base_hp s) (own_units s)
          (opp_units s) (own_gold s) (own_mana s) (own_age s) (own_mana_level s).
Definition set_opp_base_hp (s : MockEnvState) (v : Q) : MockEnvState :=
  mkState (st_tick s) (st_game_time s) (own_base_hp s) v (own_units s)
          (opp_units s) (own_gold s) (own_mana s) (own_age s) (own_mana_level s).
Definition set_own_units (s : MockEnvState) (v : Q) : MockEnvState :=
  mkState (st_tick s) (st_game_time s) (own_base_hp s) (opp_base_hp s) v
          (opp_units s) (own_gold s) (own_mana s) (own_age s) (own_mana_level s).
Definition set_opp_units (s : MockEnvState) (v : Q) : MockEnvState :=
  mkState (st_tick s) (st_game_time s) (own_base_hp s) (opp_base_hp s) (own_units s)
          v (own_gold s) (own_mana s) (own_age s) (own_mana_level s).
Definition set_own_gold (s : MockEnvState) (v : Q) : MockEnvState :=
  mkState (st_tick s) (st_game_time s) (own_base_hp s) (opp_base_hp s) (own_units s)
          (opp_units s) v (own_mana s) (own_age s) (own_mana_level s).
Definition set_own_mana (s : MockEnvState) (v : Q) : MockEnvState :=
  mkState (st_tick s) (st_game_time s) (own_base_hp s) (opp_base_hp s) (own_units s)
          (opp_units s) (own_gold s) v (own_age s) (own_mana_level s).
Definition set_own_age (s : MockEnvState) (v : Z) : MockEnvState :=
  mkState (st_tick s) (st_game_time s) (own_base_hp s) (opp_base_hp s) (own_units s)
          (opp_units s) (own_gold s) (own_mana s) v (own_mana_level s).
Definition set_own_mana_level (s : MockEnvState) (v : Z) : MockEnvState :=
  mkState (st_tick s) (st_game_time s) (own_base_hp s) (opp_base_hp s) (own_units s)
          (opp_units s) (own_gold s) (own_mana s) (own_age s) v.

(** The branch of [step] on the action type: the state after it and the
    illegal-action penalty. *)
Definition apply_action (s : MockEnvState) (a : Action) : MockEnvState * Q :=
  match action_type a with
  | RECRUIT_UNIT =>
      let cost := 25 in
      if Qleb cost (own_gold s)
      then (set_own_units (set_own_gold s (own_gold s - cost))
                          (own_units s + (125 # 100)), 0)
      else (s, 0 - (2 # 10))
  | AGE_UP =>
      let cost := inject_Z (350 + own_age s * 180) in
      if (own_age s <? 6)%Z && Qleb cost (own_gold s)
      then (set_own_age (set_own_gold s (own_gold s - cost)) (own_age s + 1), 0)
      else (s, 0 - (2 # 10))
  | UPGRADE_MANA =>
      let cost := inject_Z (120 + own_mana_level s * 80) in
      if Qleb cost (own_gold s)
      then (set_own_mana_level (set_own_gold s (own_gold s - cost))
                               (own_mana_level s + 1), 0)
      else (s, 0 - (2 # 10))
  | REPAIR_BASE =>
      if Qleb 120 (own_mana s)
      then (set_own_base_hp (set_own_mana s (own_mana s - 120))
                            (Qmin 1000 (own_base_hp s + 65)), 0)
      else (s, 0 - (2 # 10))
  | _ => (s, 0)
  end.

(** [_simulate_opponent_policy] *)
Definition simulate_opponent_policy `{Runtime} (g : Generator) (s : MockEnvState)
  : Generator * MockEnvState :=
  let '(x, g') := uniform 0 (6 # 10) g in
  let s := set_opp_units s (opp_units s + ((7 # 10) + x)) in
  let s := if (st_tick s mod 240 =? 0)%Z
           then set_opp_units s (opp_units s + 3) else s in
  (g', s).

(** [_simulate_battle]: the state and the two damages of the tick. *)
Definition simulate_battle (s : MockEnvState) : MockEnvState * Q * Q :=
  let clash := Qmin (own_units s) (opp_units s) in
  let s := set_own_units s (Qmax 0 (own_units s - clash * (55 # 100))) in
  let s := set_opp_units s (Qmax 0 (opp_units s - clash * (6 # 10))) in
  let to_opp := Qmax 0 (own_units s * (14 # 10) - opp_units s * (4 # 10)) in
  let to_self := Qmax 0 (opp_units s * (12 # 10) - own_units s * (35 # 100)) in
  let s := set_opp_base_hp s (Qmax 0 (opp_base_hp s - to_opp)) in
  let s := set_own_base_hp s (Qmax 0 (own_base_hp s - to_self)) in
  (s, to_opp, to_self).

Record StepOut : Type := mkStepOut {
  out_obs : Observation;
  out_reward : Q;
  out_done : bool;
  out_info : list (string * Q);
  out_components : RewardComponents
}.

(** [step]: the environment after the call and what the call returns. *)
Definition step `{Runtime} (env : MockSelfPlayEnv) (action : Action)
  : MockSelfPlayEnv * result StepOut :=
  match copy_via_dict (state env) with
  | Raise e => (env, Raise e)
  | Ok prev =>
      let '(s, illegal_penalty) := apply_action (state env) action in
      let '(g, s) := simulate_opponent_policy (rng env) s in
      let '(s, to_opp, to_self) := simulate_battle s in
      let s := set_tick s (st_tick s + 1) in
      let s := set_game_time s (inject_Z (st_tick s) * (1 # 2)) in
      let s := set_own_gold s (own_gold s + (8 + inject_Z (own_age s) * (14 # 10))) in
      let s := set_own_mana s (own_mana s + inject_Z (own_mana_level s) * (8 # 10)) in
      let rc :=
        mkRewards
          (Qmax 0 (opp_units prev - opp_units s) * (12 # 100))
          (- Qmax 0 (own_units prev - own_units s) * (1 # 10))
          (Qmax 0 (opp_base_hp prev - opp_base_hp s) * (2 # 100))
          (- Qmax 0 (own_base_hp prev - own_base_hp s) * (2 # 100))
          (if (own_age prev <? own_age s)%Z && Qltb 550 (own_base_hp s)
           then 2 # 10 else 0)
          ((own_units s - opp_units s) * (1 # 100))
          illegal_penalty
          0 in
      let reward :=
        enemy_unit_kill_value rc + own_unit_loss_value rc + enemy_base_damage rc
        + own_base_damage rc + safe_age_up_bonus rc + lane_control_delta rc
        + illegal_action_penalty rc in
      let done := Qleb (own_base_hp s) 0 || Qleb (opp_base_hp s) 0
                  || (max_ticks env <=? st_tick s)%Z in
      let rc :=
        if done then
          if Qleb (opp_base_hp s) 0 && Qltb 0 (own_base_hp s)
          then set_terminal_outcome rc 2
          else if Qleb (own_base_hp s) 0 && Qltb 0 (opp_base_hp s)
               then set_terminal_outcome rc (-2)
               else rc
        else rc in
      let reward := if done then reward + terminal_outcome rc else reward in
      let info :=
        [ ("own_base_hp"%string, own_base_hp s);
          ("opp_base_hp"%string, opp_base_hp s);
          ("own_units"%string, own_units s);
          ("opp_units"%string, opp_units s) ] in
      let env' := mkEnv _ (model_cfg env) (max_ticks env) g s to_opp to_self in
      (env',
       let* obs := build_observation env' in
       Ok (mkStepOut obs reward done info rc))
  end.

(** [reset(seed)] followed by one [step] per action; the run ends at the
    first call that raises. *)
Fixpoint steps `{Runtime} (env : MockSelfPlayEnv) (actions : list Action)
  : list (result StepOut) :=
  match actions with
  | [] => []
  | a :: r =>
      let '(env', out) := step env a in
      out :: match out with
             | Ok _ => steps env' r
             | Raise _ => []
             end
  end.

Definition episode `{Runtime} (env : MockSelfPlayEnv) (seed : Z)
    (actions : list Action) : result Observation * list (result StepOut) :=
  let '(env', obs) := reset env seed in
  (obs, match obs with
        | Ok _ => steps env' actions
        | Raise _ => []
        end).

(** The observations an environment hands out: the one [reset] returns
    and the one in the tuple [step] returns. *)
Definition produces `{Runtime} (env : MockSelfPlayEnv) (obs : Observation) : Prop :=
  (exists seed, snd (reset env seed) = Ok obs)
  \/ (exists action out, snd (step env action) = Ok out /\ out_obs out = obs).

(** A runtime for examples: a linear congruential generator, and the
    copy as CPython makes it: an instance of a dataclass declared with
    [slots=True] has no [__dict__], so reading it raises
    AttributeError. *)
Definition lcg_next (g : Z) : Z := ((g * 1103515245 + 12345) mod 2147483648)%Z.

Definition example_runtime : Runtime :=
  {| Generator := Z;
     default_rng := fun seed => seed;
     uniform := fun lo hi g =>
       (lo + (hi - lo) * (inject_Z (lcg_next g) / 2147483648), lcg_next g);
     copy_via_dict := fun _ => Raise AttributeError |}.

Definition wait : Action := mkAction WAIT None None None 0.
Definition recruit : Action := mkAction RECRUIT_UNIT (Some "unit_0"%string) None None 0.

(** Two environments with the default options: a new one, and one that
    was reset with another seed and then asked for two steps. *)
Definition new_env : MockSelfPlayEnv (H := example_runtime) :=
  init (H := example_runtime) default_model 2400.

Definition used_env : MockSelfPlayEnv (H := example_runtime) :=
  fst (step (fst (step (fst (reset new_env 7)) recruit)) wait).

End Env.

(** ** trainer.py: the training loop *)

Module Trainer.
Import Numeric.
Local Open Scope Q_scope.

(** A Python float as the metrics carry it: a number, NaN or an
    infinity. *)
Inductive float : Type :=
| Fin (q : Q)
| NaN
| PosInf
| NegInf.

Definition isnan (f : float) : bool :=
  match f with NaN => true | _ => false end.
Definition isinf (f : float) : bool :=
  match f with PosInf | NegInf => true | _ => false end.

(** [a < b] on floats; every comparison with NaN is false. *)
Definition float_ltb (a b : float) : bool :=
  match a, b with
  | NaN, _ | _, NaN => false
  | Fin x, Fin y => Qltb x y
  | NegInf, NegInf => false
  | NegInf, _ => true
  | _, PosInf => match a with PosInf => false | _ => true end
  | _, _ => false
  end.

(** The masks [_obs_batch_to_tensors] hands to the sampler, for one
    observation of the batch. *)
Definition obs_masks (obs : Env.Observation) : Model.Masks :=
  Model.mkMasks (Env.action_type_mask obs) (Env.unit_mask obs) (Env.turret_mask obs)
                (Env.buy_slot_mask obs) (Env.sell_slot_mask obs).

(** The dictionary [PPOUpdater.update] returns. *)
Record Metrics : Type := mkMetrics {
  m_policy_loss : float;
  m_value_loss : float;
  m_entropy : float;
  m_kl : float;
  m_clips : float;
  m_updates : float
}.

Definition values (m : Metrics) : list float :=
  [m_policy_loss m; m_value_loss m; m_entropy m; m_kl m; m_clips m; m_updates m].

(** [any(np.isnan(v) or np.isinf(v) for v in metrics.values())] *)
Definition diverged (m : Metrics) : bool :=
  existsb (fun v => isnan v || isinf v) (values m).

(** What the loop takes from torch and from the rest of the trainer:
    the parameters and the optimizer state, the hidden state of lanes
    and random generators ([World]), the rollout, the gradient update,
    the evaluation matches and the name of a checkpoint file. *)
Class Learner : Type := {
  Params : Type;
  OptState : Type;
  World : Type;
  Batch : Type;
  collect_rollout :
    Config.OvernightConfig -> Z -> Params -> World -> World * result Batch;
  ppo_update :
    Config.PPOConfig -> Batch -> Params * OptState * World ->
    Metrics * (Params * OptState * World);
  evaluate : Config.OvernightConfig -> Z -> Params -> World -> World * result Q;
  checkpoint_file : string -> Z -> string
}.

(** The payload of [_save_checkpoint]. *)
Record Checkpoint `{Learner} : Type := mkCheckpoint {
  ck_step : Z;
  ck_model : Params;
  ck_optimizer : OptState;
  ck_config : Config.OvernightConfig
}.

(** The lines the loop prints. *)
Inductive Event : Type :=
| LogLine (step : Z) (m : Metrics)
| EntropyAlert (entropy : float) (floor : Q)
| CheckpointSaved (path : string)
| GuardNoCheckpoint
| GuardRolledBack (path : string)
| EvalLine (step : Z) (winrate : Q)
| TrainingDone.

(** The trainer object, with the checkpoint files and the printed
    lines it has produced. *)
Record SelfPlayTrainer `{Learner} : Type := mkTrainer {
  cfg : Config.OvernightConfig;
  model : Params;
  optimizer : OptState;
  league : League.LeaguePool;
  world : World;
  global_step : Z;
  last_good_checkpoint : option string;
  disk : gmap string Checkpoint;
  stdout : list Event
}.

Section Loop.
Context `{L : Learner}.

Definition print (t : SelfPlayTrainer) (e : Event) : SelfPlayTrainer :=
  mkTrainer _ (cfg t) (model t) (optimizer t) (league t) (world t)
            (global_step t) (last_good_checkpoint t) (disk t) (stdout t ++ [e]).

(** Python's [a % b] on ints. *)
Definition pymod (a b : Z) : result Z :=
  if (b =? 0)%Z then Raise ZeroDivisionError else Ok (a mod b)%Z.

(** [_anneal_entropy], on the PPO options it rewrites. *)
Definition anneal (step : Z) (p : Config.PPOConfig) : Config.PPOConfig :=
  let progress :=
    Qmin 1 (inject_Z step / inject_Z (Z.max 1 (Config.entropy_anneal_steps p))) in
  Config.set_entropy_coef p
    (Config.entropy_coef p * (1 - progress) + Config.entropy_coef_min p * progress).

Definition anneal_entropy (t : SelfPlayTrainer) : SelfPlayTrainer :=
  let c := cfg t in
  mkTrainer _
    (Config.mkConfig (anneal (global_step t) (Config.ppo c)) (Config.model c)
                     (Config.runtime c))
    (model t) (optimizer t) (league t) (world t) (global_step t)
    (last_good_checkpoint t) (disk t) (stdout t).

(** A string is true when it is not empty. *)
Definition truthy (o : option string) : option string :=
  match o with
  | Some p => if String.eqb p EmptyString then None else Some p
  | None => None
  end.

(** [_save_checkpoint]: the trainer after the call and the path. *)
Definition save_checkpoint (t : SelfPlayTrainer) : SelfPlayTrainer * string :=
  let path := checkpoint_file (Config.save_dir (Config.runtime (cfg t)))
                              (global_step t) in
  let payload := mkCheckpoint _ (global_step t) (model t) (optimizer t) (cfg t) in
  (print (mkTrainer _ (cfg t) (model t) (optimizer t) (league t) (world t)
                    (global_step t) (last_good_checkpoint t)
                    (<[path := payload]> (disk t)) (stdout t))
         (CheckpointSaved path),
   path).

(** [_rollback_checkpoint] *)
Definition rollback_checkpoint (t : SelfPlayTrainer) : result SelfPlayTrainer :=
  match truthy (last_good_checkpoint t) with
  | None => Ok (print t GuardNoCheckpoint)
  | Some path =>
      match disk t !! path with
      | None => Raise FileNotFoundError
      | Some st =>
          Ok (print (mkTrainer _ (cfg t) (ck_model st) (ck_optimizer st) (league t)
                               (world t) (global_step t) (last_good_checkpoint t)
                               (disk t) (stdout t))
                    (GuardRolledBack path))
      end
  end.

(** The periodic block that logs. *)
Definition log_block (t : SelfPlayTrainer) (metrics : Metrics) : SelfPlayTrainer :=
  let floor := Config.entropy_floor_alert (Config.runtime (cfg t)) in
  let t := print t (LogLine (global_step t) metrics) in
  if float_ltb (m_entropy metrics) (Fin floor)
  then print t (EntropyAlert (m_entropy metrics) floor)
  else t.

(** The periodic block that saves a checkpoint. *)
Definition checkpoint_block (t : SelfPlayTrainer) : SelfPlayTrainer :=
  let '(t, path) := save_checkpoint t in
  mkTrainer _ (cfg t) (model t) (optimizer t) (league t) (world t)
            (global_step t) (Some path) (disk t) (stdout t).

(** The periodic block that evaluates and updates the league. *)
Definition eval_block (t : SelfPlayTrainer) : result SelfPlayTrainer :=
  let '(w, r) := evaluate (cfg t) (Config.eval_matches (Config.runtime (cfg t)))
                          (model t) (world t) in
  let* winrate := r in
  let lg :=
    match truthy (last_good_checkpoint t) with
    | None => league t
    | Some path =>
        let '(pool, entry) :=
          League.add_checkpoint (league t) path (global_step t) winrate in
        fst (League.promote_if_qualified pool entry
               (map League.winrate_vs_smart (League.top pool 3)))
    end in
  Ok (print (mkTrainer _ (cfg t) (model t) (optimizer t) lg w (global_step t)
                       (last_good_checkpoint t) (disk t) (stdout t))
            (EvalLine (global_step t) winrate)).

(** One pass through the body of the [while] loop of [train]. *)
Definition train_iteration (t : SelfPlayTrainer) : result SelfPlayTrainer :=
  let runtime := Config.runtime (cfg t) in
  let '(w, rb) := collect_rollout (cfg t) (global_step t) (model t) (world t) in
  let* batch := rb in
  let '(metrics, (m, o, w)) :=
    ppo_update (Config.ppo (cfg t)) batch (model t, optimizer t, w) in
  let t := mkTrainer _ (cfg t) m o (league t) w (global_step t)
                     (last_good_checkpoint t) (disk t) (stdout t) in
  let t := anneal_entropy t in
  let t := mkTrainer _ (cfg t) (model t) (optimizer t) (league t) (world t)
             (global_step t
              + Config.rollout_horizon runtime * Config.num_envs runtime)%Z
             (last_good_checkpoint t) (disk t) (stdout t) in
  if diverged metrics then rollback_checkpoint t
  else
    let* r := pymod (global_step t) (Config.log_interval runtime) in
    let t := if (r =? 0)%Z then log_block t metrics else t in
    let* r := pymod (global_step t) (Config.checkpoint_every runtime) in
    let t := if (r =? 0)%Z then checkpoint_block t else t in
    let* r := pymod (global_step t) (Config.eval_every runtime) in
    if (r =? 0)%Z then eval_block t else Ok t.

(** [train]: the loop, run for at most [fuel] iterations; [None] when
    the fuel runs out first. *)
Fixpoint train (fuel : nat) (t : SelfPlayTrainer) : option (result SelfPlayTrainer) :=
  if (global_step t <? Config.total_steps (Config.runtime (cfg t)))%Z then
    match fuel with
    | O => None
    | S fuel =>
        match train_iteration t with
        | Ok t => train fuel t
        | Raise e => Some (Raise e)
        end
    end
  else Some (Ok (print t TrainingDone)).

End Loop.

(** The entropy coefficient after the calls of [_anneal_entropy] made at
    the given step counts, in that order. *)
Definition anneal_calls (steps : list Z) (p : Config.PPOConfig) : Config.PPOConfig :=
  fold_left (fun p s => anneal s p) steps p.

(** The linear schedule: from [initial] toward the floor, by the
    fraction of [entropy_anneal_steps] trained. *)
Definition linear_schedule (initial : Q) (p : Config.PPOConfig) (step : Z) : Q :=
  let progress :=
    Qmin 1 (inject_Z step / inject_Z (Config.entropy_anneal_steps p)) in
  initial * (1 - progress) + Config.entropy_coef_min p * progress.

End Trainer.

(** ** Sampler inputs for examples *)

Module ModelExample.
Import Model.
Local Open Scope Q_scope.

(** Logits whose largest entries sit on masked-out indices. *)
Definition outputs : ForwardOutput :=
  mkOutput [3; -1; 5; 0; 2; 5; 9; 7] [1; 4; 2] [0; 0; 6] [2; 8; 1; 3] [5; 1; 7; 2]
           (1 # 3).

Definition masks : Masks :=
  mkMasks [1; 1; 1; 1; 1; 1; 0; 0]%Z [1; 0; 1]%Z [1; 1; 0]%Z [1; 0; 1; 1]%Z
          [0; 1; 0; 1]%Z.

Definition noise : Noise := mkNoise (1 # 2) (9 # 10) 0 (99 # 100) (1 # 3).

(** Outputs with the head sizes of the default model, all logits zero. *)
Definition flat_outputs : ForwardOutput :=
  mkOutput (repeat 0 8) (repeat 0 128) (repeat 0 32) (repeat 0 4) (repeat 0 4) 0.

(** The masks of the mock environment's first observation under the
    default model sizes. *)
Definition env_masks : Masks :=
  mkMasks [1; 1; 1; 1; 1; 1; 0; 0]%Z (repeat 1%Z 128) (repeat 1%Z 32)
          (repeat 1%Z 4) (repeat 0%Z 4).

End ModelExample.

(** ** A small learner for examples *)

Module TrainerExample.
Import Trainer.
Local Open Scope Q_scope.

(** Parameters and optimizer state are counters; an update adds one to
    each and reports a NaN policy loss once the parameter counter passes
    3. *)
Definition metrics_of (params : Z) : Metrics :=
  mkMetrics (if (3 <? params)%Z then NaN else Fin (1 # 2))
            (Fin (1 # 4)) (Fin 1) (Fin (1 # 100)) (Fin 0) (Fin 4).

Definition counter_learner : Learner :=
  {| Params := Z;
     OptState := Z;
     World := unit;
     Batch := unit;
     collect_rollout := fun _ _ _ w => (w, Ok tt);
     ppo_update := fun _ _ s =>
       (metrics_of (fst (fst s) + 1), ((fst (fst s) + 1)%Z, (snd (fst s) + 1)%Z, snd s));
     evaluate := fun _ _ _ w => (w, Ok (6 # 10));
     checkpoint_file := fun dir step => (dir ++ "/checkpoint_" ++ pretty step ++ ".pt")%string |}.

Definition small_config : Config.OvernightConfig :=
  Config.mkConfig Config.default_ppo Config.default_model
    (Config.mkRuntime 1337 2 4 64 16 16 2 "ck" 8 (3 # 1000)).

(** A trainer whose update is about to diverge, with a checkpoint on
    disk, and one without any checkpoint. *)
Definition with_checkpoint : SelfPlayTrainer (H := counter_learner) :=
  mkTrainer counter_learner small_config 3%Z 30%Z (League.init 8) tt 24%Z
            (Some "ck/checkpoint_16.pt"%string)
            {[ "ck/checkpoint_16.pt"%string :=
                 mkCheckpoint counter_learner 16%Z 2%Z 20%Z small_config ]}
            [].

Definition without_checkpoint : SelfPlayTrainer (H := counter_learner) :=
  mkTrainer counter_learner small_config 3%Z 30%Z (League.init 8) tt 8%Z None ∅ [].

Definition fresh : SelfPlayTrainer (H := counter_learner) :=
  mkTrainer counter_learner small_config 0%Z 0%Z (League.init 8) tt 0%Z None ∅ [].

End TrainerExample.

(** ** The mock environment: states it can reach, runs of several steps *)

Module EnvRun.
Import Numeric Config Env.
Local Open Scope Q_scope.

(** The ranges the fields of [MockEnvState] stay in. *)
Definition valid_state (s : MockEnvState) : Prop :=
  (0 <= st_tick s)%Z
  /\ st_game_time s == inject_Z (st_tick s) * (1 # 2)
  /\ 0 <= own_base_hp s /\ own_base_hp s <= 1000
  /\ 0 <= opp_base_hp s /\ opp_base_hp s <= 1000
  /\ 0 <= own_units s
  /\ 0 <= opp_units s
  /\ 0 <= own_gold s
  /\ 0 <= own_mana s
  /\ (1 <= own_age s <= 6)%Z
  /\ (0 <= own_mana_level s)%Z.

(** The environment after a sequence of [step] calls. *)
Definition after_steps `{Runtime} (env : MockSelfPlayEnv) (actions : list Action)
  : MockSelfPlayEnv :=
  fold_left (fun e a => fst (step e a)) actions env.

(** Model sizes large enough for the slots [_build_observation]
    writes. *)
Definition sizes_ok (cfg : ModelConfig) : Prop :=
  (12 <= static_dim cfg)%nat /\ (1 <= sequence_len cfg)%nat /\ (8 <= token_dim cfg)%nat.

End EnvRun.

(** ** league.py: drawing an opponent *)

Module Opponent.
Import Numeric League.
Local Open Scope Q_scope.

(** The random numbers one call of [sample_opponent] consumes:
    [random.random()] and the index [random.choice] draws below the
    length of its argument ([pick] is reduced modulo that length). *)
Record Draws : Type := mkDraws {
  roll : Q;
  pick : nat
}.

(** [random.choice(seq)]: raises IndexError on an empty sequence. *)
Definition choice {A} (l : list A) (k : nat) : result A :=
  match l !! (k mod length l)%nat with
  | Some x => Ok x
  | None => Raise IndexError
  end.

(** [entry.checkpoint_path != current_checkpoint], where the current
    checkpoint may be [None]. *)
Definition other_than (current : option string) (e : LeagueEntry) : bool :=
  match current with
  | None => true
  | Some c => negb (String.eqb (checkpoint_path e) c)
  end.

Definition nonempty {A} (l : list A) : bool :=
  match l with [] => false | _ => true end.

(** [sample_opponent] *)
Definition sample_opponent (pool : LeaguePool) (current : option string) (d : Draws)
  : result (option LeagueEntry) :=
  if negb (nonempty (entries pool)) then Ok None
  else
    let candidates := List.filter (other_than current) (entries pool) in
    let candidates := if nonempty candidates then candidates else entries pool in
    let cut := Nat.min 4 (length candidates) in
    let top := firstn cut candidates in
    let rest := skipn cut candidates in
    let* e :=
      if Qltb (roll d) (6 # 10) && nonempty top then choice top (pick d)
      else if Qltb (roll d) (85 # 100) && nonempty rest then choice rest (pick d)
      else choice candidates (pick d) in
    Ok (Some e).

End Opponent.

(** ** ppo.py: the loop of [PPOUpdater.update] *)

Module Update.
Import Numeric Config Model.
Local Open Scope Q_scope.

(** [_masked_logprob_entropy] *)
Definition masked_logprob_entropy `{TorchFloat} (logits : list Q) (mask : list Z)
    (action : nat) : Q * Q :=
  let masked :=
    zip_with (fun l m => if (0 <? m)%Z then l else large_negative) logits mask in
  (cat_log_prob masked action, cat_entropy masked).

(** The joint log-probability and entropy [update] recomputes for one
    element of the batch: the five heads at the stored actions. *)
Definition new_log_prob_entropy `{TorchFloat} (outputs : ForwardOutput)
    (masks : Masks) (actions : Head -> nat) : Q * Q :=
  let a := masked_logprob_entropy (action_logits outputs) (m_action_type masks)
                                  (actions HAction) in
  let u := masked_logprob_entropy (unit_logits outputs) (m_unit masks)
                                  (actions HUnit) in
  let t := masked_logprob_entropy (turret_logits outputs) (m_turret masks)
                                  (actions HTurret) in
  let b := masked_logprob_entropy (buy_slot_logits outputs) (m_buy_slot masks)
                                  (actions HBuySlot) in
  let s := masked_logprob_entropy (sell_slot_logits outputs) (m_sell_slot masks)
                                  (actions HSellSlot) in
  (fst a + fst u + fst t + fst b + fst s, snd a + snd u + snd t + snd b + snd s).

(** [range(start, stop, step)] for a positive step, unrolled at most
    [fuel] times. *)
Fixpoint range_from (fuel : nat) (start stop step : Z) : list Z :=
  match fuel with
  | O => []
  | S fuel =>
      if (start <? stop)%Z then start :: range_from fuel (start + step) stop step
      else []
  end.

(** [range(0, batch_size, minibatch_size)] for a batch size, which is
    never negative: a zero step raises, a negative step gives nothing. *)
Definition minibatch_starts (batch_size : nat) (minibatch_size : Z) : result (list Z) :=
  if (minibatch_size =? 0)%Z then Raise ValueError
  else if (minibatch_size <? 0)%Z then Ok []
  else Ok (range_from batch_size 0 (Z.of_nat batch_size) minibatch_size).

(** [indices[start : start + minibatch_size]] for a start in range. *)
Definition minibatch_of (indices : list nat) (minibatch_size start : Z) : list nat :=
  firstn (Z.to_nat minibatch_size) (skipn (Z.to_nat start) indices).

(** What one mini-batch step reports. *)
Record Stats : Type := mkStats {
  s_policy_loss : Q;
  s_value_loss : Q;
  s_entropy : Q;
  s_approx_kl : Q;
  s_clip_fraction : Q
}.

(** What [update] takes from torch: the state the gradient steps work
    on (parameters, optimizer, generator), the permutation of the batch
    and the gradient step on one mini-batch with what it reports. *)
Class Gradient : Type := {
  Learn : Type;
  randperm : nat -> Learn -> list nat * Learn;
  minibatch_step : PPOConfig -> list nat -> Learn -> Stats * Learn
}.

(** The dictionary [metrics]. *)
Record Sums : Type := mkSums {
  policy_loss : Q;
  value_loss : Q;
  entropy : Q;
  kl : Q;
  clips : Q;
  updates : Q
}.

Definition zero_sums : Sums := mkSums 0 0 0 0 0 0.

Definition add_stats (m : Sums) (s : Stats) : Sums :=
  mkSums (policy_loss m + s_policy_loss s) (value_loss m + s_value_loss s)
         (entropy m + s_entropy s) (kl m + s_approx_kl s)
         (clips m + s_clip_fraction s) (updates m + 1).

Definition averaged (m : Sums) : Sums :=
  if Qltb 0 (updates m)
  then mkSums (policy_loss m / updates m) (value_loss m / updates m)
              (entropy m / updates m) (kl m / updates m) (clips m / updates m)
              (updates m)
  else m.

(** The inner loop over the mini-batches of one epoch, left at the first
    step whose approximate KL exceeds [kl_hard_stop]. *)
Fixpoint minibatch_loop `{Gradient} (cfg : PPOConfig) (indices : list nat)
    (starts : list Z) (m : Sums) (l : Learn) : Sums * Learn :=
  match starts with
  | [] => (m, l)
  | start :: rest =>
      let '(s, l) := minibatch_step cfg (minibatch_of indices (minibatch_size cfg) start) l in
      let m := add_stats m s in
      if Qltb (kl_hard_stop cfg) (s_approx_kl s) then (m, l)
      else minibatch_loop cfg indices rest m l
  end.

(** The outer loop over the epochs, left after the first epoch at whose
    end the mean KL so far exceeds [kl_target]. *)
Fixpoint epoch_loop `{Gradient} (cfg : PPOConfig) (batch_size : nat) (epochs : nat)
    (m : Sums) (l : Learn) : result (Sums * Learn) :=
  match epochs with
  | O => Ok (m, l)
  | S epochs =>
      let '(indices, l) := randperm batch_size l in
      let* starts := minibatch_starts batch_size (minibatch_size cfg) in
      let '(m, l) := minibatch_loop cfg indices starts m l in
      if Qltb 0 (updates m) && Qltb (kl_target cfg) (kl m / updates m)
      then Ok (m, l)
      else epoch_loop cfg batch_size epochs m l
  end.

(** [update]: the metrics and the state after the gradient steps. *)
Definition update `{Gradient} (cfg : PPOConfig) (batch_size : nat) (l : Learn)
  : result (Sums * Learn) :=
  let* r := epoch_loop cfg batch_size (Z.to_nat (ppo_epochs cfg)) zero_sums l in
  Ok (averaged (fst r), snd r).

(** A gradient step for examples: the state counts the steps, the
    permutation is the identity, and the reported KL is a tenth of the
    step count. *)
Definition counting_gradient : Gradient :=
  {| Learn := nat;
     randperm := fun n l => (seq 0 n, l);
     minibatch_step := fun _ idx l =>
       (mkStats 1 2 3 (inject_Z (Z.of_nat (S l)) / 10) (1 # 2), S l) |}.

End Update.

(** ** trainer.py: from sampled indices to actions, and evaluation *)

Module Play.
Import Numeric Config Model Env.
Local Open Scope Q_scope.

(** [_indices_to_action] for one element of the batch; [sigmoid] is
    torch's. *)
Definition indices_to_action (sigmoid : Q -> Q) (sampled : Sampled) : Action :=
  let action_idx := s_action sampled in
  let action_type :=
    match ACTIONS !! action_idx with
    | Some a => a
    | None => WAIT
    end in
  let unit_idx := s_unit sampled in
  let turret_idx := s_turret sampled in
  let buy_slot_idx := s_buy_slot sampled in
  let sell_slot_idx := s_sell_slot sampled in
  let confidence := sigmoid (s_action_log_prob sampled) in
  match action_type with
  | RECRUIT_UNIT =>
      mkAction action_type (Some ("unit_" ++ pretty unit_idx)%string) None None confidence
  | BUY_TURRET_ENGINE =>
      mkAction action_type None (Some ("turret_" ++ pretty turret_idx)%string)
               (Some (Z.of_nat buy_slot_idx)) confidence
  | SELL_TURRET_ENGINE =>
      mkAction action_type None None (Some (Z.of_nat sell_slot_idx)) confidence
  | _ => mkAction action_type None None None confidence
  end.

(** [info.get(key, default)] *)
Fixpoint get (info : list (string * Q)) (key : string) (default : Q) : Q :=
  match info with
  | [] => default
  | (k, v) :: rest => if String.eqb k key then v else get rest key default
  end.

(** The loop [while not done] of one evaluation match, for at most
    [fuel] steps: the info of the last step, or [None] when the fuel
    runs out first.  [policy] stands for the model's forward pass, the
    arg-max sampling and [_indices_to_action]. *)
Fixpoint play `{Runtime} (policy : Observation -> result Action) (fuel : nat)
    (env : MockSelfPlayEnv) (obs : Observation)
  : option (result (list (string * Q))) :=
  match fuel with
  | O => None
  | S fuel =>
      match policy obs with
      | Raise e => Some (Raise e)
      | Ok action =>
          let '(env, r) := step env action in
          match r with
          | Raise e => Some (Raise e)
          | Ok out =>
              if out_done out then Some (Ok (out_info out))
              else play policy fuel env (out_obs out)
          end
      end
  end.

(** One match of [evaluate]: a new environment, [reset], the loop, and
    the test that counts a win. *)
Definition play_match `{Runtime} (policy : Observation -> result Action) (fuel : nat)
    (cfg : ModelConfig) (seed : Z) : option (result bool) :=
  let '(env, r) := reset (init cfg 2400) seed in
  match r with
  | Raise e => Some (Raise e)
  | Ok obs =>
      match play policy fuel env obs with
      | None => None
      | Some (Raise e) => Some (Raise e)
      | Some (Ok final_info) =>
          Some (Ok (Qleb (get final_info "opp_base_hp" 1) (get final_info "own_base_hp" 0)))
      end
  end.

(** The loop [for idx in range(matches)] of [evaluate], counting wins. *)
Fixpoint count_wins `{Runtime} (policy : Observation -> result Action) (fuel : nat)
    (cfg : ModelConfig) (seed : Z) (idxs : list nat) (wins : Z)
  : option (result Z) :=
  match idxs with
  | [] => Some (Ok wins)
  | idx :: rest =>
      match play_match policy fuel cfg (seed + 500000 + Z.of_nat idx) with
      | None => None
      | Some (Raise e) => Some (Raise e)
      | Some (Ok won) =>
          count_wins policy fuel cfg seed rest (if won then wins + 1 else wins)%Z
      end
  end.

(** [evaluate(matches)] *)
Definition evaluate `{Runtime} (policy : Observation -> result Action) (fuel : nat)
    (cfg : OvernightConfig) (matches : Z) : option (result Q) :=
  match count_wins policy fuel (model cfg) (seed (runtime cfg))
                   (seq 0 (Z.to_nat matches)) 0%Z with
  | None => None
  | Some (Raise e) => Some (Raise e)
  | Some (Ok wins) => Some (Ok (inject_Z wins / inject_Z (Z.max 1 matches)))
  end.

End Play.

(** ** Inputs for examples *)

Module MoreExamples.
Import Numeric Config.
Local Open Scope Q_scope.

(** Model sizes too small for the static features. *)
Definition tiny_model : ModelConfig := mkModel 11 240 8 8 128 32 4.

(** A pool of three entries, best first. *)
Definition entry_c : League.LeagueEntry :=
  League.mkEntry "checkpoint_300.pt" 300 1000 (1 # 2).

Definition pool3 : League.LeaguePool :=
  League.mkPool 8 [League.entry_b; League.entry_a; entry_c].

(** A trainer with no lane. *)
Definition no_lane_config : Config.OvernightConfig :=
  Config.mkConfig Config.default_ppo Config.default_model
    (Config.mkRuntime 1337 0 4 64 16 16 2 "ck" 8 (3 # 1000)).

Definition no_lane_trainer : Trainer.SelfPlayTrainer (H := TrainerExample.counter_learner) :=
  Trainer.mkTrainer TrainerExample.counter_learner no_lane_config 0%Z 0%Z
                    (League.init 8) tt 0%Z None ∅ [].

(** A policy that always waits. *)
Definition always_wait (_ : Env.Observation) : result Env.Action := Ok Env.wait.

End MoreExamples.

(** * Properties *)

(** ** Comparisons on rationals *)

Section Comparisons.
Import Numeric.
Local Open Scope Q_scope.

Lemma Qltb_lt (a b : Q) : Qltb a b = true <-> a < b.
Proof.
  unfold Qltb. rewrite Qlt_alt.
  destruct (a ?= b); intuition congruence.
Qed.

Lemma Qltb_ge (a b : Q) : Qltb a b = false <-> b <= a.
Proof.
  pose proof (Qltb_lt a b) as H.
  split.
  - intros Hf. apply Qnot_lt_le. intros Hlt. apply H in Hlt. congruence.
  - intros Hle. destruct (Qltb a b); [|reflexivity].
    exfalso. apply (Qle_not_lt _ _ Hle). now apply H.
Qed.

Lemma Qleb_le (a b : Q) : Qleb a b = true <-> a <= b.
Proof.
  unfold Qleb. rewrite Qle_alt.
  destruct (a ?= b); intuition congruence.
Qed.

Lemma min_of_lt (w x : Q) (r : list Q) :
  w < min_of x r <-> Forall (fun b => w < b) (x :: r).
Proof.
  unfold min_of. revert x.
  induction r as [|y r IH]; intros x; simpl.
  - split; [intros Hx; repeat constructor; exact Hx | intros Hx; now inversion Hx].
  - rewrite IH. split.
    + intros Hall. inversion Hall as [|? ? Hm Hr]; subst.
      apply Q.min_glb_lt_iff in Hm. destruct Hm as [Hx Hy].
      constructor; [exact Hx | constructor; [exact Hy | exact Hr]].
    + intros Hall. inversion Hall as [|? ? Hx Hyr]; subst.
      inversion Hyr as [|? ? Hy Hr]; subst.
      constructor; [apply Q.min_glb_lt_iff; split; assumption | exact Hr].
Qed.

End Comparisons.

(** ** The league pool *)

Section LeagueFacts.
Import Numeric League.
Local Open Scope Q_scope.

Lemma key_ltb_asym (a b : LeagueEntry) : key_ltb a b = true -> key_ltb b a = false.
Proof.
  unfold key_ltb.
  rewrite <- (Qcompare_antisym (elo a) (elo b)).
  rewrite <- (Qcompare_antisym (winrate_vs_smart a) (winrate_vs_smart b)).
  destruct (elo a ?= elo b); simpl; try congruence.
  destruct (winrate_vs_smart a ?= winrate_vs_smart b); simpl; try congruence.
  intros H. apply Z.ltb_lt in H. apply Z.ltb_ge. lia.
Qed.

Lemma sorted_desc_cons (a : LeagueEntry) (l : list LeagueEntry) :
  sorted_desc (a :: l) = true <->
  (match l with [] => True | b :: _ => key_geb a b = true end) /\ sorted_desc l = true.
Proof.
  destruct l as [|b l].
  - simpl. intuition.
  - change (sorted_desc (a :: b :: l)) with (key_geb a b && sorted_desc (b :: l)).
    rewrite andb_true_iff. reflexivity.
Qed.

Lemma insert_desc_sorted (x : LeagueEntry) (l : list LeagueEntry) :
  sorted_desc l = true -> sorted_desc (insert_desc x l) = true.
Proof.
  induction l as [|y r IH]; intros Hs.
  - reflexivity.
  - simpl insert_desc. destruct (key_ltb x y) eqn:Hxy.
    + apply sorted_desc_cons in Hs. destruct Hs as [Hhd Hr].
      apply sorted_desc_cons. split; [|auto].
      destruct r as [|z r]; simpl.
      * unfold key_geb. now rewrite (key_ltb_asym _ _ Hxy).
      * destruct (key_ltb x z); [exact Hhd|].
        unfold key_geb. now rewrite (key_ltb_asym _ _ Hxy).
    + apply sorted_desc_cons. split; [|exact Hs].
      unfold key_geb. now rewrite Hxy.
Qed.

Lemma sort_desc_sorted (l : list LeagueEntry) : sorted_desc (sort_desc l) = true.
Proof.
  induction l as [|x l IH]; [reflexivity|].
  simpl. now apply insert_desc_sorted.
Qed.

Lemma insert_desc_length (x : LeagueEntry) (l : list LeagueEntry) :
  length (insert_desc x l) = S (length l).
Proof.
  induction l as [|y r IH]; [reflexivity|].
  simpl. destruct (key_ltb x y); simpl; congruence.
Qed.

Lemma sort_desc_length (l : list LeagueEntry) : length (sort_desc l) = length l.
Proof.
  induction l as [|x l IH]; [reflexivity|].
  simpl. rewrite insert_desc_length. congruence.
Qed.

(** The slice of [promote_if_qualified] keeps the whole list, whatever
    [keep_top_n] is. *)
Lemma promote_slice_id (n : Z) (l : list LeagueEntry) :
  slice_to (Z.max n (Z.of_nat (length l))) l = l.
Proof.
  unfold slice_to.
  destruct (0 <=? Z.max n (Z.of_nat (length l)))%Z eqn:H.
  - apply firstn_all2. lia.
  - apply Z.leb_gt in H. lia.
Qed.

(** What an admission does to the pool: the candidate is appended when
    it is not there yet, the list is sorted, and nothing is dropped. *)
Lemma promote_admitted (pool : LeaguePool) (c : LeagueEntry) (top3 : list Q) :
  snd (promote_if_qualified pool c top3) = true ->
  entries (fst (promote_if_qualified pool c top3))
  = sort_desc (if entry_in c (entries pool) then entries pool
               else entries pool ++ [c]).
Proof.
  unfold promote_if_qualified.
  destruct (Qltb (winrate_vs_smart c) (55 # 100)); [discriminate|].
  destruct top3 as [|x r].
  - intros _. simpl. apply promote_slice_id.
  - destruct (Qltb (winrate_vs_smart c) (min_of x r)); [discriminate|].
    intros _. simpl. apply promote_slice_id.
Qed.

Lemma promote_admitted_sorted (pool : LeaguePool) (c : LeagueEntry) (top3 : list Q) :
  snd (promote_if_qualified pool c top3) = true ->
  sorted_desc (entries (fst (promote_if_qualified pool c top3))) = true.
Proof.
  intros H. rewrite (promote_admitted _ _ _ H). apply sort_desc_sorted.
Qed.

Lemma promote_admitted_length (pool : LeaguePool) (c : LeagueEntry) (top3 : list Q) :
  snd (promote_if_qualified pool c top3) = true ->
  (length (entries pool) <= length (entries (fst (promote_if_qualified pool c top3))))%nat.
Proof.
  intros H. rewrite (promote_admitted _ _ _ H), sort_desc_length.
  destruct (entry_in c (entries pool)); [lia|].
  rewrite length_app. simpl. lia.
Qed.

(** The verdict of [promote_if_qualified]. *)
Lemma promote_verdict (pool : LeaguePool) (c : LeagueEntry) (top3 : list Q) :
  snd (promote_if_qualified pool c top3) = false <->
  (winrate_vs_smart c < 55 # 100
   \/ (top3 <> [] /\ Forall (fun b => winrate_vs_smart c < b) top3)).
Proof.
  unfold promote_if_qualified.
  destruct (Qltb (winrate_vs_smart c) (55 # 100)) eqn:Hlow.
  - simpl. apply Qltb_lt in Hlow. tauto.
  - apply Qltb_ge in Hlow.
    assert (Hnot : ~ winrate_vs_smart c < 55 # 100) by (apply Qle_not_lt; exact Hlow).
    destruct top3 as [|x r].
    + simpl. split; [discriminate|]. intros [H|[H _]]; [tauto | congruence].
    + destruct (Qltb (winrate_vs_smart c) (min_of x r)) eqn:Hmin; simpl.
      * apply Qltb_lt, min_of_lt in Hmin. split; [|reflexivity].
        intros _. right. split; [discriminate | exact Hmin].
      * split; [discriminate|]. intros [H|[_ H]]; [tauto|].
        apply min_of_lt, Qltb_lt in H. congruence.
Qed.

Lemma promote_rejected_unchanged (pool : LeaguePool) (c : LeagueEntry) (top3 : list Q) :
  snd (promote_if_qualified pool c top3) = false ->
  fst (promote_if_qualified pool c top3) = pool.
Proof.
  unfold promote_if_qualified.
  destruct (Qltb (winrate_vs_smart c) (55 # 100)); [reflexivity|].
  destruct top3 as [|x r]; [discriminate|].
  destruct (Qltb (winrate_vs_smart c) (min_of x r)); [reflexivity | discriminate].
Qed.

End LeagueFacts.

Section LeagueClaims.
Import Numeric League.
Local Open Scope Q_scope.

(** C4, on two inputs.  A pool of capacity 1 that holds one entry
    admits a second candidate, sorts the entries by (elo, win-rate,
    step) descending and keeps both, one more than [keep_top_n].  The
    trainer's pool of capacity 8, fed nine evaluation results that are
    each admitted, ends with nine sorted entries.  The slice
    [entries[: max(keep_top_n, len(entries))]] drops nothing. *)
Theorem C4_promote_keeps_more_than_capacity :
  (let r := promote_if_qualified (mkPool 1 [entry_a]) entry_b [] in
   snd r = true
   /\ entries (fst r) = [entry_b; entry_a]
   /\ sorted_desc (entries (fst r)) = true
   /\ (keep_top_n (fst r) < Z.of_nat (length (entries (fst r))))%Z)
  /\ (let r := fold_left (fun acc x => deposit (fst acc) x) nine_results
                         (init 8, true) in
      snd r = true
      /\ sorted_desc (entries (fst r)) = true
      /\ keep_top_n (fst r) = 8%Z
      /\ length (entries (fst r)) = 9%nat).
Proof.
  vm_compute. repeat split; reflexivity.
Qed.

(** C8 as stated fails: with no baseline at all, every entry of the
    baseline list is (vacuously) strictly higher than the candidate's
    win-rate, and a candidate at 0.60 is admitted all the same. *)
Lemma C8_empty_baseline_admits :
  ~ (forall (pool : LeaguePool) (c : LeagueEntry) (top3 : list Q),
       snd (promote_if_qualified pool c top3) = false <->
       (winrate_vs_smart c < 55 # 100
        \/ Forall (fun b => winrate_vs_smart c < b) top3)).
Proof.
  intros H.
  destruct (H (init 8) entry_a []) as [_ Hrej].
  assert (Hv : snd (promote_if_qualified (init 8) entry_a []) = false)
    by (apply Hrej; right; constructor).
  vm_compute in Hv. discriminate.
Qed.

(** C8, amended: [promote_if_qualified] rejects exactly when the
    candidate's win-rate is below 0.55, or the supplied baseline list
    is not empty and every entry of it is strictly higher than the
    candidate's win-rate; a rejection leaves the pool as it was; a
    candidate at 0.50 is rejected whatever the baseline, and one at
    0.70 against 0.60, 0.62, 0.65 is promoted. *)
Theorem C8_promotion_rule (pool : LeaguePool) (c : LeagueEntry) (top3 : list Q) :
  (snd (promote_if_qualified pool c top3) = false <->
   (winrate_vs_smart c < 55 # 100
    \/ (top3 <> [] /\ Forall (fun b => winrate_vs_smart c < b) top3)))
  /\ (snd (promote_if_qualified pool c top3) = false ->
      fst (promote_if_qualified pool c top3) = pool)
  /\ (winrate_vs_smart c == 1 # 2 ->
      snd (promote_if_qualified pool c top3) = false)
  /\ (winrate_vs_smart c == 7 # 10 ->
      snd (promote_if_qualified pool c [6 # 10; 62 # 100; 65 # 100]) = true).
Proof.
  split; [apply promote_verdict|].
  split; [apply promote_rejected_unchanged|].
  split.
  - intros Hw. apply promote_verdict. left. rewrite Hw. reflexivity.
  - intros Hw.
    destruct (snd (promote_if_qualified pool c [6 # 10; 62 # 100; 65 # 100])) eqn:Hv;
      [reflexivity|].
    apply promote_verdict in Hv.
    destruct Hv as [Hlow|[_ Hall]].
    + rewrite Hw in Hlow. vm_compute in Hlow. discriminate Hlow.
    + inversion Hall as [|? ? Hb _]; subst.
      rewrite Hw in Hb. vm_compute in Hb. discriminate Hb.
Qed.

Lemma C8_promotion_rule_witness :
  snd (promote_if_qualified (mkPool 8 [entry_a]) entry_b [6 # 10; 62 # 100; 65 # 100])
  = true
  /\ snd (promote_if_qualified (mkPool 8 [entry_a])
            (mkEntry "checkpoint_300.pt" 300 1000 (1 # 2)) [])
     = false.
Proof.
  split.
  - apply (C8_promotion_rule (mkPool 8 [entry_a]) entry_b []). reflexivity.
  - apply (C8_promotion_rule (mkPool 8 [entry_a])
             (mkEntry "checkpoint_300.pt" 300 1000 (1 # 2)) []).
    reflexivity.
Defined.

End LeagueClaims.

(** ** Generalised advantage estimation *)

Section VectorFacts.
Import Ppo.
Local Open Scope Q_scope.

Lemma nth_zip_with (f : Q -> Q -> Q) (a b : vec) (e : nat) :
  (e < length a)%nat -> (e < length b)%nat ->
  nth e (zip_with f a b) 0 = f (nth e a 0) (nth e b 0).
Proof.
  revert b e. induction a as [|x a IH]; intros [|y b] [|e] Ha Hb;
    simpl in *; try lia; [reflexivity|].
  apply IH; lia.
Qed.

Lemma nth_vadd (a b : vec) (e : nat) :
  (e < length a)%nat -> (e < length b)%nat ->
  nth e (vadd a b) 0 = nth e a 0 + nth e b 0.
Proof. apply nth_zip_with. Qed.

Lemma nth_vsub (a b : vec) (e : nat) :
  (e < length a)%nat -> (e < length b)%nat ->
  nth e (vsub a b) 0 = nth e a 0 - nth e b 0.
Proof. apply nth_zip_with. Qed.

Lemma nth_vmul (a b : vec) (e : nat) :
  (e < length a)%nat -> (e < length b)%nat ->
  nth e (vmul a b) 0 = nth e a 0 * nth e b 0.
Proof. apply nth_zip_with. Qed.

Lemma nth_vscale (c : Q) (a : vec) (e : nat) :
  (e < length a)%nat -> nth e (vscale c a) 0 = c * nth e a 0.
Proof.
  revert e. induction a as [|x a IH]; intros [|e] Ha; simpl in *; try lia;
    [reflexivity|].
  apply IH. lia.
Qed.

Lemma nth_map_lt (f : Q -> Q) (a : vec) (e : nat) :
  (e < length a)%nat -> nth e (map f a) 0 = f (nth e a 0).
Proof.
  revert e. induction a as [|x a IH]; intros [|e] Ha; simpl in *; try lia;
    [reflexivity|].
  apply IH. lia.
Qed.

Lemma nth_zeros (n e : nat) : nth e (zeros n) 0 = 0.
Proof.
  unfold zeros. revert e. induction n as [|n IH]; intros [|e]; simpl; auto.
Qed.

Lemma length_zip_with_same (f : Q -> Q -> Q) (a b : vec) (n : nat) :
  length a = n -> length b = n -> length (zip_with f a b) = n.
Proof.
  intros Ha Hb. rewrite length_zip_with. lia.
Qed.

Lemma shaped_row (h n : nat) (a : list vec) (t : nat) :
  shaped h n a -> (t < h)%nat -> length (row a t) = n.
Proof.
  intros [Hlen Hall] Ht. unfold row.
  rewrite Forall_forall in Hall. apply Hall.
  apply list_elem_of_In, nth_In. lia.
Qed.

End VectorFacts.

Section GaeLoop.
Import Ppo.
Local Open Scope Q_scope.

Variables (rewards values dones : list vec) (next_value : vec).
Variables (gamma lam : Q) (h n : nat).
Hypothesis Hrewards : shaped h n rewards.
Hypothesis Hvalues : shaped h n values.
Hypothesis Hdones : shaped h n dones.
Hypothesis Hnext : length next_value = n.

Local Abbreviation loop := (gae_loop rewards values dones next_value gamma lam h n).
Local Abbreviation body := (gae_body rewards values dones next_value gamma lam h).
Local Abbreviation value_next t :=
  (if (t =? h - 1)%nat then next_value else row values (t + 1)).

Lemma gae_loop_end (start : nat) :
  (h <= start)%nat -> loop start = (repeat (zeros n) h, zeros n).
Proof.
  intros Hs. unfold gae_loop. replace (h - start)%nat with 0%nat by lia.
  reflexivity.
Qed.

Lemma gae_loop_step (start : nat) :
  (start < h)%nat -> loop start = body start (loop (S start)).
Proof.
  intros Hs. unfold gae_loop.
  replace (h - start)%nat with (S (h - S start)) by lia.
  cbn [seq rev]. rewrite fold_left_app. reflexivity.
Qed.

Lemma value_next_length (t : nat) : (t < h)%nat -> length (value_next t) = n.
Proof.
  intros Ht. destruct (t =? h - 1)%nat eqn:E; [exact Hnext|].
  apply Nat.eqb_neq in E. apply (shaped_row h n); [exact Hvalues | lia].
Qed.

Lemma gae_body_length (t : nat) (A : list vec) (L : vec) :
  (t < h)%nat -> length L = n -> length (snd (body t (A, L))) = n.
Proof.
  intros Ht HL. cbn [gae_body snd].
  pose proof (shaped_row h n rewards t Hrewards Ht) as Lr.
  pose proof (shaped_row h n values t Hvalues Ht) as Lv.
  pose proof (shaped_row h n dones t Hdones Ht) as Ld.
  pose proof (value_next_length t Ht) as Lvn.
  repeat apply length_zip_with_same;
    unfold vscale; rewrite ?length_map; assumption || exact Lvn.
Qed.

(** The running advantage after step [t], lane by lane: the recursion of
    the loop body. *)
Lemma gae_last_rec (t e : nat) (A : list vec) (L : vec) :
  (t < h)%nat -> (e < n)%nat -> length L = n ->
  nth e (snd (body t (A, L))) 0
  = (nth e (row rewards t) 0
     + (gamma * nth e (value_next t) 0) * (1 - nth e (row dones t) 0)
     - nth e (row values t) 0)
    + ((gamma * lam) * (1 - nth e (row dones t) 0)) * nth e L 0.
Proof.
  intros Ht He HL. cbn [gae_body snd].
  pose proof (shaped_row h n rewards t Hrewards Ht) as Lr.
  pose proof (shaped_row h n values t Hvalues Ht) as Lv.
  pose proof (shaped_row h n dones t Hdones Ht) as Ld.
  pose proof (value_next_length t Ht) as Lvn.
  set (nt := map (fun d => 1 - d) (row dones t)).
  assert (Lnt : length nt = n) by (unfold nt; rewrite length_map; exact Ld).
  assert (Ent : nth e nt 0 = 1 - nth e (row dones t) 0).
  { unfold nt. apply (nth_map_lt (fun d => 1 - d)). lia. }
  assert (Lsv : length (vscale gamma (value_next t)) = n)
    by (unfold vscale; rewrite length_map; exact Lvn).
  assert (Lsl : length (vscale (gamma * lam) nt) = n)
    by (unfold vscale; rewrite length_map; exact Lnt).
  assert (Lm1 : length (vmul (vscale gamma (value_next t)) nt) = n)
    by (apply length_zip_with_same; assumption).
  assert (La1 : length (vadd (row rewards t) (vmul (vscale gamma (value_next t)) nt)) = n)
    by (apply length_zip_with_same; assumption).
  assert (Ldelta : length (vsub (vadd (row rewards t)
                                      (vmul (vscale gamma (value_next t)) nt))
                                (row values t)) = n)
    by (apply length_zip_with_same; assumption).
  assert (Lm2 : length (vmul (vscale (gamma * lam) nt) L) = n)
    by (apply length_zip_with_same; assumption).
  rewrite nth_vadd by lia.
  rewrite nth_vsub by lia.
  rewrite nth_vadd by lia.
  rewrite !nth_vmul by lia.
  assert (Hvn : (e < length (value_next t))%nat) by (rewrite Lvn; exact He).
  rewrite (nth_vscale gamma) by exact Hvn.
  rewrite (nth_vscale (gamma * lam)) by (rewrite Lnt; exact He).
  rewrite Ent. reflexivity.
Qed.

Lemma gae_loop_shape (k : nat) :
  forall start, (start + k = h)%nat ->
    length (fst (loop start)) = h /\ length (snd (loop start)) = n.
Proof.
  induction k as [|k IH]; intros start Hk.
  - rewrite gae_loop_end by lia. simpl. rewrite repeat_length.
    unfold zeros. rewrite repeat_length. split; reflexivity.
  - rewrite gae_loop_step by lia.
    destruct (IH (S start) ltac:(lia)) as [HA HL].
    destruct (loop (S start)) as [A L]. simpl in HA, HL.
    split.
    + cbn [gae_body fst]. rewrite length_insert. exact HA.
    + apply gae_body_length; [lia | exact HL].
Qed.

(** Row [t] of the advantages is the running advantage after step [t]:
    the steps before [t] write other rows. *)
Lemma gae_rows (k : nat) :
  forall start t, (start + k = h)%nat -> (start <= t < h)%nat ->
    row (fst (loop start)) t = snd (loop t).
Proof.
  induction k as [|k IH]; intros start t Hk Ht; [lia|].
  rewrite (gae_loop_step start) by lia.
  destruct (gae_loop_shape k (S start) ltac:(lia)) as [HA _].
  destruct (Nat.eq_dec t start) as [->|Hne].
  - rewrite (gae_loop_step start) by lia.
    destruct (loop (S start)) as [A L]. simpl in HA.
    cbn [gae_body fst snd]. unfold row.
    rewrite nth_lookup, list_lookup_insert_eq by lia. reflexivity.
  - specialize (IH (S start) t ltac:(lia) ltac:(lia)).
    destruct (loop (S start)) as [A L]. simpl in IH.
    cbn [gae_body fst]. unfold row in *.
    rewrite nth_lookup, list_lookup_insert_ne by lia.
    rewrite <- nth_lookup. exact IH.
Qed.

(** The advantage at [t, e], unfolded once. *)
Lemma gae_advantage_rec (t e : nat) :
  (t < h)%nat -> (e < n)%nat ->
  at2 (fst (loop 0)) t e
  = (at2 rewards t e
     + (gamma * nth e (value_next t) 0) * (1 - at2 dones t e)
     - at2 values t e)
    + ((gamma * lam) * (1 - at2 dones t e)) * nth e (snd (loop (S t))) 0.
Proof.
  intros Ht He. unfold at2 at 1.
  rewrite (gae_rows h 0 t) by lia.
  rewrite (gae_loop_step t) by lia.
  destruct (gae_loop_shape (h - S t) (S t) ltac:(lia)) as [_ HL].
  destruct (loop (S t)) as [A L]. simpl in HL.
  apply (gae_last_rec t e A L Ht He HL).
Qed.

Lemma gae_last_is_row (t e : nat) :
  (t < h)%nat -> nth e (snd (loop t)) 0 = at2 (fst (loop 0)) t e.
Proof.
  intros Ht. unfold at2. rewrite (gae_rows h 0 t) by lia. reflexivity.
Qed.

End GaeLoop.

Section GaeClaims.
Import Ppo.
Local Open Scope Q_scope.

Lemma row_zip_with_vadd (a b : list vec) (t : nat) :
  (t < length a)%nat -> (t < length b)%nat ->
  row (zip_with vadd a b) t = vadd (row a t) (row b t).
Proof.
  unfold row. revert b t.
  induction a as [|x a IH]; intros [|y b] [|t] Ha Hb; simpl in *; try lia;
    [reflexivity|].
  apply IH; lia.
Qed.

Lemma compute_gae_advantages (rewards values dones : list vec) (next_value : vec)
    (gamma lam : Q) (h n : nat) :
  shaped h n rewards -> (0 < h)%nat ->
  fst (compute_gae rewards values dones next_value gamma lam)
  = fst (gae_loop rewards values dones next_value gamma lam h n 0).
Proof.
  intros Hr Hh. unfold compute_gae. cbn [fst].
  rewrite (shaped_row h n rewards 0 Hr Hh).
  destruct Hr as [-> _]. reflexivity.
Qed.

(** C5: with one time step and all done flags zero the advantage is
    [reward + gamma * next_value - value], whatever [gae_lambda] is; and
    for every horizon the returns are the advantages plus the values,
    entry by entry. *)
Theorem C5_gae_single_step_and_returns
    (rewards values dones : list vec) (next_value : vec) (gamma lam : Q)
    (h n : nat) :
  shaped h n rewards -> shaped h n values -> shaped h n dones ->
  length next_value = n ->
  (forall t e, (t < h)%nat -> (e < n)%nat ->
     at2 (snd (compute_gae rewards values dones next_value gamma lam)) t e
     = at2 (fst (compute_gae rewards values dones next_value gamma lam)) t e
       + at2 values t e)
  /\ (h = 1%nat ->
      (forall e, (e < n)%nat -> at2 dones 0 e == 0) ->
      forall e, (e < n)%nat ->
        at2 (fst (compute_gae rewards values dones next_value gamma lam)) 0 e
        == at2 rewards 0 e + gamma * nth e next_value 0 - at2 values 0 e).
Proof.
  intros Hr Hv Hd Hnv. split.
  - intros t e Ht He.
    assert (Hh : (0 < h)%nat) by lia.
    pose proof (compute_gae_advantages rewards values dones next_value gamma lam
                  h n Hr Hh) as Hadv.
    unfold compute_gae in *. cbn [fst snd] in *. rewrite Hadv.
    destruct (gae_loop_shape rewards values dones next_value gamma lam h n
                Hr Hv Hd Hnv h 0%nat ltac:(lia)) as [HA _].
    unfold at2. rewrite row_zip_with_vadd by (destruct Hv; lia).
    apply nth_vadd.
    + rewrite (gae_rows rewards values dones next_value gamma lam h n
                 Hr Hv Hd Hnv h 0%nat t) by lia.
      destruct (gae_loop_shape rewards values dones next_value gamma lam h n
                  Hr Hv Hd Hnv (h - t) t ltac:(lia)) as [_ HL].
      lia.
    + rewrite (shaped_row h n values t Hv Ht). exact He.
  - intros -> Hzero e He.
    rewrite (compute_gae_advantages rewards values dones next_value gamma lam
               1 n Hr ltac:(lia)).
    rewrite (gae_advantage_rec rewards values dones next_value gamma lam 1 n
               Hr Hv Hd Hnv 0 e) by lia.
    rewrite (gae_loop_end rewards values dones next_value gamma lam 1 n Hnv 1) by lia.
    cbn [snd Nat.eqb Nat.sub]. rewrite nth_zeros.
    rewrite (Hzero e He). ring.
Qed.

Lemma C5_gae_single_step_and_returns_witness :
  at2 (fst (compute_gae [[1; 2]] [[3; 5]] [[0; 0]] [7; 11] (1 # 2) (95 # 100))) 0 1
  == 2 + (1 # 2) * 11 - 5.
Proof.
  refine (proj2 (C5_gae_single_step_and_returns
                   [[1; 2]] [[3; 5]] [[0; 0]] [7; 11] (1 # 2) (95 # 100) 1 2
                   _ _ _ _) eq_refl _ 1%nat _).
  - split; [reflexivity | repeat constructor].
  - split; [reflexivity | repeat constructor].
  - split; [reflexivity | repeat constructor].
  - reflexivity.
  - intros [|[|e]] He; [reflexivity | reflexivity | simpl in He; lia].
  - lia.
Defined.

(** C2: when [dones[t]] is 1 in lane [e], the advantages of that lane at
    the steps up to [t] are fixed by the lane's rewards and values up to
    [t] and its done flags: two calls that agree there return the same
    advantages there, whatever the rewards and values after [t] and the
    bootstrap values are. *)
Theorem C2_gae_done_blocks_leak
    (rewards values rewards' values' dones : list vec)
    (next_value next_value' : vec) (gamma lam : Q) (h n t e : nat) :
  shaped h n rewards -> shaped h n values -> shaped h n dones ->
  length next_value = n ->
  shaped h n rewards' -> shaped h n values' -> length next_value' = n ->
  (t < h)%nat -> (e < n)%nat ->
  at2 dones t e == 1 ->
  (forall s, (s <= t)%nat ->
     at2 rewards s e == at2 rewards' s e /\ at2 values s e == at2 values' s e) ->
  forall s, (s <= t)%nat ->
    at2 (fst (compute_gae rewards values dones next_value gamma lam)) s e
    == at2 (fst (compute_gae rewards' values' dones next_value' gamma lam)) s e.
Proof.
  intros Hr Hv Hd Hnv Hr' Hv' Hnv' Ht He Hdone Hagree.
  rewrite (compute_gae_advantages rewards values dones next_value gamma lam
             h n Hr ltac:(lia)).
  rewrite (compute_gae_advantages rewards' values' dones next_value' gamma lam
             h n Hr' ltac:(lia)).
  assert (Hk : forall k s, (s + k = t)%nat ->
            at2 (fst (gae_loop rewards values dones next_value gamma lam h n 0)) s e
            == at2 (fst (gae_loop rewards' values' dones next_value' gamma lam h n 0))
                   s e).
  { induction k as [|k IH]; intros s Hs.
    - assert (s = t) by lia. subst s.
      rewrite (gae_advantage_rec rewards values dones next_value gamma lam h n
                 Hr Hv Hd Hnv t e Ht He).
      rewrite (gae_advantage_rec rewards' values' dones next_value' gamma lam h n
                 Hr' Hv' Hd Hnv' t e Ht He).
      destruct (Hagree t ltac:(lia)) as [Er Ev].
      rewrite Hdone, Er, Ev. ring.
    - assert (Hs' : (s < h)%nat) by lia.
      rewrite (gae_advantage_rec rewards values dones next_value gamma lam h n
                 Hr Hv Hd Hnv s e Hs' He).
      rewrite (gae_advantage_rec rewards' values' dones next_value' gamma lam h n
                 Hr' Hv' Hd Hnv' s e Hs' He).
      assert (Hne : (s =? h - 1)%nat = false) by (apply Nat.eqb_neq; lia).
      rewrite Hne.
      rewrite (gae_last_is_row rewards values dones next_value gamma lam h n
                 Hr Hv Hd Hnv (S s) e) by lia.
      rewrite (gae_last_is_row rewards' values' dones next_value' gamma lam h n
                 Hr' Hv' Hd Hnv' (S s) e) by lia.
      rewrite (IH (S s) ltac:(lia)).
      destruct (Hagree s ltac:(lia)) as [Er Ev].
      destruct (Hagree (s + 1)%nat ltac:(lia)) as [_ Ev1].
      change (nth e (row values (s + 1)) 0) with (at2 values (s + 1) e).
      change (nth e (row values' (s + 1)) 0) with (at2 values' (s + 1) e).
      rewrite Er, Ev, Ev1. reflexivity. }
  intros s Hs. apply (Hk (t - s)%nat). lia.
Qed.

Lemma C2_gae_done_blocks_leak_witness :
  at2 (fst (compute_gae [[1]; [2]; [3]] [[4]; [5]; [6]] [[0]; [1]; [0]] [7]
                        (1 # 2) (95 # 100))) 0 0
  == at2 (fst (compute_gae [[1]; [2]; [1000]] [[4]; [5]; [-50]] [[0]; [1]; [0]] [99]
                           (1 # 2) (95 # 100))) 0 0.
Proof.
  refine (C2_gae_done_blocks_leak
            [[1]; [2]; [3]] [[4]; [5]; [6]] [[1]; [2]; [1000]] [[4]; [5]; [-50]]
            [[0]; [1]; [0]] [7] [99] (1 # 2) (95 # 100) 3 1 1 0
            _ _ _ _ _ _ _ _ _ _ _ 0%nat _).
  - split; [reflexivity | repeat constructor].
  - split; [reflexivity | repeat constructor].
  - split; [reflexivity | repeat constructor].
  - reflexivity.
  - split; [reflexivity | repeat constructor].
  - split; [reflexivity | repeat constructor].
  - reflexivity.
  - lia.
  - lia.
  - reflexivity.
  - intros [|[|s]] Hs; [split; reflexivity | split; reflexivity | lia].
  - lia.
Defined.

End GaeClaims.

(** ** The clipped surrogate *)

Section ClipClaims.
Import Numeric Config Ppo.
Local Open Scope Q_scope.

Lemma map_at (f : Q -> Q) (l : vec) (i : nat) (x : Q) :
  l !! i = Some x -> map f l !! i = Some (f x).
Proof.
  revert i. induction l as [|y l IH]; intros [|i] H; simpl in *;
    try discriminate.
  - congruence.
  - apply IH. exact H.
Qed.

Lemma zip_with_at (f : Q -> Q -> Q) (a b : vec) (i : nat) (x y : Q) :
  a !! i = Some x -> b !! i = Some y -> zip_with f a b !! i = Some (f x y).
Proof.
  revert b i. induction a as [|u a IH]; intros [|v b] [|i] Ha Hb; simpl in *;
    try discriminate.
  - congruence.
  - apply IH; assumption.
Qed.

(** Clamping [1 + 2 eps] to [[1 - eps, 1 + eps]] gives [1 + eps]. *)
Lemma clip_double_eps (eps r : Q) :
  r == 1 + 2 * eps -> clip r (1 - eps) (1 + eps) == 1 + eps.
Proof.
  intros Hr. unfold clip.
  destruct (Q.max_spec r (1 - eps)) as [[H1 H2]|[H1 H2]];
    destruct (Q.min_spec (Qmax r (1 - eps)) (1 + eps)) as [[H3 H4]|[H3 H4]];
    rewrite H4; try reflexivity; lra.
Qed.

Lemma scale_le_nonneg (x y a : Q) : x <= y -> 0 <= a -> x * a <= y * a.
Proof. intros Hxy Ha. apply Qmult_le_compat_r; assumption. Qed.

Lemma scale_le_nonpos (x y a : Q) : x <= y -> a <= 0 -> y * a <= x * a.
Proof.
  intros Hxy Ha.
  assert (H : x * (- a) <= y * (- a)) by (apply Qmult_le_compat_r; lra).
  lra.
Qed.

(** The clipped surrogate, element by element, with the clamp and the
    minimum written out. *)
Lemma surrogate_elements (cfg : PPOConfig) (ratio advantages : vec) :
  surrogate cfg ratio advantages
  = zip_with (fun r a =>
                Qmin (r * a)
                     (Qmin (Qmax r (1 - clip_epsilon cfg)) (1 + clip_epsilon cfg) * a))
             ratio advantages.
Proof.
  unfold surrogate, unclipped, clipped, vmul, clip. revert advantages.
  induction ratio as [|r ratio IH]; intros [|a advantages]; cbn; try reflexivity.
  f_equal. apply IH.
Qed.

(** C6: with [clamp x] written out as
    [min (max x (1 - eps)) (1 + eps)], entry [i] of the clipped product
    is [clamp ratio * advantage]: the ratio itself inside
    [[1 - eps, 1 + eps]], [1 + eps] above it and [1 - eps] below it, so
    [(1 + eps) * advantage] when the ratio is [1 + 2 eps].  The
    surrogate is the smaller of the unclipped and the clipped product:
    at that ratio the clipped one for a non-negative advantage and the
    unclipped one for a non-positive advantage.  The policy loss is the
    negated mean of the surrogate: minus the sum of these minima over
    the mini-batch, divided by its size. *)
Theorem C6_clipped_surrogate (cfg : PPOConfig) (ratio advantages : vec)
    (i : nat) (r a : Q) :
  ratio !! i = Some r -> advantages !! i = Some a ->
  let eps := clip_epsilon cfg in
  let clamp := fun x : Q => Qmin (Qmax x (1 - eps)) (1 + eps) in
  unclipped ratio advantages !! i = Some (r * a)
  /\ clipped cfg ratio advantages !! i = Some (clamp r * a)
  /\ surrogate cfg ratio advantages !! i = Some (Qmin (r * a) (clamp r * a))
  /\ (1 - eps <= r -> r <= 1 + eps -> clamp r == r)
  /\ (1 + eps <= r -> clamp r == 1 + eps)
  /\ (0 <= eps -> r <= 1 - eps -> clamp r == 1 - eps)
  /\ (r == 1 + 2 * eps -> clamp r * a == (1 + eps) * a)
  /\ (r == 1 + 2 * eps -> 0 <= eps -> 0 <= a ->
      Qmin (r * a) (clamp r * a) == (1 + eps) * a)
  /\ (r == 1 + 2 * eps -> 0 <= eps -> a <= 0 ->
      Qmin (r * a) (clamp r * a) == (1 + 2 * eps) * a)
  /\ policy_loss cfg ratio advantages
     = Some (- (fold_right Qplus 0
                  (zip_with (fun r a => Qmin (r * a) (clamp r * a)) ratio advantages)
                / inject_Z (Z.of_nat (length ratio `min` length advantages)))).
Proof.
  intros Hr Ha. cbn zeta.
  set (eps := clip_epsilon cfg).
  assert (Hu : unclipped ratio advantages !! i = Some (r * a))
    by (apply zip_with_at; assumption).
  assert (Hc : clipped cfg ratio advantages !! i
               = Some (Qmin (Qmax r (1 - eps)) (1 + eps) * a)).
  { apply zip_with_at; [|exact Ha].
    apply (map_at (fun r => clip r (1 - clip_epsilon cfg) (1 + clip_epsilon cfg))).
    exact Hr. }
  assert (Hd : r == 1 + 2 * eps -> Qmin (Qmax r (1 - eps)) (1 + eps) == 1 + eps)
    by (intros E; exact (clip_double_eps eps r E)).
  split; [exact Hu|]. split; [exact Hc|].
  split; [apply zip_with_at; assumption|].
  split; [|split; [|split; [|split; [|split; [|split]]]]].
  - intros Hlo Hhi. rewrite Q.max_l by exact Hlo. apply Q.min_l. exact Hhi.
  - intros Hhi. apply Q.min_r.
    eapply Qle_trans; [exact Hhi | apply Q.le_max_l].
  - intros He Hlo. rewrite Q.max_r by exact Hlo. apply Q.min_l. lra.
  - intros E. rewrite (Hd E). reflexivity.
  - intros E He Hpos. rewrite (Hd E).
    apply Q.min_r. rewrite E. apply scale_le_nonneg; [lra | exact Hpos].
  - intros E He Hneg. rewrite (Hd E).
    rewrite Q.min_l; [rewrite E; reflexivity|].
    rewrite E. apply scale_le_nonpos; [lra | exact Hneg].
  - unfold policy_loss, mean. rewrite surrogate_elements. fold eps.
    set (l := zip_with _ ratio advantages).
    assert (Hlen : length l = (length ratio `min` length advantages)%nat)
      by (unfold l; apply length_zip_with).
    destruct l as [|x l'] eqn:El.
    + apply lookup_lt_Some in Hr, Ha. cbn in Hlen. lia.
    + rewrite <- Hlen. reflexivity.
Qed.

Lemma C6_clipped_surrogate_witness :
  clipped default_ppo [14 # 10; 1] [3; -2] !! 0%nat
  = Some (Qmin (Qmax (14 # 10) (1 - (2 # 10))) (1 + (2 # 10)) * 3)
  /\ Qmin (Qmax (14 # 10) (1 - (2 # 10))) (1 + (2 # 10)) * 3 == (1 + (2 # 10)) * 3
  /\ Qmin ((14 # 10) * 3) (Qmin (Qmax (14 # 10) (1 - (2 # 10))) (1 + (2 # 10)) * 3)
     == (1 + (2 # 10)) * 3
  /\ policy_loss default_ppo [14 # 10; 1] [3; -2]
     = Some (- (fold_right Qplus 0
                  (zip_with (fun r a =>
                               Qmin (r * a)
                                    (Qmin (Qmax r (1 - (2 # 10))) (1 + (2 # 10)) * a))
                            [14 # 10; 1] [3; -2])
                / inject_Z (Z.of_nat 2))).
Proof.
  pose proof (C6_clipped_surrogate default_ppo [14 # 10; 1] [3; -2] 0 (14 # 10) 3
                eq_refl eq_refl) as (_ & Hc & _ & _ & _ & _ & H1 & H2 & _ & Hp).
  split; [exact Hc|]. split; [|split].
  - apply H1. reflexivity.
  - apply H2; [reflexivity | discriminate | discriminate].
  - exact Hp.
Defined.

End ClipClaims.

(** ** The trainer loop *)

Section TrainerFacts.
Import Numeric Trainer.
Local Open Scope Q_scope.
Context `{L : Learner}.

Lemma diverged_iff (m : Metrics) :
  diverged m = true <->
  exists v, In v (values m) /\ (v = NaN \/ v = PosInf \/ v = NegInf).
Proof.
  unfold diverged. rewrite existsb_exists. split.
  - intros (v & Hin & Hv). exists v. split; [exact Hin|].
    destruct v; simpl in Hv; try discriminate; auto.
  - intros (v & Hin & Hv). exists v. split; [exact Hin|].
    destruct Hv as [->|[->| ->]]; reflexivity.
Qed.

(** One application of the annealing rule interpolates from the value
    the coefficient has at that moment. *)
Lemma anneal_from_current (step : Z) (p : Config.PPOConfig) :
  (1 <= Config.entropy_anneal_steps p)%Z ->
  Config.entropy_coef (anneal step p) = linear_schedule (Config.entropy_coef p) p step.
Proof.
  intros H. unfold anneal, linear_schedule. cbn [Config.set_entropy_coef Config.entropy_coef].
  rewrite Z.max_r by exact H. reflexivity.
Qed.

(** C7: when the update reports a NaN or infinite metric, an iteration
    with a last-known-good checkpoint on disk ends with the model
    parameters and the optimizer state of that checkpoint; it prints the
    rollback notice and nothing else, writes no checkpoint and leaves the
    league alone.  Without a checkpoint it prints the warning, keeps the
    updated parameters and ends normally. *)
Theorem C7_divergence_rolls_back (t : SelfPlayTrainer) (batch : Batch)
    (w w' : World) (metrics : Metrics) (m : Params) (o : OptState) :
  collect_rollout (cfg t) (global_step t) (model t) (world t) = (w, Ok batch) ->
  ppo_update (Config.ppo (cfg t)) batch (model t, optimizer t, w)
  = (metrics, (m, o, w')) ->
  diverged metrics = true ->
  (forall path ck,
     truthy (last_good_checkpoint t) = Some path ->
     disk t !! path = Some ck ->
     exists t', train_iteration t = Ok t'
       /\ model t' = ck_model ck
       /\ optimizer t' = ck_optimizer ck
       /\ stdout t' = stdout t ++ [GuardRolledBack path]
       /\ disk t' = disk t
       /\ league t' = league t
       /\ last_good_checkpoint t' = last_good_checkpoint t)
  /\ (truthy (last_good_checkpoint t) = None ->
      exists t', train_iteration t = Ok t'
        /\ model t' = m
        /\ optimizer t' = o
        /\ stdout t' = stdout t ++ [GuardNoCheckpoint]
        /\ disk t' = disk t
        /\ league t' = league t
        /\ last_good_checkpoint t' = last_good_checkpoint t).
Proof.
  intros Hcollect Hupdate Hdiv. split.
  - intros path ck Hpath Hdisk.
    unfold train_iteration. rewrite Hcollect. cbn [rbind].
    rewrite Hupdate, Hdiv.
    unfold rollback_checkpoint, anneal_entropy.
    cbn [last_good_checkpoint disk cfg model optimizer league world global_step stdout].
    rewrite Hpath, Hdisk.
    eexists. split; [reflexivity|]. repeat split.
  - intros Hnone.
    unfold train_iteration. rewrite Hcollect. cbn [rbind].
    rewrite Hupdate, Hdiv.
    unfold rollback_checkpoint, anneal_entropy.
    cbn [last_good_checkpoint disk cfg model optimizer league world global_step stdout].
    rewrite Hnone.
    eexists. split; [reflexivity|]. repeat split.
Qed.

(** The blocks after the update leave the options and the step count
    alone. *)
Lemma log_block_keeps (t : SelfPlayTrainer) (metrics : Metrics) :
  cfg (log_block t metrics) = cfg t
  /\ global_step (log_block t metrics) = global_step t.
Proof.
  unfold log_block. destruct (float_ltb _ _); split; reflexivity.
Qed.

Lemma checkpoint_block_keeps (t : SelfPlayTrainer) :
  cfg (checkpoint_block t) = cfg t
  /\ global_step (checkpoint_block t) = global_step t.
Proof. split; reflexivity. Qed.

Lemma eval_block_keeps (t t' : SelfPlayTrainer) :
  eval_block t = Ok t' -> cfg t' = cfg t /\ global_step t' = global_step t.
Proof.
  unfold eval_block. destruct (evaluate _ _ _ _) as [w [winrate|e]];
    cbn [rbind]; [|discriminate].
  intros H. inversion H; subst. split; reflexivity.
Qed.

Lemma rollback_checkpoint_keeps (t t' : SelfPlayTrainer) :
  rollback_checkpoint t = Ok t' -> cfg t' = cfg t /\ global_step t' = global_step t.
Proof.
  unfold rollback_checkpoint.
  destruct (truthy (last_good_checkpoint t)) as [path|].
  - destruct (disk t !! path) as [ck|]; [|discriminate].
    intros H. inversion H; subst. split; reflexivity.
  - intros H. inversion H; subst. split; reflexivity.
Qed.

(** Every iteration that ends normally has applied the annealing rule
    once, at the step count it started with, and then advanced the step
    count by [rollout_horizon * num_envs]. *)
Lemma train_iteration_anneals (t t' : SelfPlayTrainer) :
  train_iteration t = Ok t' ->
  Config.ppo (cfg t') = anneal (global_step t) (Config.ppo (cfg t))
  /\ global_step t'
     = (global_step t
        + Config.rollout_horizon (Config.runtime (cfg t))
          * Config.num_envs (Config.runtime (cfg t)))%Z.
Proof.
  unfold train_iteration.
  destruct (collect_rollout _ _ _ _) as [w [batch|e]]; cbn [rbind]; [|discriminate].
  destruct (ppo_update _ _ _) as [metrics [[m o] w']].
  set (t1 := mkTrainer _ _ _ _ _ _ _ _ _ _).
  assert (H1 : Config.ppo (cfg t1) = anneal (global_step t) (Config.ppo (cfg t))
               /\ global_step t1
                  = (global_step t
                     + Config.rollout_horizon (Config.runtime (cfg t))
                       * Config.num_envs (Config.runtime (cfg t)))%Z)
    by (split; reflexivity).
  clearbody t1. destruct H1 as [Hp Hg].
  destruct (diverged metrics).
  - intros H. apply rollback_checkpoint_keeps in H as [-> ->]. auto.
  - destruct (pymod (global_step t1) _) as [r1|e]; cbn [rbind]; [|discriminate].
    set (t2 := if (r1 =? 0)%Z then log_block t1 metrics else t1).
    assert (H2 : cfg t2 = cfg t1 /\ global_step t2 = global_step t1).
    { unfold t2. destruct (r1 =? 0)%Z; [apply log_block_keeps | auto]. }
    clearbody t2. destruct H2 as [Hc2 Hg2].
    destruct (pymod (global_step t2) _) as [r2|e]; cbn [rbind]; [|discriminate].
    set (t3 := if (r2 =? 0)%Z then checkpoint_block t2 else t2).
    assert (H3 : cfg t3 = cfg t2 /\ global_step t3 = global_step t2).
    { unfold t3. destruct (r2 =? 0)%Z; [apply checkpoint_block_keeps | auto]. }
    clearbody t3. destruct H3 as [Hc3 Hg3].
    destruct (pymod (global_step t3) _) as [r3|e]; cbn [rbind]; [|discriminate].
    destruct (r3 =? 0)%Z.
    + intros H. apply eval_block_keeps in H as [-> ->].
      rewrite Hc3, Hc2, Hg3, Hg2. auto.
    + intros H. inversion H; subst t'.
      rewrite Hc3, Hc2, Hg3, Hg2. auto.
Qed.

End TrainerFacts.

Section TrainerClaims.
Import Numeric Trainer TrainerExample.
Local Open Scope Q_scope.

Lemma C7_divergence_rolls_back_witness :
  (exists t', train_iteration with_checkpoint = Ok t'
     /\ model t' = 2%Z
     /\ optimizer t' = 20%Z
     /\ stdout t' = [GuardRolledBack "ck/checkpoint_16.pt"])
  /\ (exists t', train_iteration without_checkpoint = Ok t'
        /\ model t' = 4%Z
        /\ optimizer t' = 31%Z
        /\ stdout t' = [GuardNoCheckpoint]).
Proof.
  split.
  - destruct (proj1 (C7_divergence_rolls_back (L := counter_learner)
                       with_checkpoint tt tt tt (metrics_of 4) 4%Z 31%Z
                       eq_refl eq_refl eq_refl)
                    "ck/checkpoint_16.pt"%string
                    (mkCheckpoint counter_learner 16%Z 2%Z 20%Z small_config)
                    eq_refl eq_refl)
      as (t' & Ht & Hm & Ho & Hs & _).
    exists t'. repeat split; assumption.
  - destruct (proj2 (C7_divergence_rolls_back (L := counter_learner)
                       without_checkpoint tt tt tt (metrics_of 4) 4%Z 31%Z
                       eq_refl eq_refl eq_refl)
                    eq_refl)
      as (t' & Ht & Hm & Ho & Hs & _).
    exists t'. repeat split; assumption.
Defined.

(** After an iteration that ends normally the loop goes on with the
    next one. *)
Lemma train_next (fuel : nat) (t t' : SelfPlayTrainer (H := counter_learner)) :
  (global_step t < Config.total_steps (Config.runtime (cfg t)))%Z ->
  train_iteration t = Ok t' ->
  train (S fuel) t = train fuel t'.
Proof.
  intros Hlt Hit. cbn [train].
  apply Z.ltb_lt in Hlt. rewrite Hlt, Hit. reflexivity.
Qed.

(** The example learner trains to the end in eight iterations: it
    saves one checkpoint at 16 steps, diverges in the fourth, sixth and
    eighth iteration, rolls back to that checkpoint each time, and stops
    at 64 steps. *)
Example train_example :
  match train 8 fresh with
  | Some (Ok t) =>
      global_step t = 64%Z
      /\ model t = 2%Z
      /\ last_good_checkpoint t = Some "ck/checkpoint_16.pt"%string
      /\ List.filter (fun e => match e with
                               | LogLine _ _ | EvalLine _ _ => false
                               | _ => true
                               end) (stdout t)
         = [CheckpointSaved "ck/checkpoint_16.pt";
            GuardRolledBack "ck/checkpoint_16.pt";
            GuardRolledBack "ck/checkpoint_16.pt";
            GuardRolledBack "ck/checkpoint_16.pt";
            TrainingDone]
  | _ => False
  end.
Proof. vm_compute. repeat split. Qed.

(** C3, at the default options (initial coefficient 0.01, floor 0.001,
    3,000,000 annealing steps) and 2048 steps per iteration: the call at
    step 4096 alone gives the linear schedule's value, but after the
    calls at steps 0, 2048 and 4096 the coefficient is below it, and
    applying the rule twice at one step count differs from applying it
    once: the rule interpolates from the coefficient it last wrote, not
    from the initial one. *)
Theorem C3_anneal_compounds :
  Config.entropy_coef (anneal_calls [4096%Z] Config.default_ppo)
  == linear_schedule (1 # 100) Config.default_ppo 4096
  /\ Config.entropy_coef (anneal_calls [0%Z; 2048%Z; 4096%Z] Config.default_ppo)
     < linear_schedule (1 # 100) Config.default_ppo 4096
  /\ ~ Config.entropy_coef (anneal_calls [4096%Z; 4096%Z] Config.default_ppo)
       == Config.entropy_coef (anneal_calls [4096%Z] Config.default_ppo).
Proof.
  split; [vm_compute; reflexivity|].
  split; [vm_compute; reflexivity|].
  vm_compute. discriminate.
Qed.

End TrainerClaims.

(** ** The mock environment *)

Section EnvFacts.
Import Numeric Config Env.
Local Open Scope Q_scope.
Context `{R : Runtime}.

Lemma build_observation_masks (env : MockSelfPlayEnv) (obs : Observation) :
  build_observation env = Ok obs ->
  action_type_mask obs !! 0%nat = Some 1%Z
  /\ action_type_mask obs !! 6%nat = Some 0%Z
  /\ sell_slot_mask obs = repeat 0%Z (slot_dim (model_cfg env)).
Proof.
  unfold build_observation.
  destruct (set_items _ _) as [static|e]; cbn [rbind]; [|discriminate].
  destruct (set_last_row _ _) as [sequence|e]; cbn [rbind]; [|discriminate].
  intros H. inversion H; subst; clear H. cbn. repeat split.
Qed.

Lemma step_model_cfg (env : MockSelfPlayEnv) (a : Action) :
  model_cfg (fst (step env a)) = model_cfg env
  /\ max_ticks (fst (step env a)) = max_ticks env.
Proof.
  unfold step.
  destruct (copy_via_dict (state env)); [|split; reflexivity].
  destruct (apply_action (state env) a) as [s p].
  destruct (simulate_opponent_policy (rng env) s) as [g s'].
  destruct (simulate_battle s') as [[s'' x] y].
  split; reflexivity.
Qed.

Lemma step_observation (env : MockSelfPlayEnv) (a : Action) (out : StepOut) :
  snd (step env a) = Ok out ->
  build_observation (fst (step env a)) = Ok (out_obs out).
Proof.
  unfold step.
  destruct (copy_via_dict (state env)); [|discriminate].
  destruct (apply_action (state env) a) as [s p].
  destruct (simulate_opponent_policy (rng env) s) as [g s'].
  destruct (simulate_battle s') as [[s'' x] y].
  cbn [fst snd].
  destruct (build_observation _) as [obs|e]; cbn [rbind]; [|discriminate].
  intros H. inversion H; subst. reflexivity.
Qed.

(** C10: in every observation [reset] or [step] returns, the
    action-type mask is 1 at index 0 (WAIT) and 0 at index 6
    (SELL_TURRET_ENGINE), and the sell-slot mask is [slot_dim] zeros. *)
Theorem C10_observation_masks (env : MockSelfPlayEnv) (obs : Observation) :
  produces env obs ->
  action_type_mask obs !! 0%nat = Some 1%Z
  /\ ACTIONS !! 0%nat = Some WAIT
  /\ action_type_mask obs !! 6%nat = Some 0%Z
  /\ ACTIONS !! 6%nat = Some SELL_TURRET_ENGINE
  /\ sell_slot_mask obs = repeat 0%Z (slot_dim (model_cfg env))
  /\ Forall (fun m => m = 0%Z) (sell_slot_mask obs).
Proof.
  intros Hp.
  assert (Hm : action_type_mask obs !! 0%nat = Some 1%Z
               /\ action_type_mask obs !! 6%nat = Some 0%Z
               /\ sell_slot_mask obs = repeat 0%Z (slot_dim (model_cfg env))).
  { destruct Hp as [[seed Hreset]|(a & out & Hstep & <-)].
    - unfold reset in Hreset. cbn [snd] in Hreset.
      apply build_observation_masks in Hreset. exact Hreset.
    - apply step_observation, build_observation_masks in Hstep.
      destruct (step_model_cfg env a) as [Hcfg _].
      rewrite Hcfg in Hstep. exact Hstep. }
  destruct Hm as (H0 & H6 & Hs).
  repeat split; try assumption.
  rewrite Hs. apply Forall_forall. intros m Hin.
  apply list_elem_of_In, repeat_spec in Hin. exact Hin.
Qed.

(** C9: [reset(seed)] followed by the same actions returns the same
    observations, rewards, done flags, info maps and reward components
    on any two environments built with the same options, whatever they
    did before. *)
Theorem C9_env_deterministic (e1 e2 : MockSelfPlayEnv) (seed : Z)
    (actions : list Action) :
  model_cfg e1 = model_cfg e2 ->
  max_ticks e1 = max_ticks e2 ->
  episode e1 seed actions = episode e2 seed actions.
Proof.
  intros Hcfg Hticks. unfold episode, reset. rewrite Hcfg, Hticks. reflexivity.
Qed.

End EnvFacts.

Section EnvClaims.
Import Numeric Config Env.
Local Open Scope Q_scope.

(** With the example runtime [reset] returns an observation and the
    first [step] raises AttributeError, which ends the run. *)
Example episode_runs :
  match episode new_env 1337 [recruit; wait; recruit] with
  | (Ok _, [Raise AttributeError]) => True
  | _ => False
  end.
Proof. vm_compute. exact I. Qed.

Lemma C9_env_deterministic_witness :
  episode new_env 1337 [recruit; wait; recruit]
  = episode used_env 1337 [recruit; wait; recruit].
Proof.
  apply (C9_env_deterministic (R := example_runtime) new_env used_env 1337
           [recruit; wait; recruit]); reflexivity.
Defined.

Lemma C10_observation_masks_witness :
  exists obs, snd (reset used_env 1337) = Ok obs
    /\ action_type_mask obs !! 0%nat = Some 1%Z
    /\ action_type_mask obs !! 6%nat = Some 0%Z
    /\ sell_slot_mask obs = [0; 0; 0; 0]%Z.
Proof.
  destruct (snd (reset used_env 1337)) as [obs|e] eqn:Hreset.
  - exists obs. split; [reflexivity|].
    destruct (C10_observation_masks (R := example_runtime) used_env obs)
      as (H0 & _ & H6 & _ & Hs & _).
    + left. exists 1337%Z. exact Hreset.
    + repeat split; assumption.
  - exfalso. vm_compute in Hreset. discriminate Hreset.
Defined.

End EnvClaims.

(** ** The action sampler *)

Section SamplerFacts.
Import Numeric Model.
Local Open Scope Q_scope.

Lemma argmax_from_spec (l : list Q) :
  forall (bi : nat) (b : Q) (i : nat),
    (argmax_from bi b i l = bi /\ Forall (fun y => y <= b) l)
    \/ (exists j x, argmax_from bi b i l = (i + j)%nat /\ l !! j = Some x
                    /\ b < x /\ Forall (fun y => y <= x) l).
Proof.
  induction l as [|x r IH]; intros bi b i.
  - left. split; [reflexivity | constructor].
  - cbn [argmax_from]. destruct (Qltb b x) eqn:E.
    + apply Qltb_lt in E.
      destruct (IH i x (S i)) as [[Hk Hall]|(j & x' & Hk & Hj & Hlt & Hall)].
      * right. exists 0%nat, x. rewrite Hk.
        repeat split; [lia | exact E |].
        constructor; [apply Qle_refl | exact Hall].
      * right. exists (S j), x'. rewrite Hk.
        repeat split; [lia | exact Hj | lra |].
        constructor; [lra | exact Hall].
    + apply Qltb_ge in E.
      destruct (IH bi b (S i)) as [[Hk Hall]|(j & x' & Hk & Hj & Hlt & Hall)].
      * left. split; [exact Hk|]. constructor; assumption.
      * right. exists (S j), x'. rewrite Hk.
        repeat split; [lia | exact Hj | exact Hlt |].
        constructor; [lra | exact Hall].
Qed.

(** [argmax] returns the place of an entry no other entry exceeds. *)
Lemma argmax_max (l : list Q) :
  l <> [] ->
  exists k v, argmax l = Ok k /\ l !! k = Some v /\ Forall (fun y => y <= v) l.
Proof.
  destruct l as [|x r]; [congruence|]. intros _. cbn [argmax].
  destruct (argmax_from_spec r 0%nat x 1%nat)
    as [[Hk Hall]|(j & x' & Hk & Hj & Hlt & Hall)]; rewrite Hk.
  - exists 0%nat, x. repeat split. constructor; [apply Qle_refl | exact Hall].
  - exists (S j), x'. repeat split; [exact Hj|].
    constructor; [lra | exact Hall].
Qed.

(** The largest entry bounds the list and is one of its entries. *)
Lemma fold_max_spec (r : list Q) :
  forall x, Forall (fun y => y <= fold_left Qmax r x) (x :: r)
            /\ exists j v, (x :: r) !! j = Some v /\ v == fold_left Qmax r x.
Proof.
  induction r as [|y r IH]; intros x.
  - split; [repeat constructor; apply Qle_refl|].
    exists 0%nat, x. split; reflexivity.
  - cbn [fold_left]. destruct (IH (Qmax x y)) as [Hall (j & v & Hj & Hv)].
    inversion Hall as [|? ? Hm Hr]; subst.
    split.
    + constructor; [|constructor; [|exact Hr]].
      * eapply Qle_trans; [apply Q.le_max_l | exact Hm].
      * eapply Qle_trans; [apply Q.le_max_r | exact Hm].
    + destruct j as [|j].
      * cbn in Hj. inversion Hj; subst v.
        destruct (Q.max_spec x y) as [[_ E]|[_ E]].
        -- exists 1%nat, y. split; [reflexivity|]. rewrite <- Hv, E. reflexivity.
        -- exists 0%nat, x. split; [reflexivity|]. rewrite <- Hv, E. reflexivity.
      * exists (S (S j)), v. split; [exact Hj | exact Hv].
Qed.

Lemma total_pos (ws : list Q) (j : nat) (w : Q) :
  Forall (fun x => 0 <= x) ws -> ws !! j = Some w -> 0 < w -> 0 < total ws.
Proof.
  revert j. induction ws as [|x ws IH]; intros [|j] Hall Hj Hw;
    cbn in Hj; try discriminate; inversion Hall as [|? ? Hx Hr]; subst;
    unfold total; cbn [fold_right]; fold (total ws).
  - inversion Hj; subst.
    assert (0 <= total ws).
    { clear -Hr. induction Hr; unfold total; cbn; [lra|].
      fold (total l). lra. }
    lra.
  - specialize (IH j Hr Hj Hw). lra.
Qed.

(** The inversion of the cumulative weights lands on a positive
    weight. *)
Lemma cdf_search_positive (ws : list Q) :
  forall (target acc : Q) (i : nat),
    acc <= target -> target < acc + total ws ->
    exists k w, cdf_search ws target acc i = Some (i + k)%nat
                /\ ws !! k = Some w /\ 0 < w.
Proof.
  induction ws as [|x ws IH]; intros target acc i Hlo Hhi.
  - unfold total in Hhi. cbn in Hhi. lra.
  - unfold total in Hhi. cbn [fold_right] in Hhi. fold (total ws) in Hhi.
    cbn [cdf_search]. destruct (Qltb target (acc + x)) eqn:E.
    + apply Qltb_lt in E. exists 0%nat, x.
      repeat split; [f_equal; lia | lra].
    + apply Qltb_ge in E.
      destruct (IH target (acc + x) (S i) E ltac:(lra)) as (k & w & Hk & Hw & Hpos).
      exists (S k), w. rewrite Hk. repeat split; [f_equal; lia | exact Hw | exact Hpos].
Qed.

End SamplerFacts.

Section SamplerHeads.
Import Numeric Model.
Local Open Scope Q_scope.
Context `{T : TorchFloat}.

Lemma masked_at (logits : list Q) (mask : list Z) (i : nat) (v : Q) :
  masked_logits logits mask !! i = Some v ->
  exists l m, logits !! i = Some l /\ mask !! i = Some m
              /\ v = if (0 <? m)%Z then l else large_negative.
Proof.
  unfold masked_logits. intros H.
  apply lookup_zip_with_Some in H as (l & m & -> & Hl & Hm). eauto.
Qed.

Lemma masked_allowed (gap : Q) (logits : list Q) (mask : list Z) :
  has_allowed gap logits mask ->
  exists j v, masked_logits logits mask !! j = Some v /\ large_negative + gap <= v.
Proof.
  intros (i & l & m & Hl & Hm & Hpos & Hge). exists i, l. split; [|exact Hge].
  unfold masked_logits. apply lookup_zip_with_Some. exists l, m.
  repeat split; [|exact Hl | exact Hm].
  apply Z.ltb_lt in Hpos. now rewrite Hpos.
Qed.

(** An entry of the masked logits above [large_negative] sits on an
    allowed index. *)
Lemma above_floor_allowed (logits : list Q) (mask : list Z) (k : nat) (v : Q) :
  masked_logits logits mask !! k = Some v -> large_negative < v ->
  (0 < mask_at mask k)%Z.
Proof.
  intros Hk Hv. apply masked_at in Hk as (l & m & Hl & Hm & ->).
  unfold mask_at. rewrite nth_lookup, Hm. cbn.
  destruct (0 <? m)%Z eqn:E; [now apply Z.ltb_lt|].
  exfalso. exact (Qlt_irrefl _ Hv).
Qed.

Lemma map_at_inv (f : Q -> Q) (l : list Q) (k : nat) (w : Q) :
  map f l !! k = Some w -> exists v, l !! k = Some v /\ w = f v.
Proof.
  revert k. induction l as [|x l IH]; intros [|k] H; cbn in *; try discriminate.
  - inversion H. eauto.
  - apply IH. exact H.
Qed.

Lemma Forall_map_nonneg (f : Q -> Q) (l : list Q) :
  (forall x, 0 <= f x) -> Forall (fun w => 0 <= w) (map f l).
Proof.
  intros Hf. induction l as [|x l IH]; cbn; constructor; auto.
Qed.

Lemma argmax_allowed (gap : Q) (logits : list Q) (mask : list Z) :
  0 < gap -> has_allowed gap logits mask ->
  exists k, argmax (masked_logits logits mask) = Ok k /\ (0 < mask_at mask k)%Z.
Proof.
  intros Hgap Hal. apply masked_allowed in Hal as (j & vj & Hj & Hge).
  assert (Hne : masked_logits logits mask <> []).
  { intros E. rewrite E in Hj. discriminate. }
  destruct (argmax_max _ Hne) as (k & v & Hk & Hv & Hall).
  exists k. split; [exact Hk|].
  apply (above_floor_allowed logits mask k v Hv).
  pose proof (Forall_lookup_1 _ _ _ _ Hall Hj) as Hle. cbn in Hle. lra.
Qed.

Lemma sample_allowed (gap : Q) `{!TorchFloatLaws T gap} (logits : list Q)
    (mask : list Z) (u : Q) :
  0 < gap -> has_allowed gap logits mask -> 0 <= u -> u < 1 ->
  exists k, categorical_sample (masked_logits logits mask) u = Ok k
            /\ (0 < mask_at mask k)%Z.
Proof.
  intros Hgap Hal Hu0 Hu1. apply masked_allowed in Hal as (j & vj & Hj & Hge).
  unfold categorical_sample, weights.
  destruct (masked_logits logits mask) as [|x r] eqn:Em; [discriminate|].
  set (m := fold_left Qmax r x).
  set (ws := map (fun v => expw (v - m)) (x :: r)).
  destruct (fold_max_spec r x) as [Hall (a & va & Ha & Hva)]. fold m in Hall, Hva.
  assert (Hnn : Forall (fun w => 0 <= w) ws)
    by (apply Forall_map_nonneg; intros y; apply expw_nonneg).
  assert (Hwa : ws !! a = Some (expw (va - m)))
    by (apply (map_at (fun v => expw (v - m))); exact Ha).
  assert (Hpa : 0 < expw (va - m)) by (apply expw_pos_0; lra).
  pose proof (total_pos ws a _ Hnn Hwa Hpa) as Htot.
  assert (Hlo : 0 <= u * total ws) by (apply Qmult_le_0_compat; lra).
  assert (Hhi : u * total ws < 0 + total ws).
  { assert (u * total ws < 1 * total ws)
      by (apply Qmult_lt_compat_r; assumption).
    lra. }
  destruct (cdf_search_positive ws (u * total ws) 0 0%nat Hlo Hhi)
    as (k & w & Hk & Hw & Hpos).
  rewrite Hk. exists k. split; [reflexivity|].
  apply map_at_inv in Hw as (vk & Hvk & ->).
  rewrite <- Em in Hvk.
  apply (above_floor_allowed logits mask k vk Hvk).
  pose proof (Forall_lookup_1 _ _ _ _ Hall Hj) as Hle. cbn in Hle.
  destruct (Qlt_le_dec (- gap) (vk - m)) as [Hgt|Hle']; [lra|].
  apply expw_underflow in Hle'. lra.
Qed.

Lemma choose_allowed (gap : Q) `{!TorchFloatLaws T gap} (deterministic : bool)
    (logits : list Q) (mask : list Z) (u : Q) :
  0 < gap -> has_allowed gap logits mask -> 0 <= u -> u < 1 ->
  exists k, choose deterministic (masked_logits logits mask) u = Ok k
            /\ (0 < mask_at mask k)%Z.
Proof.
  intros Hgap Hal Hu0 Hu1. unfold choose. destruct deterministic.
  - apply (argmax_allowed gap); assumption.
  - apply (sample_allowed gap); assumption.
Qed.

Lemma binary_mask_one (mask : list Z) (k : nat) :
  Forall (fun m => m = 0 \/ m = 1)%Z mask -> (0 < mask_at mask k)%Z ->
  mask_at mask k = 1%Z.
Proof.
  unfold mask_at. rewrite nth_lookup. intros Hb Hpos.
  destruct (mask !! k) as [m|] eqn:E; cbn in *; [|lia].
  pose proof (Forall_lookup_1 _ _ _ _ Hb E) as Hm. cbn in Hm. lia.
Qed.

Lemma all_zero_mask_at (mask : list Z) (k : nat) :
  Forall (fun m => m = 0%Z) mask -> mask_at mask k = 0%Z.
Proof.
  unfold mask_at. rewrite nth_lookup. intros Hz.
  destruct (mask !! k) as [m|] eqn:E; cbn; [|reflexivity].
  exact (Forall_lookup_1 _ _ _ _ Hz E).
Qed.

Lemma masked_nonempty (logits : list Q) (mask : list Z) :
  logits <> [] -> mask <> [] -> masked_logits logits mask <> [].
Proof. destruct logits, mask; cbn; congruence. Qed.

Lemma masked_length_le (logits : list Q) (mask : list Z) :
  (length (masked_logits logits mask) <= length logits)%nat.
Proof. unfold masked_logits. rewrite length_zip_with. lia. Qed.

(** The arg-max of a non-empty list is one of its places. *)
Lemma argmax_in_range (l : list Q) :
  l <> [] -> exists k, argmax l = Ok k /\ (k < length l)%nat.
Proof.
  intros Hne. destruct (argmax_max l Hne) as (k & v & Hk & Hv & _).
  exists k. split; [exact Hk|]. exact (lookup_lt_Some _ _ _ Hv).
Qed.

(** A draw from a non-empty list returns one of its places: the weight
    of a largest logit is [exp 0], so the total weight is positive. *)
Lemma sample_in_range (gap : Q) `{!TorchFloatLaws T gap} (l : list Q) (u : Q) :
  l <> [] -> 0 <= u -> u < 1 ->
  exists k, categorical_sample l u = Ok k /\ (k < length l)%nat.
Proof.
  intros Hne Hu0 Hu1. unfold categorical_sample, weights.
  destruct l as [|x r]; [congruence|].
  set (m := fold_left Qmax r x).
  set (ws := map (fun v => expw (v - m)) (x :: r)).
  destruct (fold_max_spec r x) as [_ (a & va & Ha & Hva)]. fold m in Hva.
  assert (Hnn : Forall (fun w => 0 <= w) ws)
    by (apply Forall_map_nonneg; intros y; apply expw_nonneg).
  assert (Hwa : ws !! a = Some (expw (va - m)))
    by (apply (map_at (fun v => expw (v - m))); exact Ha).
  assert (Hpa : 0 < expw (va - m)) by (apply expw_pos_0; lra).
  pose proof (total_pos ws a _ Hnn Hwa Hpa) as Htot.
  assert (Hlo : 0 <= u * total ws) by (apply Qmult_le_0_compat; lra).
  assert (Hhi : u * total ws < 0 + total ws).
  { assert (u * total ws < 1 * total ws)
      by (apply Qmult_lt_compat_r; assumption).
    lra. }
  destruct (cdf_search_positive ws (u * total ws) 0 0%nat Hlo Hhi)
    as (k & w & Hk & Hw & _).
  rewrite Hk. exists k. split; [reflexivity|].
  apply lookup_lt_Some in Hw. unfold ws in Hw. rewrite length_map in Hw. exact Hw.
Qed.

Lemma choose_in_range (gap : Q) `{!TorchFloatLaws T gap} (deterministic : bool)
    (l : list Q) (u : Q) :
  l <> [] -> 0 <= u -> u < 1 ->
  exists k, choose deterministic l u = Ok k /\ (k < length l)%nat.
Proof.
  intros Hne Hu0 Hu1. unfold choose. destruct deterministic.
  - apply argmax_in_range. exact Hne.
  - apply (sample_in_range gap); assumption.
Qed.

(** C1, amended, head by head.  When every head has at least one logit
    and one mask entry, [sample_action] returns an index for every
    head, in arg-max mode and in sampling mode alike.  For each head
    whose mask allows an index with a logit at least the underflow gap
    above the most negative value, the index returned is allowed by the
    mask (its mask value is positive, so 1 for a 0/1 mask), whatever
    the masks of the other heads are.  For each head whose mask is all
    zeros the index returned is a place of that head all the same, and
    its mask value is 0.  Nothing is rejected or redrawn: masked-out
    entries carry [large_negative], which the arg-max never prefers to
    an allowed entry and whose softmax weight is zero beside one. *)
Theorem C1_sampler_respects_mask (gap : Q) {Laws : TorchFloatLaws T gap}
    (outputs : ForwardOutput) (masks : Masks) (deterministic : bool)
    (noise : Noise) :
  0 < gap ->
  (forall h, logits_of outputs h <> [] /\ mask_of masks h <> []) ->
  (forall h, 0 <= noise_of noise h /\ noise_of noise h < 1) ->
  exists s, sample_action outputs masks deterministic noise = Ok s
    /\ forall h,
         (has_allowed gap (logits_of outputs h) (mask_of masks h) ->
          (0 < mask_at (mask_of masks h) (index_of s h))%Z
          /\ (Forall (fun m => m = 0 \/ m = 1)%Z (mask_of masks h) ->
              mask_at (mask_of masks h) (index_of s h) = 1%Z))
         /\ (Forall (fun m => m = 0%Z) (mask_of masks h) ->
             (index_of s h < length (logits_of outputs h))%nat
             /\ mask_at (mask_of masks h) (index_of s h) = 0%Z).
Proof.
  intros Hgap Hne Hu.
  assert (Hc : forall h, exists k,
             choose deterministic
                    (masked_logits (logits_of outputs h) (mask_of masks h))
                    (noise_of noise h) = Ok k
             /\ (k < length (logits_of outputs h))%nat
             /\ (has_allowed gap (logits_of outputs h) (mask_of masks h) ->
                 (0 < mask_at (mask_of masks h) k)%Z)).
  { intros h. destruct (Hu h) as [Hu0 Hu1]. destruct (Hne h) as [Hl Hm].
    destruct (choose_in_range gap deterministic _ (noise_of noise h)
                (masked_nonempty _ _ Hl Hm) Hu0 Hu1) as (k & Hk & Hlt).
    exists k. split; [exact Hk|]. split.
    - pose proof (masked_length_le (logits_of outputs h) (mask_of masks h)). lia.
    - intros Hal.
      destruct (choose_allowed gap deterministic _ _ (noise_of noise h)
                  Hgap Hal Hu0 Hu1) as (k' & Hk' & Hpos).
      rewrite Hk in Hk'. inversion Hk'; subst k'. exact Hpos. }
  destruct (Hc HAction) as (ka & Ea & Ha).
  destruct (Hc HUnit) as (ku & Eu & Hku).
  destruct (Hc HTurret) as (kt & Et & Hkt).
  destruct (Hc HBuySlot) as (kb & Eb & Hkb).
  destruct (Hc HSellSlot) as (ks & Es & Hks).
  cbn [logits_of mask_of noise_of] in Ea, Eu, Et, Eb, Es.
  unfold sample_action, sample_head.
  rewrite Ea, Eu, Et, Eb, Es. cbn [rbind fst snd].
  eexists. split; [reflexivity|].
  intros h.
  match goal with |- context [index_of ?r h] => set (s0 := r) end.
  assert (Hh : (index_of s0 h < length (logits_of outputs h))%nat
               /\ (has_allowed gap (logits_of outputs h) (mask_of masks h) ->
                   (0 < mask_at (mask_of masks h) (index_of s0 h))%Z)).
  { unfold s0.
    destruct h; cbn [index_of s_action s_unit s_turret s_buy_slot s_sell_slot];
      first [exact Ha | exact Hku | exact Hkt | exact Hkb | exact Hks]. }
  destruct Hh as [Hrange Hallowed].
  split.
  - intros Hal. pose proof (Hallowed Hal) as Hpos. split; [exact Hpos|].
    intros Hb. apply binary_mask_one; [exact Hb | exact Hpos].
  - intros Hz. split; [exact Hrange|]. apply all_zero_mask_at. exact Hz.
Qed.

End SamplerHeads.

Section SamplerClaims.
Import Numeric Model ModelExample.
Local Open Scope Q_scope.

Lemma torch32_laws : TorchFloatLaws torch32 150.
Proof.
  split; cbn [expw torch32]; unfold expw32.
  - intros x. destruct (Qleb x (- (150 # 1))); [apply Qle_refl|].
    apply Qpower_0_le. discriminate.
  - intros x Hx. destruct (Qleb x (- (150 # 1))) eqn:E.
    + apply Qleb_le in E. lra.
    + apply Qpower_0_lt. reflexivity.
  - intros x Hx. apply Qleb_le in Hx. rewrite Hx. reflexivity.
Qed.

Lemma example_heads_allowed (h : Head) :
  has_allowed (H := torch32) 150 (logits_of outputs h) (mask_of masks h).
Proof.
  destruct h; cbn [logits_of mask_of outputs masks action_logits unit_logits
                   turret_logits buy_slot_logits sell_slot_logits m_action_type
                   m_unit m_turret m_buy_slot m_sell_slot].
  - exists 0%nat, 3, 1%Z. repeat split; discriminate.
  - exists 0%nat, 1, 1%Z. repeat split; discriminate.
  - exists 0%nat, 0, 1%Z. repeat split; discriminate.
  - exists 0%nat, 2, 1%Z. repeat split; discriminate.
  - exists 1%nat, 1, 1%Z. repeat split; discriminate.
Qed.

Lemma example_heads_nonempty (h : Head) :
  logits_of outputs h <> [] /\ mask_of masks h <> [].
Proof. destruct h; split; cbn; discriminate. Qed.

Lemma example_noise_unit (h : Head) :
  0 <= noise_of noise h /\ noise_of noise h < 1.
Proof. destruct h; split; cbn; first [discriminate | reflexivity]. Qed.

(** What the sampler returns on the example: the arg-max skips the
    masked-out indices that hold the largest logits. *)
Example sample_action_argmax :
  match sample_action (H := torch32) outputs masks true noise with
  | Ok s => (s_action s, s_unit s, s_turret s, s_buy_slot s, s_sell_slot s)
            = (2, 2, 0, 3, 3)%nat
  | Raise _ => False
  end.
Proof. vm_compute. reflexivity. Qed.

Lemma env_heads_nonempty (h : Head) :
  logits_of flat_outputs h <> [] /\ mask_of env_masks h <> [].
Proof. destruct h; split; cbn; discriminate. Qed.

Lemma env_heads_allowed (h : Head) :
  h <> HSellSlot ->
  has_allowed (H := torch32) 150 (logits_of flat_outputs h) (mask_of env_masks h)
  /\ Forall (fun m => m = 0 \/ m = 1)%Z (mask_of env_masks h).
Proof.
  intros Hh. split.
  - exists 0%nat, 0, 1%Z.
    destruct h; try congruence;
      (split; [reflexivity|]; split; [reflexivity|]; split; [lia|];
       vm_compute; discriminate).
  - destruct h; try congruence; vm_compute; repeat (constructor; try lia).
Qed.

Lemma C1_sampler_respects_mask_witness :
  (exists s, sample_action (H := torch32) flat_outputs env_masks true noise = Ok s
     /\ (forall h, h <> HSellSlot ->
          mask_at (mask_of env_masks h) (index_of s h) = 1%Z)
     /\ (index_of s HSellSlot < length (sell_slot_logits flat_outputs))%nat
     /\ mask_at (mask_of env_masks HSellSlot) (index_of s HSellSlot) = 0%Z)
  /\ (exists s, sample_action (H := torch32) flat_outputs env_masks false noise = Ok s
        /\ (forall h, h <> HSellSlot ->
             mask_at (mask_of env_masks h) (index_of s h) = 1%Z)
        /\ (index_of s HSellSlot < length (sell_slot_logits flat_outputs))%nat
        /\ mask_at (mask_of env_masks HSellSlot) (index_of s HSellSlot) = 0%Z)
  /\ (exists s, sample_action (H := torch32) outputs masks true noise = Ok s
        /\ forall h, (0 < mask_at (mask_of masks h) (index_of s h))%Z).
Proof.
  assert (Henv : forall deterministic,
             exists s, sample_action (H := torch32) flat_outputs env_masks
                                     deterministic noise = Ok s
               /\ (forall h, h <> HSellSlot ->
                    mask_at (mask_of env_masks h) (index_of s h) = 1%Z)
               /\ (index_of s HSellSlot < length (sell_slot_logits flat_outputs))%nat
               /\ mask_at (mask_of env_masks HSellSlot) (index_of s HSellSlot) = 0%Z).
  { intros deterministic.
    destruct (C1_sampler_respects_mask (T := torch32) 150 (Laws := torch32_laws)
                flat_outputs env_masks deterministic noise eq_refl
                env_heads_nonempty example_noise_unit) as (s & Hs & Hm).
    exists s. split; [exact Hs|]. split.
    - intros h Hh. destruct (env_heads_allowed h Hh) as [Hal Hbin].
      destruct (Hm h) as [Hopen _]. destruct (Hopen Hal) as [_ Hone].
      exact (Hone Hbin).
    - destruct (Hm HSellSlot) as [_ Hclosed].
      apply Hclosed. cbn. repeat constructor. }
  split; [exact (Henv true)|]. split; [exact (Henv false)|].
  destruct (C1_sampler_respects_mask (T := torch32) 150 (Laws := torch32_laws)
              outputs masks true noise eq_refl
              example_heads_nonempty example_noise_unit) as (s & Hs & Hm).
  exists s. split; [exact Hs|].
  intros h. destruct (Hm h) as [Hopen _].
  apply Hopen. apply example_heads_allowed.
Defined.

(** The mock environment's first observation carries [env_masks]. *)
Example reset_emits_env_masks :
  match snd (Env.reset Env.new_env 1337) with
  | Ok obs => Trainer.obs_masks obs = env_masks
  | Raise _ => False
  end.
Proof. vm_compute. reflexivity. Qed.

(** On those masks both modes return sell-slot indices whose mask value
    is 0. *)
Example sample_action_on_env_masks :
  match sample_action (H := torch32) flat_outputs env_masks true noise,
        sample_action (H := torch32) flat_outputs env_masks false noise
  with
  | Ok s1, Ok s2 =>
      index_of s1 HSellSlot = 0%nat
      /\ mask_at (mask_of env_masks HSellSlot) (index_of s1 HSellSlot) = 0%Z
      /\ index_of s2 HSellSlot = 1%nat
      /\ mask_at (mask_of env_masks HSellSlot) (index_of s2 HSellSlot) = 0%Z
  | _, _ => False
  end.
Proof. vm_compute. repeat split. Qed.

(** C1 as stated fails on the masks the mock environment itself emits:
    its sell-slot mask is all zeros, every masked logit of that head is
    [large_negative], and the arg-max returns index 0, whose mask value
    is 0. *)
Lemma C1_all_zero_mask_selects_masked_index :
  ~ (forall (outputs : ForwardOutput) (masks : Masks) (deterministic : bool)
            (noise : Noise) (s : Sampled) (h : Head),
       sample_action (H := torch32) outputs masks deterministic noise = Ok s ->
       mask_at (mask_of masks h) (index_of s h) = 1%Z).
Proof.
  intros H.
  destruct (sample_action (H := torch32) flat_outputs env_masks true noise)
    as [s|e] eqn:E.
  - specialize (H _ _ _ _ _ HSellSlot E).
    vm_compute in E. inversion E; subst s. vm_compute in H. discriminate H.
  - vm_compute in E. discriminate E.
Qed.

End SamplerClaims.

(** * Further properties of the code *)

(** ** The mock environment: state ranges *)

Section EnvStateFacts.
Import Numeric Config Env EnvRun.
Local Open Scope Q_scope.

Lemma max0_nonneg (x : Q) : 0 <= Qmax 0 x.
Proof. apply Q.le_max_l. Qed.

Lemma max0_sub_le (h d : Q) : 0 <= h -> 0 <= d -> Qmax 0 (h - d) <= h.
Proof. intros Hh Hd. apply Q.max_lub; lra. Qed.

(** [apply_action] keeps the ranges, and returns a penalty of 0 or
    -0.2. *)
Lemma apply_action_valid (s : MockEnvState) (a : Action) :
  valid_state s ->
  valid_state (fst (apply_action s a))
  /\ (snd (apply_action s a) == 0 \/ snd (apply_action s a) == - (2 # 10)).
Proof.
  intros Hv.
  assert (Hsame : valid_state (fst (s, 0 - (2 # 10)))
                  /\ (snd (s, 0 - (2 # 10)) == 0
                      \/ snd (s, 0 - (2 # 10)) == - (2 # 10)))
    by (split; [exact Hv | right; reflexivity]).
  assert (Hnoop : valid_state (fst (s, 0)) /\ (snd (s, 0) == 0 \/ snd (s, 0) == - (2 # 10)))
    by (split; [exact Hv | left; reflexivity]).
  destruct Hv as (Ht & Hg & Hh0 & Hh1 & Ho0 & Ho1 & Hu & Hou & Hgold & Hmana & Hage & Hlvl).
  unfold apply_action. destruct (action_type a); try exact Hnoop.
  - destruct (Qleb 25 (own_gold s)) eqn:E; [|exact Hsame].
    apply Qleb_le in E. split; [|left; reflexivity].
    unfold valid_state; cbn. repeat split; try assumption; try lia; lra.
  - destruct ((own_age s <? 6)%Z && Qleb (inject_Z (350 + own_age s * 180)) (own_gold s))
      eqn:E; [|exact Hsame].
    apply andb_true_iff in E as [Ea Ec]. apply Z.ltb_lt in Ea. apply Qleb_le in Ec.
    split; [|left; reflexivity].
    unfold valid_state; cbn. repeat split; try assumption; try lia; lra.
  - destruct (Qleb (inject_Z (120 + own_mana_level s * 80)) (own_gold s)) eqn:E;
      [|exact Hsame].
    apply Qleb_le in E. split; [|left; reflexivity].
    unfold valid_state; cbn. repeat split; try assumption; try lia; lra.
  - destruct (Qleb 120 (own_mana s)) eqn:E; [|exact Hsame].
    apply Qleb_le in E. split; [|left; reflexivity].
    unfold valid_state; cbn. repeat split; try assumption; try lia; try lra.
    + apply Q.min_glb; lra.
    + apply Q.le_min_l.
Qed.

Section WithRuntime.
Context `{R : Runtime}.

(** The opponent's move touches [opp_units] only. *)
Lemma opponent_valid (g : Generator) (s : MockEnvState) :
  valid_state s ->
  valid_state (set_opp_units (snd (simulate_opponent_policy g s)) 0).
Proof.
  intros Hv. unfold simulate_opponent_policy.
  destruct (uniform 0 (6 # 10) g) as [x g'].
  destruct Hv as (Ht & Hg & Hh0 & Hh1 & Ho0 & Ho1 & Hu & Hou & Hgold & Hmana & Hage & Hlvl).
  cbn [set_opp_units st_tick].
  destruct (_ =? 0)%Z; unfold valid_state; cbn;
    repeat split; try assumption; try lia; lra.
Qed.

(** The battle leaves units and base hit points in range, whatever the
    opponent's unit count was. *)
Lemma battle_valid (s : MockEnvState) :
  valid_state (set_opp_units s 0) ->
  valid_state (fst (fst (simulate_battle s)))
  /\ 0 <= snd (fst (simulate_battle s))
  /\ 0 <= snd (simulate_battle s).
Proof.
  intros (Ht & Hg & Hh0 & Hh1 & Ho0 & Ho1 & Hu & Hou & Hgold & Hmana & Hage & Hlvl).
  cbn in Ht, Hg, Hh0, Hh1, Ho0, Ho1, Hu, Hgold, Hmana, Hage, Hlvl.
  unfold simulate_battle. cbn.
  set (clash := Qmin (own_units s) (opp_units s)).
  set (own' := Qmax 0 (own_units s - clash * (55 # 100))).
  set (opp' := Qmax 0 (opp_units s - clash * (6 # 10))).
  set (to_opp := Qmax 0 (own' * (14 # 10) - opp' * (4 # 10))).
  set (to_self := Qmax 0 (opp' * (12 # 10) - own' * (35 # 100))).
  assert (H1 : 0 <= to_opp) by apply max0_nonneg.
  assert (H2 : 0 <= to_self) by apply max0_nonneg.
  split; [|split; assumption].
  unfold valid_state; cbn. repeat split; try assumption; try lia;
    try apply max0_nonneg.
  - eapply Qle_trans; [apply max0_sub_le; assumption | assumption].
  - eapply Qle_trans; [apply max0_sub_le; assumption | assumption].
Qed.

Lemma step_valid (e : MockSelfPlayEnv) (a : Action) :
  valid_state (state e) -> valid_state (state (fst (step e a))).
Proof.
  intros Hv. unfold step.
  destruct (copy_via_dict (state e)) as [prev|err]; [|exact Hv].
  destruct (apply_action_valid (state e) a Hv) as [Hv1 _].
  destruct (apply_action (state e) a) as [s1 pen]. cbn [fst] in Hv1.
  pose proof (opponent_valid (rng e) s1 Hv1) as Hv2.
  destruct (simulate_opponent_policy (rng e) s1) as [g s2]. cbn [snd] in Hv2.
  destruct (battle_valid s2 Hv2) as (Hv3 & _ & _).
  destruct (simulate_battle s2) as [[s3 to_opp] to_self]. cbn [fst snd] in *.
  destruct Hv3 as (Ht & Hg & Hh0 & Hh1 & Ho0 & Ho1 & Hu & Hou & Hgold & Hmana & Hage & Hlvl).
  unfold valid_state; cbn. repeat split; try assumption; try lia.
  - assert (0 <= inject_Z (own_age s3)) by (change 0 with (inject_Z 0);
      rewrite <- Zle_Qle; lia).
    lra.
  - assert (0 <= inject_Z (own_mana_level s3)) by (change 0 with (inject_Z 0);
      rewrite <- Zle_Qle; lia).
    lra.
Qed.

Lemma reset_valid (env : MockSelfPlayEnv) (seed : Z) :
  valid_state (state (fst (reset env seed))).
Proof.
  unfold valid_state; cbn. repeat split; try lia; try discriminate; reflexivity.
Qed.

(** X1: [reset] puts the environment in range and [step] keeps it
    there: after any sequence of calls the tick is non-negative, the game
    time is half the tick, both base hit points are in [[0, 1000]], unit
    counts, gold and mana are non-negative, the age is between 1 and 6
    and the mana level is non-negative. *)
Theorem env_state_stays_in_range (env : MockSelfPlayEnv) (seed : Z)
    (actions : list Action) :
  valid_state (state (after_steps (fst (reset env seed)) actions)).
Proof.
  unfold after_steps.
  pose proof (reset_valid env seed) as H0.
  revert H0. generalize (fst (reset env seed)).
  induction actions as [|a r IH]; intros e He; cbn [fold_left]; [exact He|].
  apply IH, step_valid, He.
Qed.

End WithRuntime.

End EnvStateFacts.

(** ** The mock environment: observations *)

Section ObservationFacts.
Import Numeric Config Env EnvRun.
Local Open Scope Q_scope.

Lemma clip_bounds (x lo hi : Q) : lo <= hi -> lo <= clip x lo hi /\ clip x lo hi <= hi.
Proof.
  intros H. unfold clip. split.
  - apply Q.min_glb; [apply Q.le_max_r | exact H].
  - apply Q.le_min_r.
Qed.

Lemma clip_unit (x : Q) : -1 <= clip x 0 1 /\ clip x 0 1 <= 1.
Proof.
  destruct (clip_bounds x 0 1) as [H0 H1]; [discriminate|]. split; lra.
Qed.

Lemma clip_signed (x : Q) : -1 <= clip x (-1) 1 /\ clip x (-1) 1 <= 1.
Proof. apply clip_bounds. discriminate. Qed.

Lemma set_items_step (a : list Q) (iv : nat * Q) (r : list (nat * Q)) :
  set_items a (iv :: r)
  = match set_item a (fst iv) (snd iv) with
    | Ok a' => set_items a' r
    | Raise e => Raise e
    end.
Proof.
  unfold set_items. cbn [fold_left rbind].
  destruct (set_item a (fst iv) (snd iv)) as [a'|e]; [reflexivity|].
  induction r as [|x r IH]; [reflexivity | exact IH].
Qed.

(** Item assignments that succeed keep the length, and every entry is
    an old one or an assigned one. *)
Lemma set_items_inv (P : Q -> Prop) (items : list (nat * Q)) :
  forall a a', set_items a items = Ok a' ->
    Forall P a -> Forall (fun iv => P (snd iv)) items ->
    length a' = length a /\ Forall P a'.
Proof.
  induction items as [|iv r IH]; intros a a' H Ha Hi.
  - cbn in H. inversion H; subst. auto.
  - rewrite set_items_step in H. unfold set_item in H.
    destruct (fst iv <? length a)%nat; [|discriminate].
    inversion Hi as [|? ? Hv Hr]; subst.
    destruct (IH _ _ H) as [Hl Hp]; [apply Forall_insert; assumption | exact Hr |].
    rewrite length_insert in Hl. auto.
Qed.

Lemma set_items_ok (items : list (nat * Q)) :
  forall a, Forall (fun iv => (fst iv < length a)%nat) items ->
    exists a', set_items a items = Ok a'.
Proof.
  induction items as [|iv r IH]; intros a Hi.
  - exists a. reflexivity.
  - rewrite set_items_step. unfold set_item.
    inversion Hi as [|? ? Hv Hr]; subst.
    apply Nat.ltb_lt in Hv. rewrite Hv.
    apply IH. eapply Forall_impl; [exact Hr|].
    intros x Hx. cbn in Hx. rewrite length_insert. exact Hx.
Qed.

Lemma set_items_raise (items : list (nat * Q)) :
  forall a, Exists (fun iv => (length a <= fst iv)%nat) items ->
    set_items a items = Raise IndexError.
Proof.
  induction items as [|iv r IH]; intros a Hi; [inversion Hi|].
  rewrite set_items_step. unfold set_item.
  destruct (fst iv <? length a)%nat eqn:E; [|reflexivity].
  apply Nat.ltb_lt in E.
  inversion Hi as [? ? Hv|? ? Hr]; subst; [lia|].
  apply IH. eapply Exists_impl; [exact Hr|].
  intros x Hx. cbn in Hx. rewrite length_insert. exact Hx.
Qed.

Section WithRuntime.
Context `{R : Runtime}.

Lemma build_observation_ok (env : MockSelfPlayEnv) :
  sizes_ok (model_cfg env) -> exists obs, build_observation env = Ok obs.
Proof.
  unfold build_observation, set_last_row.
  intros (Hs & Hl & Ht).
  match goal with
  | |- context [set_items (repeat 0 (static_dim _)) ?items] =>
      destruct (set_items_ok items (repeat 0 (static_dim (model_cfg env))))
        as [static Es]
  end.
  { rewrite repeat_length. repeat constructor; cbn; lia. }
  rewrite Es. cbn [rbind].
  rewrite repeat_length.
  destruct (sequence_len (model_cfg env)) as [|k] eqn:Ek; [lia|].
  rewrite <- Ek.
  match goal with
  | |- context [set_items ?row ?items] =>
      destruct (set_items_ok items row) as [last El]
  end.
  { rewrite nth_repeat_lt by lia. rewrite repeat_length.
    repeat constructor; cbn; lia. }
  rewrite El. cbn [rbind]. eexists. reflexivity.
Qed.

(** X2: [_build_observation] raises IndexError exactly when the model
    sizes are too small for the slots it writes: fewer than 12 static
    features, no event row, or fewer than 8 token columns; with larger
    sizes it returns an observation. *)
Theorem build_observation_needs_sizes (env : MockSelfPlayEnv) :
  ((12 <= static_dim (model_cfg env))%nat
   /\ (1 <= sequence_len (model_cfg env))%nat
   /\ (8 <= token_dim (model_cfg env))%nat ->
   exists obs, build_observation env = Ok obs)
  /\ ((static_dim (model_cfg env) < 12)%nat
      \/ sequence_len (model_cfg env) = 0%nat
      \/ (token_dim (model_cfg env) < 8)%nat ->
      build_observation env = Raise IndexError).
Proof.
  split; [exact (build_observation_ok env)|].
  unfold build_observation, set_last_row.
  - intros Hbad.
    match goal with
    | |- context [set_items (repeat 0 (static_dim _)) ?items] =>
        destruct (set_items (repeat 0 (static_dim (model_cfg env))) items)
          as [static|e] eqn:Es
    end.
    + cbn [rbind]. rewrite repeat_length.
      destruct Hbad as [Hs|[Hl|Ht]].
      * exfalso. rewrite set_items_raise in Es; [discriminate|].
        rewrite repeat_length. do 11 apply Exists_cons_tl.
        apply Exists_cons_hd. cbn. lia.
      * rewrite Hl. reflexivity.
      * destruct (sequence_len (model_cfg env)) as [|k] eqn:Ek; [reflexivity|].
        rewrite <- Ek. rewrite set_items_raise; [reflexivity|].
        rewrite nth_repeat_lt by lia. rewrite repeat_length.
        do 4 apply Exists_cons_tl.
        apply Exists_cons_hd. cbn. lia.
    + cbn [rbind].
      revert Es.
      match goal with
      | |- set_items ?a ?items = _ -> _ =>
          destruct (Nat.lt_ge_cases 11 (length a)) as [Hin|Hout]
      end.
      * intros Es. exfalso.
        match type of Es with
        | set_items ?a ?items = _ => destruct (set_items_ok items a) as [x Hx]
        end.
        { repeat constructor; cbn; lia. }
        rewrite Hx in Es. discriminate.
      * intros Es. rewrite set_items_raise in Es; [congruence|].
        do 11 apply Exists_cons_tl. apply Exists_cons_hd. cbn. lia.
Qed.

Lemma Forall_repeat_intro {A} (P : A -> Prop) (x : A) (n : nat) :
  P x -> Forall P (repeat x n).
Proof. intros Hx. induction n; cbn; constructor; assumption. Qed.

(** X3: an observation has the sizes of the model options and
    normalised contents: [static_dim] static features and
    [sequence_len] event rows of [token_dim] tokens, all within
    [[-1, 1]]; the unit, turret and slot masks have the configured
    sizes, while the action-type mask always has the eight entries of
    [ACTIONS], whatever [action_dim] is. *)
Theorem observation_well_formed (env : MockSelfPlayEnv) (obs : Observation) :
  build_observation env = Ok obs ->
  length (static_state obs) = static_dim (model_cfg env)
  /\ Forall (fun x => -1 <= x /\ x <= 1) (static_state obs)
  /\ length (event_sequence obs) = sequence_len (model_cfg env)
  /\ Forall (fun row => length row = token_dim (model_cfg env)
                        /\ Forall (fun x => -1 <= x /\ x <= 1) row)
            (event_sequence obs)
  /\ length (action_type_mask obs) = length ACTIONS
  /\ length (unit_mask obs) = unit_dim (model_cfg env)
  /\ length (turret_mask obs) = turret_dim (model_cfg env)
  /\ length (buy_slot_mask obs) = slot_dim (model_cfg env)
  /\ length (sell_slot_mask obs) = slot_dim (model_cfg env)
  /\ tick obs = st_tick (state env)
  /\ game_time obs = st_game_time (state env).
Proof.
  unfold build_observation.
  destruct (set_items (repeat 0 (static_dim (model_cfg env))) _) as [static|e] eqn:Es;
    cbn [rbind]; [|discriminate].
  destruct (set_last_row _ _) as [sequence|e] eqn:El; cbn [rbind]; [|discriminate].
  intros H. inversion H; subst; clear H. cbn.
  apply (set_items_inv (fun x => -1 <= x /\ x <= 1)) in Es as [Hsl Hsp].
  2: { apply Forall_repeat_intro. split; discriminate. }
  2: { repeat constructor; cbn [snd];
         first [apply clip_unit | apply clip_signed]. }
  rewrite repeat_length in Hsl.
  unfold set_last_row in El. rewrite repeat_length in El.
  destruct (sequence_len (model_cfg env)) as [|k] eqn:Ek; [discriminate|].
  rewrite <- Ek in El.
  destruct (set_items _ _) as [last|e] eqn:Er in El; cbn [rbind] in El; [|discriminate].
  inversion El; subst; clear El.
  apply (set_items_inv (fun x => -1 <= x /\ x <= 1)) in Er as [Hrl Hrp].
  2: { rewrite nth_repeat_lt by lia. apply Forall_repeat_intro. split; discriminate. }
  2: { repeat constructor; cbn [snd];
         try apply clip_unit; try apply clip_signed; discriminate. }
  rewrite nth_repeat_lt, repeat_length in Hrl by lia.
  rewrite length_insert, !repeat_length.
  repeat split; try assumption; try reflexivity.
  apply Forall_insert; [|split; assumption].
  apply Forall_repeat_intro. rewrite repeat_length. split; [reflexivity|].
  apply Forall_repeat_intro. split; discriminate.
Qed.

End WithRuntime.

End ObservationFacts.

(** ** The mock environment: the tick of a step, the action mask *)

Section StepFacts.
Import Numeric Config Env EnvRun.
Local Open Scope Q_scope.
Context `{R : Runtime}.

Lemma apply_action_tick (s : MockEnvState) (a : Action) :
  st_tick (fst (apply_action s a)) = st_tick s.
Proof.
  unfold apply_action.
  destruct (action_type a); try reflexivity;
    match goal with |- context [if ?c then _ else _] => destruct c end;
    reflexivity.
Qed.

Lemma opponent_tick (g : Generator) (s : MockEnvState) :
  st_tick (snd (simulate_opponent_policy g s)) = st_tick s.
Proof.
  unfold simulate_opponent_policy. destruct (uniform 0 (6 # 10) g) as [x g'].
  cbn [set_opp_units st_tick]. destruct (_ =? 0)%Z; reflexivity.
Qed.

Lemma battle_tick (s : MockEnvState) :
  st_tick (fst (fst (simulate_battle s))) = st_tick s.
Proof. reflexivity. Qed.

(** A step whose copy succeeds advances the tick by one; one whose copy
    raises leaves the environment as it was. *)
Lemma step_tick (env : MockSelfPlayEnv) (a : Action) :
  match copy_via_dict (state env) with
  | Ok _ => st_tick (state (fst (step env a))) = (st_tick (state env) + 1)%Z
  | Raise e => step env a = (env, Raise e)
  end.
Proof.
  unfold step. destruct (copy_via_dict (state env)) as [prev|e]; [|reflexivity].
  pose proof (apply_action_tick (state env) a) as H1.
  destruct (apply_action (state env) a) as [s1 pen]. cbn [fst] in H1.
  pose proof (opponent_tick (rng env) s1) as H2.
  destruct (simulate_opponent_policy (rng env) s1) as [g s2]. cbn [snd] in H2.
  pose proof (battle_tick s2) as H3.
  destruct (simulate_battle s2) as [[s3 to_opp] to_self]. cbn [fst] in H3.
  cbn [fst state st_tick set_tick set_game_time set_own_gold set_own_mana].
  congruence.
Qed.

Lemma step_done (env : MockSelfPlayEnv) (a : Action) (out : StepOut) :
  snd (step env a) = Ok out ->
  (max_ticks env <= st_tick (state (fst (step env a))))%Z ->
  out_done out = true.
Proof.
  unfold step. destruct (copy_via_dict (state env)) as [prev|e]; [|discriminate].
  destruct (apply_action (state env) a) as [s1 pen].
  destruct (simulate_opponent_policy (rng env) s1) as [g s2].
  destruct (simulate_battle s2) as [[s3 to_opp] to_self].
  cbn [fst snd state]. destruct (build_observation _) as [obs|e]; cbn [rbind];
    [|discriminate].
  intros H Hle. inversion H; subst; clear H. cbn [out_done].
  apply Z.leb_le in Hle. cbn [st_tick set_tick set_game_time set_own_gold set_own_mana] in *.
  rewrite Hle. apply orb_true_r.
Qed.

Lemma build_observation_action_mask (env : MockSelfPlayEnv) (obs : Observation) :
  build_observation env = Ok obs ->
  action_type_mask obs
  = [1; 1; flag (own_age (state env) <? 6)%Z; 1; 1; 1; 0;
     flag (Qleb 120 (own_mana (state env)))]%Z.
Proof.
  unfold build_observation.
  destruct (set_items _ _) as [static|e]; cbn [rbind]; [|discriminate].
  destruct (set_last_row _ _) as [sequence|e]; cbn [rbind]; [|discriminate].
  intros H. inversion H; subst. reflexivity.
Qed.

End StepFacts.

(** ** The league pool: deposits, promotions and opponents *)

Section LeagueMore.
Import Numeric League Opponent.
Local Open Scope Q_scope.

Lemma insert_desc_perm (x : LeagueEntry) (l : list LeagueEntry) :
  Permutation (insert_desc x l) (x :: l).
Proof.
  induction l as [|y r IH]; cbn [insert_desc]; [reflexivity|].
  destruct (key_ltb x y); [|reflexivity].
  rewrite IH. apply perm_swap.
Qed.

Lemma sort_desc_perm (l : list LeagueEntry) : Permutation (sort_desc l) l.
Proof.
  induction l as [|x l IH]; [reflexivity|].
  cbn [sort_desc fold_right]. fold (sort_desc l).
  rewrite insert_desc_perm, IH. reflexivity.
Qed.

Lemma sorted_desc_firstn (n : nat) (l : list LeagueEntry) :
  sorted_desc l = true -> sorted_desc (firstn n l) = true.
Proof.
  revert n. induction l as [|a l IH]; intros n Hs; [now destruct n|].
  destruct n as [|n]; [reflexivity|].
  apply sorted_desc_cons in Hs as [Hhd Hs].
  cbn [firstn]. apply sorted_desc_cons. split; [|apply IH; exact Hs].
  destruct l as [|b l]; [now destruct n|].
  destruct n; [exact I | exact Hhd].
Qed.

Lemma add_checkpoint_sorted (pool : LeaguePool) (path : string) (st : Z)
    (winrate : Q) :
  sorted_desc (entries (fst (add_checkpoint pool path st winrate))) = true.
Proof.
  unfold add_checkpoint. cbn [fst entries].
  destruct (_ <? _)%Z; [|apply sort_desc_sorted].
  unfold slice_to. destruct (0 <=? _)%Z; apply sorted_desc_firstn, sort_desc_sorted.
Qed.

Lemma sort_desc_sorted_id (l : list LeagueEntry) :
  sorted_desc l = true -> sort_desc l = l.
Proof.
  induction l as [|a r IH]; intros Hs; [reflexivity|].
  apply sorted_desc_cons in Hs as [Hhd Hr].
  cbn [sort_desc fold_right]. fold (sort_desc r). rewrite (IH Hr).
  destruct r as [|b r']; [reflexivity|].
  cbn [insert_desc]. unfold key_geb in Hhd. apply negb_true_iff in Hhd.
  rewrite Hhd. reflexivity.
Qed.

Lemma entry_eqb_refl (e : LeagueEntry) : entry_eqb e e = true.
Proof.
  unfold entry_eqb, Qeqb.
  rewrite String.eqb_refl, Z.eqb_refl.
  rewrite !(proj1 (Qeq_alt _ _) (Qeq_refl _)). reflexivity.
Qed.

(** X8: [add_checkpoint] rates the new entry at 1000 plus 400 per unit
    of win-rate above 0.5, and never below 1000; it leaves the pool
    sorted by (elo, win-rate, step) descending; and with a non-negative
    [keep_top_n] the pool holds one entry more than before, capped at
    [3 * keep_top_n]. *)
Theorem add_checkpoint_sorted_and_capped (pool : LeaguePool) (path : string)
    (st : Z) (winrate : Q) :
  let r := add_checkpoint pool path st winrate in
  1000 <= elo (snd r)
  /\ (winrate <= 1 # 2 -> elo (snd r) == 1000)
  /\ (1 # 2 <= winrate -> elo (snd r) == 1000 + (winrate - (1 # 2)) * 400)
  /\ sorted_desc (entries (fst r)) = true
  /\ ((0 <= keep_top_n pool)%Z ->
      length (entries (fst r))
      = Nat.min (S (length (entries pool))) (Z.to_nat (keep_top_n pool * 3))).
Proof.
  cbn zeta. unfold add_checkpoint. cbn [fst snd elo entries].
  set (es := sort_desc _).
  assert (Hlen : length es = S (length (entries pool))).
  { unfold es. rewrite sort_desc_length, length_app. cbn. lia. }
  assert (Hsorted : sorted_desc es = true) by apply sort_desc_sorted.
  split; [|split; [|split; [|split]]].
  - pose proof (Q.le_max_l 0 ((winrate - (1 # 2)) * 400)). lra.
  - intros Hw. rewrite Q.max_l; [reflexivity | lra].
  - intros Hw. rewrite Q.max_r; [reflexivity | lra].
  - exact (add_checkpoint_sorted pool path st winrate).
  - intros Hk. destruct (keep_top_n pool * 3 <? Z.of_nat (length es))%Z eqn:E.
    + apply Z.ltb_lt in E. unfold slice_to.
      destruct (0 <=? keep_top_n pool * 3)%Z eqn:E0; [|apply Z.leb_gt in E0; lia].
      rewrite length_firstn. lia.
    + apply Z.ltb_ge in E. lia.
Qed.

(** X9: an admission neither drops nor duplicates entries: the pool
    afterwards holds exactly the entries it held, plus the candidate
    when no equal entry was there, and a candidate already in the pool
    is not added again. *)
Theorem promote_keeps_entries (pool : LeaguePool) (c : LeagueEntry) (top3 : list Q) :
  snd (promote_if_qualified pool c top3) = true ->
  (entry_in c (entries pool) = true ->
   Permutation (entries (fst (promote_if_qualified pool c top3))) (entries pool))
  /\ (entry_in c (entries pool) = false ->
      Permutation (entries (fst (promote_if_qualified pool c top3)))
                  (c :: entries pool)).
Proof.
  intros H. rewrite (promote_admitted _ _ _ H). split; intros ->.
  - apply sort_desc_perm.
  - rewrite sort_desc_perm. symmetry. apply Permutation_cons_append.
Qed.

Lemma choice_Ok {A} (l : list A) (k : nat) :
  l <> [] -> exists x, choice l k = Ok x /\ In x l.
Proof.
  intros Hne. unfold choice.
  assert (Hlt : (k mod length l < length l)%nat).
  { apply Nat.mod_upper_bound. destruct l; [congruence | cbn; lia]. }
  destruct (lookup_lt_is_Some_2 l _ Hlt) as [x Hx]. rewrite Hx.
  exists x. split; [reflexivity|].
  apply list_elem_of_In. eapply list_elem_of_lookup_2. exact Hx.
Qed.

Lemma nonempty_true {A} (l : list A) : nonempty l = true <-> l <> [].
Proof. destruct l; cbn; split; congruence. Qed.

Lemma in_firstn_list {A} (n : nat) (l : list A) (x : A) : In x (firstn n l) -> In x l.
Proof.
  intros H. rewrite <- (firstn_skipn n l). apply in_or_app. left. exact H.
Qed.

Lemma in_skipn_list {A} (n : nat) (l : list A) (x : A) : In x (skipn n l) -> In x l.
Proof.
  intros H. rewrite <- (firstn_skipn n l). apply in_or_app. right. exact H.
Qed.

Lemma firstn_min_length {A} (n : nat) (l : list A) :
  firstn (Nat.min n (length l)) l = firstn n l.
Proof.
  destruct (Nat.le_ge_cases n (length l)) as [H|H].
  - rewrite Nat.min_l by exact H. reflexivity.
  - rewrite Nat.min_r by exact H. rewrite !firstn_all2 by lia. reflexivity.
Qed.

(** X28: in the training loop the promotion never changes the league.
    The loop deposits an evaluation result with [add_checkpoint] and
    then asks [promote_if_qualified] for the entry just added; while
    the pool holds fewer than [3 * keep_top_n] entries that entry is
    already in the pool, so whatever the verdict the pool stays as
    [add_checkpoint] left it. *)
Theorem deposit_is_add_checkpoint (pool : LeaguePool) (path : string) (st : Z)
    (winrate : Q) :
  (Z.of_nat (length (entries pool)) < keep_top_n pool * 3)%Z ->
  fst (deposit pool (path, st, winrate))
  = fst (add_checkpoint pool path st winrate).
Proof.
  intros Hroom. unfold deposit.
  pose proof (add_checkpoint_sorted pool path st winrate) as Hsorted.
  assert (Hin : entry_in (snd (add_checkpoint pool path st winrate))
                         (entries (fst (add_checkpoint pool path st winrate))) = true).
  { unfold add_checkpoint. cbn [fst snd entries].
    set (entry := mkEntry _ _ _ _).
    assert (E : (keep_top_n pool * 3
                 <? Z.of_nat (length (sort_desc (entries pool ++ [entry]))))%Z = false).
    { apply Z.ltb_ge. rewrite sort_desc_length, length_app. cbn [length]. lia. }
    rewrite E. unfold entry_in. apply existsb_exists. exists entry.
    split; [|apply entry_eqb_refl].
    apply (Permutation_in _ (Permutation_sym (sort_desc_perm _))).
    apply in_or_app. right. left. reflexivity. }
  destruct (add_checkpoint pool path st winrate) as [pool1 entry].
  cbn [fst snd] in *.
  unfold promote_if_qualified.
  destruct (Qltb (winrate_vs_smart entry) (55 # 100)); [reflexivity|].
  destruct (match map winrate_vs_smart (top pool1 3) with
            | [] => false
            | x :: r => Qltb (winrate_vs_smart entry) (min_of x r)
            end); [reflexivity|].
  rewrite Hin. rewrite (sort_desc_sorted_id _ Hsorted), promote_slice_id.
  destruct pool1; reflexivity.
Qed.

(** X10: [sample_opponent] returns [None] for an empty pool and
    otherwise an entry of the pool, without raising.  When some entry is
    another checkpoint than the current one, the opponent returned is
    another checkpoint too, and for a roll below 0.6 it is one of the
    four best-ranked of those. *)
Theorem sample_opponent_in_pool (pool : LeaguePool) (current : option string)
    (d : Draws) :
  (entries pool = [] -> sample_opponent pool current d = Ok None)
  /\ (entries pool <> [] ->
      exists e, sample_opponent pool current d = Ok (Some e)
        /\ In e (entries pool)
        /\ ((exists x, In x (entries pool) /\ other_than current x = true) ->
            other_than current e = true
            /\ (roll d < 6 # 10 ->
                In e (firstn 4 (List.filter (other_than current) (entries pool)))))).
Proof.
  unfold sample_opponent. split.
  - intros ->. reflexivity.
  - intros Hne. apply nonempty_true in Hne as Hb. rewrite Hb. cbn [negb].
    set (eligible := List.filter (other_than current) (entries pool)).
    set (candidates := if nonempty eligible then eligible else entries pool).
    assert (Hcne : candidates <> []).
    { unfold candidates. destruct (nonempty eligible) eqn:E;
        [apply nonempty_true; exact E | exact Hne]. }
    assert (Hsub : forall x, In x candidates -> In x (entries pool)).
    { unfold candidates. intros x. destruct (nonempty eligible); [|auto].
      unfold eligible. rewrite filter_In. tauto. }
    assert (Hel : (exists x, In x (entries pool) /\ other_than current x = true) ->
                  candidates = eligible).
    { intros (x & Hx & Ho). unfold candidates.
      assert (Hin : In x eligible) by (unfold eligible; apply filter_In; auto).
      destruct eligible; [destruct Hin | reflexivity]. }
    rewrite firstn_min_length.
    assert (Htop : firstn 4 candidates <> []).
    { destruct candidates; [congruence | discriminate]. }
    assert (Hfin : forall x, In x (firstn 4 candidates) -> In x candidates)
      by (intros x; apply in_firstn_list).
    assert (Hsin : forall x, In x (skipn (Nat.min 4 (length candidates)) candidates)
                             -> In x candidates)
      by (intros x; apply in_skipn_list).
    assert (Hgoal : forall e, In e candidates ->
               (Qltb (roll d) (6 # 10) = true -> In e (firstn 4 candidates)) ->
               In e (entries pool)
               /\ ((exists x, In x (entries pool) /\ other_than current x = true) ->
                   other_than current e = true
                   /\ (roll d < 6 # 10 -> In e (firstn 4 eligible)))).
    { intros e He Hr. split; [apply Hsub; exact He|].
      intros Hex. rewrite (Hel Hex) in He, Hr. split.
      - unfold eligible in He. apply filter_In in He. tauto.
      - intros Hlt. apply Hr. apply Qltb_lt. exact Hlt. }
    apply nonempty_true in Htop as Htb. rewrite Htb, andb_true_r.
    destruct (Qltb (roll d) (6 # 10)) eqn:Er.
    + destruct (choice_Ok (firstn 4 candidates) (pick d) Htop) as (e & -> & He).
      cbn [rbind]. exists e. split; [reflexivity|]. apply Hgoal; auto.
    + destruct (Qltb (roll d) (85 # 100)
                && nonempty (skipn (Nat.min 4 (length candidates)) candidates)) eqn:E2.
      * apply andb_true_iff in E2 as [_ E2]. apply nonempty_true in E2.
        destruct (choice_Ok _ (pick d) E2) as (e & -> & He).
        cbn [rbind]. exists e. split; [reflexivity|].
        apply Hgoal; [auto | discriminate].
      * destruct (choice_Ok candidates (pick d) Hcne) as (e & -> & He).
        cbn [rbind]. exists e. split; [reflexivity|].
        apply Hgoal; [auto | discriminate].
Qed.

End LeagueMore.

(** ** Generalised advantage estimation: shapes, special cases, lanes *)

Section GaeMore.
Import Ppo.
Local Open Scope Q_scope.

Lemma shaped_of_rows (h n : nat) (a : list vec) :
  length a = h -> (forall t, (t < h)%nat -> length (row a t) = n) -> shaped h n a.
Proof.
  intros Hl Hr. split; [exact Hl|].
  apply List.Forall_nth. intros i d Hi.
  change (length (nth i a d) = n).
  rewrite (nth_indep a d [] Hi). apply Hr. rewrite <- Hl. exact Hi.
Qed.

(** X11: on arrays of one shape [(horizon, num_envs)], [compute_gae]
    returns advantages and returns of that same shape. *)
Theorem compute_gae_shape (rewards values dones : list vec) (next_value : vec)
    (gamma lam : Q) (h n : nat) :
  shaped h n rewards -> shaped h n values -> shaped h n dones ->
  length next_value = n ->
  shaped h n (fst (compute_gae rewards values dones next_value gamma lam))
  /\ shaped h n (snd (compute_gae rewards values dones next_value gamma lam)).
Proof.
  intros Hr Hv Hd Hnv.
  destruct h as [|h'].
  - destruct Hr as [Hr _]. destruct Hv as [Hv _].
    apply length_zero_iff_nil in Hr, Hv. subst. cbn.
    split; split; [reflexivity | constructor | reflexivity | constructor].
  - set (h := S h') in *.
    assert (Hadv : shaped h n (fst (compute_gae rewards values dones next_value gamma lam))).
    { rewrite (compute_gae_advantages rewards values dones next_value gamma lam h n Hr)
        by (unfold h; lia).
      destruct (gae_loop_shape rewards values dones next_value gamma lam h n
                  Hr Hv Hd Hnv h 0%nat ltac:(lia)) as [HA _].
      apply shaped_of_rows; [exact HA|].
      intros t Ht.
      rewrite (gae_rows rewards values dones next_value gamma lam h n
                 Hr Hv Hd Hnv h 0%nat t) by lia.
      apply (gae_loop_shape rewards values dones next_value gamma lam h n
               Hr Hv Hd Hnv (h - t) t). lia. }
    split; [exact Hadv|].
    unfold compute_gae in *. cbn [fst snd] in *.
    destruct Hadv as [HA HAr]. destruct Hv as [HV HVr].
    apply shaped_of_rows.
    + rewrite length_zip_with. lia.
    + intros t Ht. rewrite row_zip_with_vadd by lia.
      apply length_zip_with_same.
      * apply (shaped_row h n _ t (conj HA HAr) Ht).
      * apply (shaped_row h n _ t (conj HV HVr) Ht).
Qed.

(** X12: where the episode ends ([dones[t, e] = 1]) or when
    [gae_lambda] is 0, the advantage is the one-step temporal-difference
    residual [reward + gamma * value_next * (1 - done) - value], with
    [value_next] the bootstrap at the last step and the next value
    before it. *)
Theorem gae_td_residual (rewards values dones : list vec) (next_value : vec)
    (gamma lam : Q) (h n t e : nat) :
  shaped h n rewards -> shaped h n values -> shaped h n dones ->
  length next_value = n ->
  (t < h)%nat -> (e < n)%nat ->
  lam == 0 \/ at2 dones t e == 1 ->
  at2 (fst (compute_gae rewards values dones next_value gamma lam)) t e
  == at2 rewards t e
     + gamma * (if (t =? h - 1)%nat then nth e next_value 0 else at2 values (t + 1) e)
       * (1 - at2 dones t e)
     - at2 values t e.
Proof.
  intros Hr Hv Hd Hnv Ht He Hcase.
  rewrite (compute_gae_advantages rewards values dones next_value gamma lam
             h n Hr ltac:(lia)).
  rewrite (gae_advantage_rec rewards values dones next_value gamma lam h n
             Hr Hv Hd Hnv t e Ht He).
  generalize (nth e (snd (gae_loop rewards values dones next_value gamma lam h n (S t))) 0).
  intros L.
  destruct (t =? h - 1)%nat; cbv iota; unfold at2 in *;
    (destruct Hcase as [Hl|Hdone]; [rewrite Hl | rewrite Hdone]; ring).
Qed.

(** X13: lanes do not interact: the advantages of lane [e] are fixed by
    the rewards, values, done flags and bootstrap value of lane [e]. *)
Theorem gae_lanes_independent
    (rewards values dones rewards' values' dones' : list vec)
    (next_value next_value' : vec) (gamma lam : Q) (h n e : nat) :
  shaped h n rewards -> shaped h n values -> shaped h n dones ->
  length next_value = n ->
  shaped h n rewards' -> shaped h n values' -> shaped h n dones' ->
  length next_value' = n ->
  (e < n)%nat ->
  (forall t, (t < h)%nat ->
     at2 rewards t e == at2 rewards' t e
     /\ at2 values t e == at2 values' t e
     /\ at2 dones t e == at2 dones' t e) ->
  nth e next_value 0 == nth e next_value' 0 ->
  forall t, (t < h)%nat ->
    at2 (fst (compute_gae rewards values dones next_value gamma lam)) t e
    == at2 (fst (compute_gae rewards' values' dones' next_value' gamma lam)) t e.
Proof.
  intros Hr Hv Hd Hnv Hr' Hv' Hd' Hnv' He Hagree Hboot t Ht.
  rewrite (compute_gae_advantages rewards values dones next_value gamma lam
             h n Hr ltac:(lia)).
  rewrite (compute_gae_advantages rewards' values' dones' next_value' gamma lam
             h n Hr' ltac:(lia)).
  assert (Hk : forall k s, (s + k = h - 1)%nat ->
            at2 (fst (gae_loop rewards values dones next_value gamma lam h n 0)) s e
            == at2 (fst (gae_loop rewards' values' dones' next_value' gamma lam h n 0))
                   s e).
  { induction k as [|k IH]; intros s Hs.
    - assert (Hs' : (s < h)%nat) by lia.
      rewrite (gae_advantage_rec rewards values dones next_value gamma lam h n
                 Hr Hv Hd Hnv s e Hs' He).
      rewrite (gae_advantage_rec rewards' values' dones' next_value' gamma lam h n
                 Hr' Hv' Hd' Hnv' s e Hs' He).
      assert (Hlast : (s =? h - 1)%nat = true) by (apply Nat.eqb_eq; lia).
      rewrite Hlast.
      rewrite (gae_loop_end rewards values dones next_value gamma lam h n Hnv (S s))
        by lia.
      rewrite (gae_loop_end rewards' values' dones' next_value' gamma lam h n Hnv' (S s))
        by lia.
      cbn [snd]. rewrite nth_zeros.
      destruct (Hagree s Hs') as (Er & Ev & Ed).
      rewrite Er, Ev, Ed, Hboot. reflexivity.
    - assert (Hs' : (s < h)%nat) by lia.
      rewrite (gae_advantage_rec rewards values dones next_value gamma lam h n
                 Hr Hv Hd Hnv s e Hs' He).
      rewrite (gae_advantage_rec rewards' values' dones' next_value' gamma lam h n
                 Hr' Hv' Hd' Hnv' s e Hs' He).
      assert (Hne : (s =? h - 1)%nat = false) by (apply Nat.eqb_neq; lia).
      rewrite Hne.
      rewrite (gae_last_is_row rewards values dones next_value gamma lam h n
                 Hr Hv Hd Hnv (S s) e) by lia.
      rewrite (gae_last_is_row rewards' values' dones' next_value' gamma lam h n
                 Hr' Hv' Hd' Hnv' (S s) e) by lia.
      rewrite (IH (S s) ltac:(lia)).
      destruct (Hagree s Hs') as (Er & Ev & Ed).
      destruct (Hagree (s + 1)%nat ltac:(lia)) as (_ & Ev1 & _).
      change (nth e (row values (s + 1)) 0) with (at2 values (s + 1) e).
      change (nth e (row values' (s + 1)) 0) with (at2 values' (s + 1) e).
      rewrite Er, Ev, Ed, Ev1. reflexivity. }
  apply (Hk (h - 1 - t)%nat). lia.
Qed.

End GaeMore.

(** ** The loop of the policy update *)

Section UpdateFacts.
Import Numeric Config Update.
Local Open Scope Q_scope.

Lemma range_from_slices (indices : list nat) (mb : Z) :
  (0 < mb)%Z ->
  forall (fuel : nat) (start : Z),
    (0 <= start)%Z ->
    (Z.of_nat (length indices) - start <= Z.of_nat fuel)%Z ->
    concat (map (minibatch_of indices mb)
                (range_from fuel start (Z.of_nat (length indices)) mb))
    = skipn (Z.to_nat start) indices
    /\ Forall (fun st => (0 <= st < Z.of_nat (length indices))%Z)
              (range_from fuel start (Z.of_nat (length indices)) mb).
Proof.
  intros Hmb. induction fuel as [|fuel IH]; intros start Hs Hf.
  - cbn. split; [|constructor]. symmetry. apply skipn_all2. lia.
  - cbn [range_from]. destruct (start <? Z.of_nat (length indices))%Z eqn:E.
    + apply Z.ltb_lt in E.
      destruct (IH (start + mb)%Z ltac:(lia) ltac:(lia)) as [Hc Hall].
      split; [|constructor; [lia | exact Hall]].
      cbn [map concat]. rewrite Hc. unfold minibatch_of.
      replace (Z.to_nat (start + mb)) with (Z.to_nat mb + Z.to_nat start)%nat by lia.
      rewrite <- skipn_skipn. apply firstn_skipn.
    + apply Z.ltb_ge in E. cbn. split; [|constructor].
      symmetry. apply skipn_all2. lia.
Qed.

(** X14: for a positive [minibatch_size], the slices
    [indices[start : start + minibatch_size]] taken at the starts
    [range(0, batch_size, minibatch_size)] are consecutive pieces of the
    permuted indices: put together in order they are the permutation,
    and no piece is empty or longer than [minibatch_size]. *)
Theorem minibatches_partition (indices : list nat) (mb : Z) :
  (0 < mb)%Z ->
  exists starts,
    minibatch_starts (length indices) mb = Ok starts
    /\ concat (map (minibatch_of indices mb) starts) = indices
    /\ Forall (fun st => minibatch_of indices mb st <> []
                         /\ (Z.of_nat (length (minibatch_of indices mb st)) <= mb)%Z)
              starts.
Proof.
  intros Hmb. unfold minibatch_starts.
  assert (E0 : (mb =? 0)%Z = false) by (apply Z.eqb_neq; lia).
  assert (E1 : (mb <? 0)%Z = false) by (apply Z.ltb_ge; lia).
  rewrite E0, E1. eexists. split; [reflexivity|].
  destruct (range_from_slices indices mb Hmb (length indices) 0%Z ltac:(lia) ltac:(lia))
    as [Hc Hall].
  split; [exact Hc|].
  eapply Forall_impl; [exact Hall|].
  intros st [Hst0 Hst1]. cbn beta. unfold minibatch_of. split.
  - intros Hnil.
    assert (Hlen : length (firstn (Z.to_nat mb) (skipn (Z.to_nat st) indices)) = 0%nat)
      by (rewrite Hnil; reflexivity).
    rewrite length_firstn, length_skipn in Hlen. lia.
  - rewrite length_firstn. lia.
Qed.

Section WithGradient.
Context `{G : Gradient}.

(** X15: when the first mini-batch of an update reports an approximate
    KL above both [kl_hard_stop] and [kl_target], the update makes that
    one gradient step and no other, and returns that step's figures as
    its metrics with [updates = 1]. *)
Theorem update_stops_at_first_step (cfg : PPOConfig) (n : nat) (l l1 l2 : Learn)
    (indices : list nat) (s : Stats) :
  (0 < n)%nat -> (0 < minibatch_size cfg)%Z -> (0 < ppo_epochs cfg)%Z ->
  randperm n l = (indices, l1) ->
  minibatch_step cfg (minibatch_of indices (minibatch_size cfg) 0) l1 = (s, l2) ->
  kl_hard_stop cfg < s_approx_kl s ->
  kl_target cfg < s_approx_kl s ->
  exists m, update cfg n l = Ok (m, l2)
    /\ updates m == 1
    /\ kl m == s_approx_kl s
    /\ policy_loss m == s_policy_loss s
    /\ value_loss m == s_value_loss s
    /\ entropy m == s_entropy s
    /\ clips m == s_clip_fraction s.
Proof.
  intros Hn Hmb Hep Hperm Hstep Hhard Htarget.
  unfold update.
  destruct (Z.to_nat (ppo_epochs cfg)) as [|k] eqn:Ek; [lia|].
  cbn [epoch_loop]. rewrite Hperm. unfold minibatch_starts.
  assert (E0 : (minibatch_size cfg =? 0)%Z = false) by (apply Z.eqb_neq; lia).
  assert (E1 : (minibatch_size cfg <? 0)%Z = false) by (apply Z.ltb_ge; lia).
  rewrite E0, E1. cbn [rbind].
  destruct n as [|n']; [lia|]. cbn [range_from].
  assert (E2 : (0 <? Z.of_nat (S n'))%Z = true) by (apply Z.ltb_lt; lia).
  rewrite E2. cbn [minibatch_loop]. rewrite Hstep.
  apply Qltb_lt in Hhard. rewrite Hhard.
  assert (Hup : Qltb 0 (updates (add_stats zero_sums s)) = true) by reflexivity.
  assert (Hkl : Qltb (kl_target cfg)
                     (kl (add_stats zero_sums s) / updates (add_stats zero_sums s))
                = true).
  { apply Qltb_lt. cbn [kl updates add_stats zero_sums].
    assert (E : (0 + s_approx_kl s) / (0 + 1) == s_approx_kl s) by (field; discriminate).
    rewrite E. exact Htarget. }
  rewrite Hup, Hkl. cbn [andb rbind fst snd].
  eexists. split; [reflexivity|].
  unfold averaged. rewrite Hup.
  cbn [updates kl policy_loss value_loss entropy clips add_stats zero_sums].
  repeat split; try reflexivity; field; discriminate.
Qed.

Lemma epoch_loop_idle (cfg : PPOConfig) (n : nat) :
  minibatch_starts n (minibatch_size cfg) = Ok [] ->
  forall (epochs : nat) (l : Learn),
    exists l', epoch_loop cfg n epochs zero_sums l = Ok (zero_sums, l').
Proof.
  intros Hs. induction epochs as [|k IH]; intros l.
  - exists l. reflexivity.
  - cbn [epoch_loop]. destruct (randperm n l) as [indices l1].
    rewrite Hs. cbn [rbind minibatch_loop]. apply IH.
Qed.

(** X16: the edge cases of [update].  With no epoch to run it returns
    the all-zero metrics and leaves the parameters alone; with a
    [minibatch_size] of 0 and an epoch to run it raises ValueError; with
    a negative [minibatch_size] or an empty batch it makes no gradient
    step and returns the all-zero metrics. *)
Theorem update_edge_cases (cfg : PPOConfig) (n : nat) (l : Learn) :
  ((ppo_epochs cfg <= 0)%Z -> update cfg n l = Ok (zero_sums, l))
  /\ ((0 < ppo_epochs cfg)%Z -> minibatch_size cfg = 0%Z ->
      update cfg n l = Raise ValueError)
  /\ ((minibatch_size cfg < 0)%Z \/ (n = 0%nat /\ minibatch_size cfg <> 0%Z) ->
      exists l', update cfg n l = Ok (zero_sums, l')).
Proof.
  unfold update. split; [|split].
  - intros H. replace (Z.to_nat (ppo_epochs cfg)) with 0%nat by lia. reflexivity.
  - intros H Hmb. destruct (Z.to_nat (ppo_epochs cfg)) as [|k] eqn:Ek; [lia|].
    cbn [epoch_loop]. destruct (randperm n l) as [indices l1].
    unfold minibatch_starts. rewrite Hmb. reflexivity.
  - intros H.
    assert (Hs : minibatch_starts n (minibatch_size cfg) = Ok []).
    { unfold minibatch_starts. destruct H as [H|[-> H]].
      - assert (E0 : (minibatch_size cfg =? 0)%Z = false) by (apply Z.eqb_neq; lia).
        assert (E1 : (minibatch_size cfg <? 0)%Z = true) by (apply Z.ltb_lt; lia).
        rewrite E0, E1. reflexivity.
      - assert (E0 : (minibatch_size cfg =? 0)%Z = false) by (apply Z.eqb_neq; lia).
        rewrite E0. destruct (minibatch_size cfg <? 0)%Z; reflexivity. }
    destruct (epoch_loop_idle cfg n Hs (Z.to_nat (ppo_epochs cfg)) l) as [l' ->].
    exists l'. reflexivity.
Qed.

End WithGradient.

End UpdateFacts.

(** ** Masking, and what the update recomputes *)

Section MaskingFacts.
Import Numeric Model Update.
Local Open Scope Q_scope.
Context `{T : TorchFloat}.

(** X17: on logits and a mask of one size, [masked_logits] returns
    logits of that size, keeps the logit of every allowed index, puts
    [large_negative] on every other index, and is idempotent: masking
    already masked logits with the same mask changes nothing. *)
Theorem masked_logits_idempotent (logits : list Q) (mask : list Z) :
  length logits = length mask ->
  length (masked_logits logits mask) = length logits
  /\ (forall i l m, logits !! i = Some l -> mask !! i = Some m ->
        masked_logits logits mask !! i
        = Some (if (0 <? m)%Z then l else large_negative))
  /\ masked_logits (masked_logits logits mask) mask = masked_logits logits mask.
Proof.
  intros Hlen. split; [|split].
  - unfold masked_logits. rewrite length_zip_with. lia.
  - intros i l m Hl Hm. unfold masked_logits.
    apply lookup_zip_with_Some. exists l, m. auto.
  - clear Hlen. unfold masked_logits. revert mask.
    induction logits as [|l logits IH]; intros [|m mask]; cbn; try reflexivity.
    rewrite IH. destruct (0 <? m)%Z; reflexivity.
Qed.

(** X18: the update and the sampler agree: on the outputs and masks an
    action was sampled from, the joint log-probability and the joint
    entropy that [update] computes at the stored indices are the
    [combined_log_prob] and the entropy that [sample_action] returned.
    A probability ratio other than [exp 0] thus comes from a change of
    the outputs between the two forward passes, never from the
    masking. *)
Theorem update_recomputes_sampled_log_prob (outputs : ForwardOutput) (masks : Masks)
    (deterministic : bool) (noise : Noise) (s : Sampled) :
  sample_action outputs masks deterministic noise = Ok s ->
  fst (new_log_prob_entropy outputs masks (index_of s)) = s_combined_log_prob s
  /\ snd (new_log_prob_entropy outputs masks (index_of s)) = s_action_entropy s.
Proof.
  unfold sample_action, sample_head.
  destruct (choose deterministic (masked_logits (action_logits outputs) _) _)
    as [ka|e]; cbn [rbind]; [|discriminate].
  destruct (choose deterministic (masked_logits (unit_logits outputs) _) _)
    as [ku|e]; cbn [rbind]; [|discriminate].
  destruct (choose deterministic (masked_logits (turret_logits outputs) _) _)
    as [kt|e]; cbn [rbind]; [|discriminate].
  destruct (choose deterministic (masked_logits (buy_slot_logits outputs) _) _)
    as [kb|e]; cbn [rbind]; [|discriminate].
  destruct (choose deterministic (masked_logits (sell_slot_logits outputs) _) _)
    as [ks|e]; cbn [rbind]; [|discriminate].
  intros H. inversion H; subst; clear H.
  unfold new_log_prob_entropy, masked_logprob_entropy, masked_logits.
  cbn [index_of s_action s_unit s_turret s_buy_slot s_sell_slot
       s_combined_log_prob s_action_entropy fst snd].
  split; reflexivity.
Qed.

End MaskingFacts.

(** ** From sampled indices to actions *)

Section ActionFacts.
Import Numeric Config Model Env Play.
Local Open Scope Q_scope.

(** X19: [_indices_to_action] names the action by its index in
    [ACTIONS], WAIT for an index outside the list, and fills only the
    fields that action uses: a unit id for RECRUIT_UNIT, a turret id and
    the buy-slot index for BUY_TURRET_ENGINE, the sell-slot index for
    SELL_TURRET_ENGINE, nothing for the others. *)
Theorem indices_to_action_fields (sigmoid : Q -> Q) (s : Sampled) :
  let a := indices_to_action sigmoid s in
  ((length ACTIONS <= s_action s)%nat -> action_type a = WAIT)
  /\ (forall t, ACTIONS !! s_action s = Some t -> action_type a = t)
  /\ unit_id a = match action_type a with
                 | RECRUIT_UNIT => Some ("unit_" ++ pretty (s_unit s))%string
                 | _ => None
                 end
  /\ turret_id a = match action_type a with
                   | BUY_TURRET_ENGINE => Some ("turret_" ++ pretty (s_turret s))%string
                   | _ => None
                   end
  /\ slot_index a = match action_type a with
                    | BUY_TURRET_ENGINE => Some (Z.of_nat (s_buy_slot s))
                    | SELL_TURRET_ENGINE => Some (Z.of_nat (s_sell_slot s))
                    | _ => None
                    end
  /\ confidence a = sigmoid (s_action_log_prob s).
Proof.
  cbn zeta. unfold indices_to_action.
  split.
  - intros Hout. rewrite (lookup_ge_None_2 ACTIONS (s_action s) Hout). reflexivity.
  - split.
    + intros t Ht. rewrite Ht. destruct t; reflexivity.
    + destruct (ACTIONS !! s_action s) as [t|]; [destruct t|]; repeat split.
Qed.

Section WithTorch.
Context `{T : TorchFloat}.

Lemma sample_action_head (outputs : ForwardOutput) (masks : Masks)
    (deterministic : bool) (noise : Noise) (s : Sampled) :
  sample_action outputs masks deterministic noise = Ok s ->
  choose deterministic (masked_logits (action_logits outputs) (m_action_type masks))
         (u_action noise) = Ok (s_action s).
Proof.
  unfold sample_action, sample_head.
  destruct (choose deterministic (masked_logits (action_logits outputs) _) _)
    as [ka|e]; cbn [rbind]; [|discriminate].
  destruct (choose deterministic (masked_logits (unit_logits outputs) _) _)
    as [ku|e]; cbn [rbind]; [|discriminate].
  destruct (choose deterministic (masked_logits (turret_logits outputs) _) _)
    as [kt|e]; cbn [rbind]; [|discriminate].
  destruct (choose deterministic (masked_logits (buy_slot_logits outputs) _) _)
    as [kb|e]; cbn [rbind]; [|discriminate].
  destruct (choose deterministic (masked_logits (sell_slot_logits outputs) _) _)
    as [ks|e]; cbn [rbind]; [|discriminate].
  intros H. inversion H; subst. reflexivity.
Qed.

(** X20: on an observation of the mock environment, an action sampled
    under its masks and turned into an [Action] is allowed by the
    action-type mask and is never SELL_TURRET_ENGINE; so the index of the
    sell-slot head, whose mask is all zeros, never reaches the
    environment: the slot index is absent or the buy-slot index. *)
Theorem sampled_action_never_sells `{R : Runtime} (gap : Q)
    {Laws : TorchFloatLaws T gap} (env : MockSelfPlayEnv) (obs : Observation)
    (outputs : ForwardOutput) (deterministic : bool) (noise : Noise)
    (s : Sampled) (sigmoid : Q -> Q) :
  0 < gap ->
  build_observation env = Ok obs ->
  has_allowed gap (action_logits outputs) (action_type_mask obs) ->
  0 <= u_action noise -> u_action noise < 1 ->
  sample_action outputs (Trainer.obs_masks obs) deterministic noise = Ok s ->
  let a := indices_to_action sigmoid s in
  ACTIONS !! s_action s = Some (action_type a)
  /\ action_type_mask obs !! s_action s = Some 1%Z
  /\ action_type a <> SELL_TURRET_ENGINE
  /\ (slot_index a = None \/ slot_index a = Some (Z.of_nat (s_buy_slot s))).
Proof.
  intros Hgap Hobs Hal Hu0 Hu1 Hs. cbn zeta.
  apply sample_action_head in Hs. cbn [Trainer.obs_masks m_action_type] in Hs.
  destruct (choose_allowed gap deterministic (action_logits outputs)
              (action_type_mask obs) (u_action noise) Hgap Hal Hu0 Hu1)
    as (k & Hk & Hmask).
  rewrite Hk in Hs. inversion Hs; subst k; clear Hs.
  rewrite (build_observation_action_mask env obs Hobs) in *.
  unfold mask_at in Hmask.
  unfold indices_to_action.
  destruct (s_action s) as [|[|[|[|[|[|[|[|k]]]]]]]]; cbn in Hmask; try lia;
    cbn [lookup list_lookup ACTIONS].
  - repeat split; auto; discriminate.
  - repeat split; auto; discriminate.
  - destruct (own_age (state env) <? 6)%Z; cbn in Hmask; [|lia].
    repeat split; auto; discriminate.
  - repeat split; auto; discriminate.
  - repeat split; auto; discriminate.
  - repeat split; auto; discriminate.
  - destruct (Qleb 120 (own_mana (state env))); cbn in Hmask; [|lia].
    repeat split; auto; discriminate.
  - destruct k; cbn in Hmask; lia.
Qed.

End WithTorch.

End ActionFacts.

(** ** The trainer: annealing, checkpoints, the loop as a whole *)

Section TrainerMore.
Import Numeric Trainer.
Local Open Scope Q_scope.

Lemma anneal_keeps_options (step : Z) (p : Config.PPOConfig) :
  Config.entropy_coef_min (anneal step p) = Config.entropy_coef_min p
  /\ Config.entropy_anneal_steps (anneal step p) = Config.entropy_anneal_steps p.
Proof. split; reflexivity. Qed.

Lemma anneal_step_bounds (step : Z) (p : Config.PPOConfig) :
  (0 <= step)%Z ->
  Config.entropy_coef_min p <= Config.entropy_coef p ->
  Config.entropy_coef_min p <= Config.entropy_coef (anneal step p)
  /\ Config.entropy_coef (anneal step p) <= Config.entropy_coef p
  /\ ((Z.max 1 (Config.entropy_anneal_steps p) <= step)%Z ->
      Config.entropy_coef (anneal step p) == Config.entropy_coef_min p).
Proof.
  intros Hs Hm. unfold anneal. cbn [Config.set_entropy_coef Config.entropy_coef].
  set (N := Z.max 1 (Config.entropy_anneal_steps p)).
  set (x := inject_Z step / inject_Z N).
  assert (HN : 0 < inject_Z N).
  { change 0 with (inject_Z 0). rewrite <- Zlt_Qlt. unfold N. lia. }
  assert (Hx : 0 <= x).
  { unfold x. apply Qle_shift_div_l; [exact HN|].
    rewrite Qmult_0_l. change 0 with (inject_Z 0). rewrite <- Zle_Qle. exact Hs. }
  set (q := Qmin 1 x).
  assert (Hq0 : 0 <= q) by (apply Q.min_glb; [discriminate | exact Hx]).
  assert (Hq1 : q <= 1) by apply Q.le_min_l.
  set (c := Config.entropy_coef p) in *. set (m := Config.entropy_coef_min p) in *.
  assert (H1 : 0 <= (c - m) * (1 - q)) by (apply Qmult_le_0_compat; lra).
  assert (H2 : 0 <= (c - m) * q) by (apply Qmult_le_0_compat; lra).
  split; [|split].
  - assert (E : c * (1 - q) + m * q == m + (c - m) * (1 - q)) by ring.
    rewrite E. lra.
  - assert (E : c * (1 - q) + m * q == c - (c - m) * q) by ring.
    rewrite E. lra.
  - intros Hfull.
    assert (Hx1 : 1 <= x).
    { unfold x. apply Qle_shift_div_l; [exact HN|].
      rewrite Qmult_1_l. rewrite <- Zle_Qle. exact Hfull. }
    assert (Eq : q == 1) by (unfold q; apply Q.min_l; exact Hx1).
    rewrite Eq. ring.
Qed.

(** X21: whatever the step counts of the calls, [_anneal_entropy] never
    raises the entropy coefficient and never takes it below
    [entropy_coef_min]; and a call at or beyond [entropy_anneal_steps]
    sets it to [entropy_coef_min]. *)
Theorem anneal_stays_above_floor (steps : list Z) (p : Config.PPOConfig) :
  Forall (fun s => 0 <= s)%Z steps ->
  Config.entropy_coef_min p <= Config.entropy_coef p ->
  Config.entropy_coef_min p <= Config.entropy_coef (anneal_calls steps p)
  /\ Config.entropy_coef (anneal_calls steps p) <= Config.entropy_coef p
  /\ (forall last, (0 <= last)%Z ->
        (Z.max 1 (Config.entropy_anneal_steps p) <= last)%Z ->
        Config.entropy_coef (anneal_calls (steps ++ [last]) p)
        == Config.entropy_coef_min p).
Proof.
  intros Hsteps Hm.
  assert (Hinv : Config.entropy_coef_min (anneal_calls steps p) = Config.entropy_coef_min p
                 /\ Config.entropy_anneal_steps (anneal_calls steps p)
                    = Config.entropy_anneal_steps p
                 /\ Config.entropy_coef_min p <= Config.entropy_coef (anneal_calls steps p)
                 /\ Config.entropy_coef (anneal_calls steps p) <= Config.entropy_coef p).
  { unfold anneal_calls. revert p Hm.
    induction Hsteps as [|s steps Hs Hrest IH]; intros p Hm; cbn [fold_left].
    - repeat split; [exact Hm | apply Qle_refl].
    - destruct (anneal_step_bounds s p Hs Hm) as (Hlo & Hhi & _).
      destruct (IH (anneal s p) Hlo) as (Emin & Esteps & Hlo' & Hhi').
      rewrite Emin, Esteps. cbn [Config.entropy_coef_min Config.entropy_anneal_steps
                                  anneal Config.set_entropy_coef].
      repeat split; [exact Hlo' | eapply Qle_trans; [exact Hhi' | exact Hhi]]. }
  destruct Hinv as (Emin & Esteps & Hlo & Hhi).
  split; [exact Hlo|]. split; [exact Hhi|].
  intros last Hl Hfull. unfold anneal_calls. rewrite fold_left_app. cbn [fold_left].
  fold (anneal_calls steps p).
  destruct (anneal_step_bounds last (anneal_calls steps p) Hl) as (_ & _ & Hfloor).
  - rewrite Emin. exact Hlo.
  - rewrite Hfloor; [rewrite Emin; reflexivity|]. rewrite Esteps. exact Hfull.
Qed.

Section WithLearner.
Context `{L : Learner}.

(** X22: a checkpoint round trip: after [_save_checkpoint] has written
    the file and the loop has recorded it as last known good, a rollback
    on any later trainer that still has that file and that record
    restores the model parameters and the optimizer state as they were
    when the checkpoint was saved. *)
Theorem checkpoint_round_trip (t later : SelfPlayTrainer) :
  checkpoint_file (Config.save_dir (Config.runtime (cfg t))) (global_step t)
  <> EmptyString ->
  disk later = disk (checkpoint_block t) ->
  last_good_checkpoint later = last_good_checkpoint (checkpoint_block t) ->
  exists t', rollback_checkpoint later = Ok t'
    /\ model t' = model t
    /\ optimizer t' = optimizer t
    /\ global_step t' = global_step later
    /\ cfg t' = cfg later.
Proof.
  intros Hpath Hdisk Hlast.
  unfold rollback_checkpoint. rewrite Hlast, Hdisk.
  unfold checkpoint_block, save_checkpoint, print.
  cbn [last_good_checkpoint disk truthy].
  set (path := checkpoint_file _ _) in *.
  destruct (String.eqb path EmptyString) eqn:E.
  - apply String.eqb_eq in E. contradiction.
  - rewrite lookup_insert_eq. eexists. split; [reflexivity|]. repeat split.
Qed.

Lemma train_iteration_runtime (t t' : SelfPlayTrainer) :
  train_iteration t = Ok t' ->
  Config.runtime (cfg t') = Config.runtime (cfg t).
Proof.
  unfold train_iteration.
  destruct (collect_rollout _ _ _ _) as [w [batch|e]]; cbn [rbind]; [|discriminate].
  destruct (ppo_update _ _ _) as [metrics [[m o] w']].
  set (t1 := mkTrainer _ _ _ _ _ _ _ _ _ _).
  assert (H1 : Config.runtime (cfg t1) = Config.runtime (cfg t)) by reflexivity.
  clearbody t1.
  destruct (diverged metrics).
  - intros H. apply rollback_checkpoint_keeps in H as [-> _]. exact H1.
  - destruct (pymod (global_step t1) _) as [r1|e]; cbn [rbind]; [|discriminate].
    set (t2 := if (r1 =? 0)%Z then log_block t1 metrics else t1).
    assert (H2 : cfg t2 = cfg t1).
    { unfold t2. destruct (r1 =? 0)%Z; [apply log_block_keeps | auto]. }
    clearbody t2.
    destruct (pymod (global_step t2) _) as [r2|e]; cbn [rbind]; [|discriminate].
    set (t3 := if (r2 =? 0)%Z then checkpoint_block t2 else t2).
    assert (H3 : cfg t3 = cfg t2).
    { unfold t3. destruct (r2 =? 0)%Z; [apply checkpoint_block_keeps | auto]. }
    clearbody t3.
    destruct (pymod (global_step t3) _) as [r3|e]; cbn [rbind]; [|discriminate].
    destruct (r3 =? 0)%Z.
    + intros H. apply eval_block_keeps in H as [-> _]. congruence.
    + intros H. inversion H; subst t'. congruence.
Qed.

(** X23: [train] ends whenever an iteration covers at least one step:
    with [rollout_horizon * num_envs] positive, enough fuel for the
    remaining steps gives a result, and a normal result has reached
    [total_steps] and printed the closing line last. *)
Theorem train_terminates (fuel : nat) (t : SelfPlayTrainer) :
  let per := (Config.rollout_horizon (Config.runtime (cfg t))
              * Config.num_envs (Config.runtime (cfg t)))%Z in
  (0 < per)%Z ->
  (Config.total_steps (Config.runtime (cfg t)) - global_step t
   <= Z.of_nat fuel * per)%Z ->
  exists r, train fuel t = Some r
    /\ forall t', r = Ok t' ->
         (Config.total_steps (Config.runtime (cfg t)) <= global_step t')%Z
         /\ last (stdout t') = Some TrainingDone
         /\ exists k, global_step t' = (global_step t + Z.of_nat k * per)%Z.
Proof.
  cbn zeta. revert t. induction fuel as [|fuel IH]; intros t Hper Hfuel.
  - cbn [train].
    assert (E : (global_step t <? Config.total_steps (Config.runtime (cfg t)))%Z = false)
      by (apply Z.ltb_ge; lia).
    rewrite E. eexists. split; [reflexivity|].
    intros t' Ht'. inversion Ht'; subst t'. cbn [print global_step stdout cfg].
    apply Z.ltb_ge in E. split; [exact E|]. split; [apply last_snoc|].
    exists 0%nat. lia.
  - cbn [train].
    destruct (global_step t <? Config.total_steps (Config.runtime (cfg t)))%Z eqn:E.
    + destruct (train_iteration t) as [t1|e] eqn:Hit.
      * destruct (train_iteration_anneals t t1 Hit) as [_ Hg].
        pose proof (train_iteration_runtime t t1 Hit) as Hr.
        destruct (IH t1) as (r & Hr1 & Hpost).
        { rewrite Hr. exact Hper. }
        { rewrite Hr, Hg. lia. }
        exists r. split; [exact Hr1|].
        intros t' Ht'. destruct (Hpost t' Ht') as (Hge & Hlast & k & Hk).
        rewrite Hr in Hge, Hk. split; [exact Hge|]. split; [exact Hlast|].
        exists (S k). rewrite Hk, Hg. lia.
      * eexists. split; [reflexivity|]. intros t' Ht'. discriminate.
    + eexists. split; [reflexivity|].
      intros t' Ht'. inversion Ht'; subst t'. cbn [print global_step stdout cfg].
      apply Z.ltb_ge in E. split; [exact E|]. split; [apply last_snoc|].
      exists 0%nat. lia.
Qed.

(** X24: with no lane or an empty horizon ([rollout_horizon * num_envs]
    not positive) and steps still to train, [train] never completes: the
    step count does not advance, so no amount of fuel gives a normal
    result. *)
Theorem train_never_completes (fuel : nat) (t t' : SelfPlayTrainer) :
  (Config.rollout_horizon (Config.runtime (cfg t))
   * Config.num_envs (Config.runtime (cfg t)) <= 0)%Z ->
  (global_step t < Config.total_steps (Config.runtime (cfg t)))%Z ->
  train fuel t <> Some (Ok t').
Proof.
  revert t. induction fuel as [|fuel IH]; intros t Hper Hlt; cbn [train];
    apply Z.ltb_lt in Hlt as E; rewrite E; [discriminate|].
  destruct (train_iteration t) as [t1|e] eqn:Hit; [|discriminate].
  destruct (train_iteration_anneals t t1 Hit) as [_ Hg].
  pose proof (train_iteration_runtime t t1 Hit) as Hr.
  apply IH; rewrite Hr; [exact Hper | lia].
Qed.

End WithLearner.

End TrainerMore.

(** ** Evaluation matches *)

Section EvaluateFacts.
Import Numeric Config Env EnvRun Play.
Local Open Scope Q_scope.
Context `{R : Runtime}.

(** The loop [while not done] cannot outlast the ticks that are left:
    every pass ends the match, raises, or advances the tick. *)
Lemma play_returns (policy : Observation -> result Action) :
  forall (fuel : nat) (env : MockSelfPlayEnv) (obs : Observation),
    (1 <= fuel)%nat ->
    (max_ticks env - st_tick (state env) <= Z.of_nat fuel)%Z ->
    exists r, play policy fuel env obs = Some r.
Proof.
  induction fuel as [|fuel IH]; intros env obs H1 Hfuel; [lia|].
  cbn [play]. destruct (policy obs) as [a|e]; [|eexists; reflexivity].
  pose proof (step_tick env a) as Htick.
  pose proof (step_done env a) as Hdone.
  destruct (step_model_cfg env a) as [_ Hmax].
  destruct (step env a) as [env' r]. cbn [fst snd] in *.
  destruct r as [out|e]; [|eexists; reflexivity].
  destruct (out_done out) eqn:Ed; [eexists; reflexivity|].
  destruct (copy_via_dict (state env)) as [prev|e]; [|discriminate Htick].
  assert (Hlt : (st_tick (state env') < max_ticks env)%Z).
  { destruct (Z.lt_ge_cases (st_tick (state env')) (max_ticks env)) as [Hl|Hg];
      [exact Hl|]. rewrite (Hdone out eq_refl Hg) in Ed. discriminate Ed. }
  apply IH; lia.
Qed.

Lemma play_match_returns (policy : Observation -> result Action) (fuel : nat)
    (cfg : ModelConfig) (seed : Z) :
  (2400 <= fuel)%nat ->
  exists r, play_match policy fuel cfg seed = Some r.
Proof.
  intros Hfuel. unfold play_match. cbn [reset fst snd].
  destruct (build_observation _) as [obs|e]; [|eexists; reflexivity].
  match goal with
  | |- context [play policy fuel ?e obs] =>
      destruct (play_returns policy fuel e obs) as [[info|err] ->]
  end; [lia | cbn; lia | eexists; reflexivity | eexists; reflexivity].
Qed.

Lemma count_wins_returns (policy : Observation -> result Action) (fuel : nat)
    (cfg : ModelConfig) (seed : Z) (idxs : list nat) :
  (2400 <= fuel)%nat ->
  forall wins, exists r, count_wins policy fuel cfg seed idxs wins = Some r.
Proof.
  intros Hfuel.
  induction idxs as [|i rest IH]; intros wins; cbn [count_wins].
  - eexists. reflexivity.
  - destruct (play_match_returns policy fuel cfg (seed + 500000 + Z.of_nat i) Hfuel)
      as [[won|e] ->]; [apply IH | eexists; reflexivity].
Qed.

(** X25: an evaluation terminates, whatever the interpreter does with
    the copy of the state and whatever the policy does: within the
    environment's 2400 ticks every match is decided or left by an
    exception, so the loop [while not done] cannot run forever and
    [evaluate] returns or raises for every number of matches. *)
Theorem play_match_ends (policy : Observation -> result Action) (fuel : nat)
    (cfg : OvernightConfig) (matches : Z) :
  (2400 <= fuel)%nat ->
  (forall seed, exists r, play_match policy fuel (model cfg) seed = Some r)
  /\ exists r, evaluate policy fuel cfg matches = Some r.
Proof.
  intros Hfuel. split.
  - intros seed. apply play_match_returns. exact Hfuel.
  - unfold evaluate.
    destruct (count_wins_returns policy fuel (model cfg) (seed (runtime cfg))
                (seq 0 (Z.to_nat matches)) Hfuel 0%Z) as [[w|e] ->];
      eexists; reflexivity.
Qed.

Lemma count_wins_bounds (policy : Observation -> result Action) (fuel : nat)
    (cfg : ModelConfig) (seed : Z) (idxs : list nat) :
  forall (wins w : Z),
    count_wins policy fuel cfg seed idxs wins = Some (Ok w) ->
    (wins <= w <= wins + Z.of_nat (length idxs))%Z.
Proof.
  induction idxs as [|i rest IH]; intros wins w H; cbn [count_wins length] in *.
  - inversion H. lia.
  - destruct (play_match policy fuel cfg _) as [[won|e]|]; try discriminate.
    apply IH in H. destruct won; lia.
Qed.

(** X26: the win rate [evaluate] returns lies between 0 and 1, and is 0
    when no match is asked for. *)
Theorem evaluate_win_rate_bounds (policy : Observation -> result Action) (fuel : nat)
    (cfg : OvernightConfig) (matches : Z) (q : Q) :
  evaluate policy fuel cfg matches = Some (Ok q) ->
  0 <= q /\ q <= 1 /\ ((matches <= 0)%Z -> q == 0).
Proof.
  unfold evaluate.
  destruct (count_wins _ _ _ _ _ _) as [[w|e]|] eqn:Hc; try discriminate.
  intros H. inversion H; subst q; clear H.
  apply count_wins_bounds in Hc. rewrite length_seq in Hc.
  assert (Hd : 0 < inject_Z (Z.max 1 matches)).
  { change 0 with (inject_Z 0). rewrite <- Zlt_Qlt. lia. }
  split; [|split].
  - apply Qle_shift_div_l; [exact Hd|]. rewrite Qmult_0_l.
    change 0 with (inject_Z 0). rewrite <- Zle_Qle. lia.
  - apply Qle_shift_div_r; [exact Hd|]. rewrite Qmult_1_l.
    rewrite <- Zle_Qle. lia.
  - intros Hm. assert (w = 0%Z) by lia. subst w.
    unfold Qdiv. apply Qmult_0_l.
Qed.

(** X27: when the copy of the state through [__dict__] raises, [step]
    raises that error at its first line and leaves the environment as
    it was; so [evaluate] with at least one match raises it at the first
    step of the first match instead of returning a win rate. *)
Theorem copy_failure_stops_evaluation (policy : Observation -> result Action)
    (fuel : nat) (cfg : OvernightConfig) (matches : Z) (e : exn) :
  (forall s, copy_via_dict s = Raise e) ->
  (forall obs, exists a, policy obs = Ok a) ->
  sizes_ok (model cfg) ->
  (1 <= fuel)%nat ->
  (1 <= matches)%Z ->
  (forall env a, step env a = (env, Raise e))
  /\ evaluate policy fuel cfg matches = Some (Raise e).
Proof.
  intros Hcopy Hpol Hsizes Hfuel Hm.
  assert (Hstep : forall env a, step env a = (env, Raise e)).
  { intros env a. unfold step. rewrite Hcopy. reflexivity. }
  split; [exact Hstep|].
  unfold evaluate.
  destruct (Z.to_nat matches) as [|k] eqn:Ek; [lia|].
  cbn [seq count_wins]. unfold play_match.
  destruct (build_observation_ok (fst (reset (init (model cfg) 2400)
                                             (seed (runtime cfg) + 500000 + Z.of_nat 0))))
    as [obs Hobs]; [exact Hsizes|].
  cbn [reset fst] in *. rewrite Hobs.
  destruct fuel as [|fuel]; [lia|].
  cbn [play]. destruct (Hpol obs) as [a ->].
  rewrite Hstep. reflexivity.
Qed.

End EvaluateFacts.

(** ** The further properties at concrete inputs *)

Section EnvWitnesses.
Import Numeric Config Env EnvRun Play MoreExamples.
Local Open Scope Q_scope.

Lemma build_observation_needs_sizes_witness :
  (exists obs, build_observation new_env = Ok obs)
  /\ build_observation (init (H := example_runtime) tiny_model 2400) = Raise IndexError.
Proof.
  split.
  - apply (build_observation_needs_sizes (R := example_runtime) new_env).
    unfold new_env, init, default_model. cbn. lia.
  - apply (build_observation_needs_sizes (R := example_runtime)
             (init (H := example_runtime) tiny_model 2400)).
    left. unfold init, tiny_model. cbn. lia.
Defined.

Lemma observation_well_formed_witness :
  exists obs, build_observation new_env = Ok obs
    /\ length (static_state obs) = 56%nat
    /\ length (event_sequence obs) = 240%nat
    /\ length (action_type_mask obs) = 8%nat.
Proof.
  destruct (build_observation new_env) as [obs|e] eqn:H.
  - exists obs. split; [reflexivity|].
    destruct (observation_well_formed (R := example_runtime) new_env obs H)
      as (H1 & _ & H2 & _ & H3 & _).
    repeat split; assumption.
  - exfalso. vm_compute in H. discriminate H.
Defined.

Lemma play_match_ends_witness :
  (exists r, play_match (H := example_runtime) always_wait 2400 default_model 1337
             = Some r)
  /\ exists r, evaluate (H := example_runtime) always_wait 2400
                        (mkConfig default_ppo default_model default_runtime) 200
               = Some r.
Proof.
  destruct (play_match_ends (R := example_runtime) always_wait 2400
              (mkConfig default_ppo default_model default_runtime) 200)
    as [Hmatch Heval]; [lia|].
  split; [exact (Hmatch 1337%Z) | exact Heval].
Defined.

Lemma evaluate_win_rate_bounds_witness :
  evaluate (H := example_runtime) always_wait 2400
           (mkConfig default_ppo default_model default_runtime) 0
  = Some (Ok (0 / 1))
  /\ 0 <= 0 / 1 /\ 0 / 1 <= 1 /\ 0 / 1 == 0.
Proof.
  split; [reflexivity|].
  destruct (evaluate_win_rate_bounds (R := example_runtime) always_wait 2400
              (mkConfig default_ppo default_model default_runtime) 0 (0 / 1) eq_refl)
    as (H0 & H1 & Hz).
  split; [exact H0|]. split; [exact H1|]. apply Hz. lia.
Defined.

Lemma copy_failure_stops_evaluation_witness :
  step new_env recruit = (new_env, Raise AttributeError)
  /\ evaluate (H := example_runtime) always_wait 2400
              (mkConfig default_ppo default_model default_runtime) 200
     = Some (Raise AttributeError).
Proof.
  destruct (copy_failure_stops_evaluation (R := example_runtime) always_wait 2400
              (mkConfig default_ppo default_model default_runtime) 200 AttributeError)
    as [Hstep Heval].
  - intros s. reflexivity.
  - intros obs. exists wait. reflexivity.
  - unfold sizes_ok, default_model. cbn. lia.
  - lia.
  - lia.
  - split; [exact (Hstep new_env recruit) | exact Heval].
Defined.

End EnvWitnesses.

Section LeagueWitnesses.
Import Numeric League Opponent MoreExamples.
Local Open Scope Q_scope.

Lemma add_checkpoint_sorted_and_capped_witness :
  elo (snd (add_checkpoint pool3 "checkpoint_400.pt" 400 (65 # 100)))
  == 1000 + ((65 # 100) - (1 # 2)) * 400
  /\ length (entries (fst (add_checkpoint pool3 "checkpoint_400.pt" 400 (65 # 100))))
     = 4%nat
  /\ length (entries (fst (add_checkpoint (mkPool 1 (entries pool3))
                                          "checkpoint_400.pt" 400 (65 # 100))))
     = 3%nat.
Proof.
  pose proof (add_checkpoint_sorted_and_capped pool3 "checkpoint_400.pt" 400 (65 # 100))
    as (_ & _ & Helo & _ & Hlen).
  pose proof (add_checkpoint_sorted_and_capped (mkPool 1 (entries pool3))
                "checkpoint_400.pt" 400 (65 # 100))
    as (_ & _ & _ & _ & Hlen1).
  split; [apply Helo; discriminate|].
  split; [apply Hlen; cbn; lia | apply Hlen1; cbn; lia].
Defined.

Lemma promote_keeps_entries_witness :
  Permutation (entries (fst (promote_if_qualified pool3 entry_b [])))
              (entries pool3)
  /\ Permutation
       (entries (fst (promote_if_qualified (mkPool 8 [entry_a; entry_c]) entry_b [])))
       [entry_b; entry_a; entry_c].
Proof.
  split.
  - apply (promote_keeps_entries pool3 entry_b []); reflexivity.
  - apply (promote_keeps_entries (mkPool 8 [entry_a; entry_c]) entry_b []); reflexivity.
Defined.

Lemma deposit_is_add_checkpoint_witness :
  fst (deposit pool3 ("checkpoint_400.pt"%string, 400%Z, 65 # 100))
  = fst (add_checkpoint pool3 "checkpoint_400.pt" 400 (65 # 100)).
Proof.
  apply (deposit_is_add_checkpoint pool3 "checkpoint_400.pt" 400 (65 # 100)).
  cbn. lia.
Defined.

Lemma sample_opponent_in_pool_witness :
  sample_opponent (init 8) None (mkDraws (1 # 2) 7) = Ok None
  /\ exists e,
       sample_opponent pool3 (Some "checkpoint_200.pt"%string) (mkDraws (1 # 2) 7)
       = Ok (Some e)
       /\ In e (entries pool3)
       /\ other_than (Some "checkpoint_200.pt"%string) e = true.
Proof.
  split.
  - apply (sample_opponent_in_pool (init 8) None (mkDraws (1 # 2) 7)). reflexivity.
  - destruct (proj2 (sample_opponent_in_pool pool3 (Some "checkpoint_200.pt"%string)
                       (mkDraws (1 # 2) 7)))
      as (e & He & Hin & Hother); [discriminate|].
    exists e. split; [exact He|]. split; [exact Hin|].
    apply Hother. exists entry_a. split; [right; left; reflexivity | reflexivity].
Defined.

End LeagueWitnesses.

Section PpoWitnesses.
Import Numeric Config Ppo Update Model ModelExample.
Local Open Scope Q_scope.

Lemma shaped_3_1 (a b c : Q) : shaped 3 1 [[a]; [b]; [c]].
Proof. split; [reflexivity | repeat constructor]. Qed.

Lemma compute_gae_shape_witness :
  shaped 3 1 (fst (compute_gae [[1]; [2]; [3]] [[4]; [5]; [6]] [[0]; [1]; [0]] [7]
                               (1 # 2) (95 # 100)))
  /\ shaped 3 1 (snd (compute_gae [[1]; [2]; [3]] [[4]; [5]; [6]] [[0]; [1]; [0]] [7]
                                  (1 # 2) (95 # 100))).
Proof.
  apply (compute_gae_shape [[1]; [2]; [3]] [[4]; [5]; [6]] [[0]; [1]; [0]] [7]
           (1 # 2) (95 # 100) 3 1);
    first [apply shaped_3_1 | reflexivity].
Defined.

Lemma gae_td_residual_witness :
  at2 (fst (compute_gae [[1]; [2]; [3]] [[4]; [5]; [6]] [[0]; [1]; [0]] [7]
                        (1 # 2) (95 # 100))) 1 0
  == 2 + (1 # 2) * 6 * (1 - 1) - 5.
Proof.
  apply (gae_td_residual [[1]; [2]; [3]] [[4]; [5]; [6]] [[0]; [1]; [0]] [7]
           (1 # 2) (95 # 100) 3 1 1 0);
    first [apply shaped_3_1 | reflexivity | lia | right; reflexivity].
Defined.

Lemma gae_lanes_independent_witness :
  at2 (fst (compute_gae [[1; 9]; [2; 9]] [[4; 9]; [5; 9]] [[0; 1]; [0; 0]] [7; 9]
                        (1 # 2) (95 # 100))) 0 0
  == at2 (fst (compute_gae [[1; 0]; [2; 3]] [[4; 1]; [5; 1]] [[0; 0]; [0; 1]] [7; 2]
                           (1 # 2) (95 # 100))) 0 0.
Proof.
  apply (gae_lanes_independent
           [[1; 9]; [2; 9]] [[4; 9]; [5; 9]] [[0; 1]; [0; 0]]
           [[1; 0]; [2; 3]] [[4; 1]; [5; 1]] [[0; 0]; [0; 1]]
           [7; 9] [7; 2] (1 # 2) (95 # 100) 2 2 0);
    try (split; [reflexivity | repeat constructor]);
    try reflexivity; try lia.
  intros [|[|t]] Ht; [repeat split; reflexivity | repeat split; reflexivity | lia].
Defined.

Lemma minibatches_partition_witness :
  exists starts,
    minibatch_starts 5 2 = Ok starts
    /\ concat (map (minibatch_of [3; 1; 4; 0; 2]%nat 2) starts) = [3; 1; 4; 0; 2]%nat.
Proof.
  destruct (minibatches_partition [3; 1; 4; 0; 2]%nat 2 ltac:(lia))
    as (starts & Hs & Hc & _).
  exists starts. split; assumption.
Defined.

Lemma update_stops_at_first_step_witness :
  exists m, update (H := counting_gradient) default_ppo 8 0%nat = Ok (m, 1%nat)
    /\ updates m == 1
    /\ kl m == 1 # 10.
Proof.
  destruct (update_stops_at_first_step (G := counting_gradient) default_ppo 8
              0%nat 0%nat 1%nat (seq 0 8)
              (mkStats 1 2 3 (inject_Z (Z.of_nat 1) / 10) (1 # 2)))
    as (m & Hm & Hu & Hk & _);
    try reflexivity; try lia.
  exists m. split; [exact Hm|]. split; [exact Hu|]. rewrite Hk. reflexivity.
Defined.

Lemma update_edge_cases_witness :
  update (H := counting_gradient) (mkPPO 1 1 1 1 1 1 1 0 4 1 1) 8 0%nat
  = Ok (zero_sums, 0%nat)
  /\ update (H := counting_gradient) (mkPPO 1 1 1 1 1 1 1 4 0 1 1) 8 0%nat
     = Raise ValueError.
Proof.
  split.
  - apply (update_edge_cases (G := counting_gradient)
             (mkPPO 1 1 1 1 1 1 1 0 4 1 1) 8 0%nat). cbn. lia.
  - apply (update_edge_cases (G := counting_gradient)
             (mkPPO 1 1 1 1 1 1 1 4 0 1 1) 8 0%nat); cbn; lia.
Defined.

Lemma masked_logits_idempotent_witness :
  masked_logits (H := torch32) [3; -1; 5] [1; 0; 1]%Z !! 2%nat = Some 5
  /\ masked_logits (H := torch32) (masked_logits (H := torch32) [3; -1; 5] [1; 0; 1]%Z)
                   [1; 0; 1]%Z
     = masked_logits (H := torch32) [3; -1; 5] [1; 0; 1]%Z.
Proof.
  destruct (masked_logits_idempotent (T := torch32) [3; -1; 5] [1; 0; 1]%Z eq_refl)
    as (_ & Hat & Hid).
  split; [apply (Hat 2%nat 5 1%Z); reflexivity | exact Hid].
Defined.

Lemma update_recomputes_sampled_log_prob_witness :
  exists s, sample_action (H := torch32) outputs masks true noise = Ok s
    /\ fst (new_log_prob_entropy (H := torch32) outputs masks (index_of s))
       = s_combined_log_prob s.
Proof.
  destruct (sample_action (H := torch32) outputs masks true noise) as [s|e] eqn:H.
  - exists s. split; [reflexivity|].
    apply (update_recomputes_sampled_log_prob (T := torch32) outputs masks true noise s H).
  - exfalso. vm_compute in H. discriminate H.
Defined.

End PpoWitnesses.

Section ActionWitnesses.
Import Numeric Config Model Env Play ModelExample.
Local Open Scope Q_scope.

Lemma indices_to_action_fields_witness :
  action_type (indices_to_action (fun x => x) (mkSampled 9 3 2 1 0 0 (-1) (-4) 2)) = WAIT
  /\ action_type (indices_to_action (fun x => x) (mkSampled 5 3 2 1 0 0 (-1) (-4) 2))
     = BUY_TURRET_ENGINE.
Proof.
  split.
  - destruct (indices_to_action_fields (fun x => x) (mkSampled 9 3 2 1 0 0 (-1) (-4) 2))
      as (Hout & _).
    apply Hout. cbn. lia.
  - destruct (indices_to_action_fields (fun x => x) (mkSampled 5 3 2 1 0 0 (-1) (-4) 2))
      as (_ & Hin & _).
    apply Hin. reflexivity.
Defined.

Lemma sampled_action_never_sells_witness :
  exists obs s,
    build_observation new_env = Ok obs
    /\ sample_action (H := torch32) flat_outputs (Trainer.obs_masks obs) false noise = Ok s
    /\ action_type (indices_to_action (fun x => x) s) <> SELL_TURRET_ENGINE.
Proof.
  destruct (build_observation new_env) as [obs|e] eqn:Hobs;
    [|exfalso; vm_compute in Hobs; discriminate Hobs].
  assert (Hmask : action_type_mask obs = [1; 1; 1; 1; 1; 1; 0; 0]%Z).
  { vm_compute in Hobs. inversion Hobs. reflexivity. }
  destruct (sample_action (H := torch32) flat_outputs (Trainer.obs_masks obs) false noise)
    as [s|e] eqn:Hs.
  - exists obs, s. split; [reflexivity|]. split; [exact Hs|].
    apply (sampled_action_never_sells (T := torch32) (R := example_runtime) 150
             (Laws := torch32_laws) new_env obs flat_outputs false noise s (fun x => x)).
    + reflexivity.
    + exact Hobs.
    + exists 0%nat, 0, 1%Z. rewrite Hmask.
      split; [reflexivity|]. split; [reflexivity|]. split; [lia|].
      vm_compute. discriminate.
    + vm_compute. discriminate.
    + reflexivity.
    + exact Hs.
  - exfalso. vm_compute in Hobs. inversion Hobs; subst obs.
    vm_compute in Hs. discriminate Hs.
Defined.

End ActionWitnesses.

Section TrainerWitnesses.
Import Numeric Trainer TrainerExample MoreExamples.
Local Open Scope Q_scope.

Lemma anneal_stays_above_floor_witness :
  Config.entropy_coef_min Config.default_ppo
  <= Config.entropy_coef (anneal_calls [1024; 2048]%Z Config.default_ppo)
  /\ Config.entropy_coef (anneal_calls [1024; 2048]%Z Config.default_ppo)
     <= Config.entropy_coef Config.default_ppo.
Proof.
  destruct (anneal_stays_above_floor [1024; 2048]%Z Config.default_ppo)
    as (Hlo & Hhi & _).
  - repeat constructor; lia.
  - vm_compute. discriminate.
  - split; [exact Hlo | exact Hhi].
Defined.

Lemma checkpoint_round_trip_witness :
  exists t',
    rollback_checkpoint
      (mkTrainer counter_learner small_config 7%Z 9%Z (League.init 8) tt 24%Z
                 (last_good_checkpoint (checkpoint_block fresh))
                 (disk (checkpoint_block fresh)) [])
    = Ok t'
    /\ model t' = 0%Z /\ optimizer t' = 0%Z.
Proof.
  destruct (checkpoint_round_trip (L := counter_learner) fresh
              (mkTrainer counter_learner small_config 7%Z 9%Z (League.init 8) tt 24%Z
                         (last_good_checkpoint (checkpoint_block fresh))
                         (disk (checkpoint_block fresh)) []))
    as (t' & Ht' & Hm & Ho & _).
  - intros H. vm_compute in H. discriminate H.
  - reflexivity.
  - reflexivity.
  - exists t'. split; [exact Ht'|]. split; [exact Hm | exact Ho].
Defined.

Lemma train_terminates_witness :
  exists r, train 8 fresh = Some r.
Proof.
  destruct (train_terminates (L := counter_learner) 8 fresh) as (r & Hr & _).
  - reflexivity.
  - vm_compute. discriminate.
  - exists r. exact Hr.
Defined.

Lemma train_never_completes_witness :
  train 5 no_lane_trainer <> Some (Ok no_lane_trainer).
Proof.
  apply (train_never_completes (L := counter_learner) 5 no_lane_trainer no_lane_trainer).
  - vm_compute. discriminate.
  - reflexivity.
Defined.

End TrainerWitnesses.
